(** * Argus runtime monitoring: the Monitor and the Fixer

    A shallow embedding of

    - [monitorSandbox], [setupErrorListeners] and [parseErrorSource]
      (the monitor-runtime route), and
    - the file-resolution part of [fixRuntimeErrors]
      (src/lib/runtime-error-fixer.ts),

    together with the properties the specification states about them.

    JavaScript strings are sequences of UTF-16 code units; they are
    modelled as lists of code units, so that the regular-expression class
    [\s] keeps its full meaning.  The browser, the clock and the id
    generator are the environment of a session: their answers are inputs
    of the model. *)

From Stdlib Require Import Ascii String DecimalString.
From Stdlib Require Import List Bool Arith NArith ZArith Lia.
From Stdlib Require Import Permutation.
Import ListNotations.

Set Implicit Arguments.

(* ================================================================== *)
(** ** JavaScript strings *)

(** A UTF-16 code unit. *)
Definition char := N.

Definition jstring := list char.

(** The code units of an ASCII literal. *)
Fixpoint lit (s : string) : jstring :=
  match s with
  | EmptyString => []
  | String a r => N_of_ascii a :: lit r
  end.

(** [a === b] on strings. *)
Fixpoint jstring_eqb (a b : jstring) : bool :=
  match a, b with
  | [], [] => true
  | x :: a', y :: b' => N.eqb x y && jstring_eqb a' b'
  | _, _ => false
  end.

(** [s.startsWith(p)]. *)
Fixpoint startsWith (s p : jstring) {struct p} : bool :=
  match p with
  | [] => true
  | y :: p' =>
      match s with
      | [] => false
      | x :: s' => N.eqb x y && startsWith s' p'
      end
  end.

(** [s.slice(n)] for a non-negative [n]. *)
Definition slice (n : nat) (s : jstring) : jstring := skipn n s.

(** [s.endsWith(p)]: the last [p.length] code units of [s] are [p]. *)
Definition endsWith (s p : jstring) : bool :=
  jstring_eqb (skipn (length s - length p) s) p.

(** [xs.includes(x)] on an array of strings. *)
Definition includes (xs : list jstring) (x : jstring) : bool :=
  existsb (jstring_eqb x) xs.

(** A string in a boolean position: the empty string is falsy. *)
Definition truthy (s : jstring) : bool :=
  match s with [] => false | _ :: _ => true end.

(** [`${n}`] for an integer [n]. *)
Definition show_int (z : Z) : jstring := lit (NilZero.string_of_int (Z.to_int z)).

(** JavaScript numbers, as far as [parseInt] produces them here: [NaN], or
    the Number value of a non-negative integer.  [Num n] stands for the
    double nearest to [n], which is [n] itself below 2^53; line and column
    numbers are compared through [n]. *)
Inductive number := NaN | Num (n : N).

Definition isDigit (c : char) : bool := (48 <=? c)%N && (c <=? 57)%N.

Fixpoint digits_value (acc : N) (s : jstring) : N :=
  match s with
  | [] => acc
  | c :: s' => if isDigit c then digits_value (10 * acc + (c - 48))%N s' else acc
  end.

(** [parseInt(s)] on the strings the monitor passes to it, which begin
    with a decimal digit: the value of the leading run of digits.  A string
    that does not begin with a digit is mapped to [NaN]; the sign, the
    leading white space and the hexadecimal prefix that [parseInt] also
    accepts do not occur in a [\d+] capture. *)
Definition parseInt (s : jstring) : number :=
  match s with
  | [] => NaN
  | c :: _ => if isDigit c then Num (digits_value 0 s) else NaN
  end.

(* ================================================================== *)
(** ** Regular expressions

    The fragment of the regular-expression syntax that the two patterns of
    [parseErrorSource] use, with the backtracking semantics of
    [String.prototype.match] for a pattern without flags: the leftmost
    start position wins, quantifiers are greedy and give back on failure. *)

Inductive regex :=
| Cls (p : char -> bool)          (* one code unit of a class; a literal is a class *)
| Cat (r1 r2 : regex)             (* r1 r2 *)
| Plus (p : char -> bool)         (* [class]+ *)
| Opt (r : regex)                 (* r? *)
| Grp (r : regex).                (* ( r ), capturing *)

(** Captures, in the order in which the groups close; the patterns below
    have no nested groups, so this is the order of [match[1]], [match[2]],
    ...  *)
Definition captures := list jstring.

Section Backtracking.
Variable R : Type.

(** Greedy [class]+ : take as many code units as possible, then give them
    back one at a time until the continuation accepts. *)
Fixpoint plus (p : char -> bool) (s : jstring) (k : jstring -> option R)
  : option R :=
  match s with
  | [] => None
  | c :: s' =>
      if p c then
        match plus p s' k with
        | Some r => Some r
        | None => k s'
        end
      else None
  end.
End Backtracking.

(** [m r s cs k]: match [r] at the front of [s], then continue with [k] on
    the rest of the input and the captures so far. *)
Fixpoint m (r : regex) (s : jstring) (cs : captures)
    (k : jstring -> captures -> option captures) : option captures :=
  match r with
  | Cls p =>
      match s with
      | c :: s' => if p c then k s' cs else None
      | [] => None
      end
  | Cat r1 r2 => m r1 s cs (fun s' cs' => m r2 s' cs' k)
  | Plus p => plus p s (fun s' => k s' cs)
  | Opt r1 =>
      match m r1 s cs k with
      | Some out => Some out
      | None => k s cs
      end
  | Grp r1 =>
      m r1 s cs (fun s' cs' => k s' (cs' ++ [firstn (length s - length s') s]))
  end.

(** [text.match(r)]: the first start position at which [r] matches; the
    result holds the captures. *)
Fixpoint exec (r : regex) (text : jstring) : option captures :=
  match m r text [] (fun _ cs => Some cs) with
  | Some cs => Some cs
  | None =>
      match text with
      | [] => None
      | _ :: text' => exec r text'
      end
  end.

(** What it means for a string to match, without any search order: the
    string matched and the captures it produces. *)
Inductive Matches : regex -> jstring -> captures -> Prop :=
| M_Cls p c : p c = true -> Matches (Cls p) [c] []
| M_Cat r1 r2 s1 s2 c1 c2 :
    Matches r1 s1 c1 -> Matches r2 s2 c2 ->
    Matches (Cat r1 r2) (s1 ++ s2) (c1 ++ c2)
| M_Plus p s : s <> [] -> forallb p s = true -> Matches (Plus p) s []
| M_OptSome r s c : Matches r s c -> Matches (Opt r) s c
| M_OptNone r : Matches (Opt r) [] []
| M_Grp r s c : Matches r s c -> Matches (Grp r) s (c ++ [s]).

(** Character classes. *)
Definition chr (a : ascii) (c : char) : bool := N.eqb c (N_of_ascii a).

(** [[^)]] *)
Definition notRParen (c : char) : bool := negb (chr ")" c).

(** [\s]: white space and line terminators. *)
Definition isSpace (c : char) : bool :=
  ((9 <=? c) && (c <=? 13) || (c =? 32) || (c =? 160) || (c =? 5760)
   || (8192 <=? c) && (c <=? 8202) || (c =? 8232) || (c =? 8233)
   || (c =? 8239) || (c =? 8287) || (c =? 12288) || (c =? 65279))%N.

(** [[^\s]] *)
Definition notSpace (c : char) : bool := negb (isSpace c).

(** [/\(([^)]+):(\d+):(\d+)\)/] *)
Definition parenPattern : regex :=
  Cat (Cls (chr "("))
   (Cat (Grp (Plus notRParen))
    (Cat (Cls (chr ":"))
     (Cat (Grp (Plus isDigit))
      (Cat (Cls (chr ":"))
       (Cat (Grp (Plus isDigit))
            (Cls (chr ")"))))))).

(** [/([^\s]+\.jsx?):(\d+)/] *)
Definition simplePattern : regex :=
  Cat (Grp (Cat (Plus notSpace)
            (Cat (Cls (chr "."))
             (Cat (Cls (chr "j"))
              (Cat (Cls (chr "s"))
                   (Opt (Cls (chr "x"))))))))
   (Cat (Cls (chr ":"))
        (Grp (Plus isDigit))).

(** [match[i]] for [i >= 1]. *)
Definition group (i : nat) (cs : captures) : jstring := nth (i - 1) cs [].

(* ================================================================== *)
(** ** Source locations *)

Record SourceLoc := mkSourceLoc {
  file : jstring;
  line : option number;
  column : option number
}.

(** Parse error source (file, line, column) from error message/stack. *)
Definition parseErrorSource (errorText : jstring) : option SourceLoc :=
  match exec parenPattern errorText with
  | Some mt =>
      Some {| file := group 1 mt;
              line := Some (parseInt (group 2 mt));
              column := Some (parseInt (group 3 mt)) |}
  | None =>
      match exec simplePattern errorText with
      | Some simpleMatch =>
          Some {| file := group 1 simpleMatch;
                  line := Some (parseInt (group 2 simpleMatch));
                  column := None |}
      | None => None
      end
  end.

(* ================================================================== *)
(** ** Data model (src/types/runtime-monitoring.ts) *)

Inductive RuntimeErrorType :=
| ConsoleError      (* 'console-error' *)
| ConsoleWarning    (* 'console-warning' *)
| Network404        (* 'network-404' *)
| Network500        (* 'network-500' *)
| Exception         (* 'exception' *)
| NetworkOther.     (* 'network-other' *)

(** The string a type is at run time. *)
Definition type_str (t : RuntimeErrorType) : jstring :=
  match t with
  | ConsoleError => lit "console-error"
  | ConsoleWarning => lit "console-warning"
  | Network404 => lit "network-404"
  | Network500 => lit "network-500"
  | Exception => lit "exception"
  | NetworkOther => lit "network-other"
  end.

Inductive RuntimeErrorSeverity := Critical | Error | Warning | Info.

Record RuntimeError := mkRuntimeError {
  id : jstring;
  type : RuntimeErrorType;
  severity : RuntimeErrorSeverity;
  message : jstring;
  stack : option jstring;
  url : option jstring;
  statusCode : option Z;
  timestamp : Z;
  source : option SourceLoc
}.

Record Summary := mkSummary {
  totalErrors : nat;
  consoleErrors : nat;
  networkErrors : nat;
  exceptions : nat
}.

Record RuntimeMonitorResult := mkResult {
  success : bool;
  sandboxId : jstring;
  hasErrors : bool;
  errors : list RuntimeError;
  warnings : list RuntimeError;
  summary : Summary;
  monitorDuration : Z;
  monitoringError : option jstring
}.

Module Config.
Record t := mk {
  sandboxUrl : jstring;
  sandboxId : jstring;
  timeout : option Z;
  errorTypes : option (list jstring)
}.
End Config.

Definition RuntimeMonitorConfig := Config.t.

(** The severity the specification assigns to each type (its data model:
    console-error -> error, exception -> critical, network-404 -> error,
    network-500 -> critical, network-other and console-warning ->
    warning).  This table is the specification's; the code writes a
    severity next to every type it writes. *)
Definition spec_severity (t : RuntimeErrorType) : RuntimeErrorSeverity :=
  match t with
  | ConsoleError => Error
  | Exception => Critical
  | Network404 => Error
  | Network500 => Critical
  | NetworkOther => Warning
  | ConsoleWarning => Warning
  end.

(** [e.severity === 'critical' || e.severity === 'error'] *)
Definition isCritical (e : RuntimeError) : bool :=
  match severity e with
  | Critical | Error => true
  | _ => false
  end.

(* ================================================================== *)
(** ** The session: state, faults and the environment *)

(** What a session can change: its two collections (the arrays [errors]
    and [warnings], shared between [monitorSandbox] and the listeners),
    the variable [browser], the browser process itself, and how many ids
    and clock readings have been drawn. *)
Record World := mkWorld {
  st_errors : list RuntimeError;
  st_warnings : list RuntimeError;
  st_browser : bool;      (* the variable [browser] is not null *)
  st_live : bool;         (* a browser process is running *)
  st_ids : nat;           (* calls of nanoid() so far *)
  st_ticks : nat          (* calls of Date.now() so far *)
}.

(** A computation either yields a value or throws an [Error] with a
    message. *)
Inductive outcome (A : Type) :=
| Ok (a : A)
| Throw (msg : jstring).

Arguments Ok {A} a.
Arguments Throw {A} msg.

Definition M (A : Type) := World -> outcome A * World.

Definition ret {A} (a : A) : M A := fun w => (Ok a, w).

Definition bind {A B} (c : M A) (k : A -> M B) : M B :=
  fun w =>
    match c w with
    | (Ok a, w') => k a w'
    | (Throw e, w') => (Throw e, w')
    end.

Definition throw {A} (e : jstring) : M A := fun w => (Throw e, w).

(** [try { body } catch (e) { handler e }] *)
Definition try_catch {A} (body : M A) (handler : jstring -> M A) : M A :=
  fun w =>
    match body w with
    | (Ok a, w') => (Ok a, w')
    | (Throw e, w') => handler e w'
    end.

Declare Scope session_scope.
Delimit Scope session_scope with session.
Notation "x <- c ;; k" := (bind c (fun x => k))
  (at level 61, c at next level, right associativity) : session_scope.
Notation "c ;; k" := (bind c (fun _ => k))
  (at level 61, right associativity) : session_scope.
Open Scope session_scope.

Definition when (b : bool) (c : M unit) : M unit := if b then c else ret tt.

(** The four kinds of event a page emits to the listeners. *)
Inductive Signal :=
| Console (msgType text : jstring)                 (* msg.type(), msg.text() *)
| PageError (msg : jstring) (stk : option jstring) (* error.message, error.stack *)
| Response (status : Z) (rurl : jstring)           (* response.status(), response.url() *)
| RequestFailed (rurl : jstring) (errorText : option jstring).
                                                   (* request.url(), request.failure()?.errorText *)

(** How far browser acquisition gets. *)
Inductive Acquire :=
| LaunchFault (msg : jstring)     (* chromium.launch rejects *)
| ContextFault (msg : jstring)    (* browser.newContext rejects *)
| PageFault (msg : jstring)       (* context.newPage rejects *)
| Acquired.

(** What [page.evaluate] of the root check gives: [root && root.children.length > 0]
    is [null] without a root element, else a boolean. *)
Inductive Evaluated :=
| EvalThrows (msg : jstring)
| EvalNull
| EvalBool (b : bool).

(** The behaviour of the browser during one session: the answer to each
    awaited call, and the events the page emits while the call is pending.
    The launch options (serverless or local binary) and the timeouts only
    select among these behaviours. *)
Record Browser := mkBrowser {
  acquire : Acquire;
  navSignals : list Signal;        (* emitted during page.goto *)
  navigation : option jstring;     (* page.goto: resolves, or rejects with a message *)
  settleSignals : list Signal;     (* emitted during page.waitForTimeout *)
  settle : option jstring;         (* page.waitForTimeout: resolves, or rejects *)
  checkSignals : list Signal;      (* emitted during page.evaluate *)
  check : Evaluated;
  closeSignals : list Signal;      (* emitted during browser.close *)
  closeFault : option jstring;     (* the browser.close() of the main path *)
  cleanupFault : option jstring    (* the browser.close() of the outer catch *)
}.

Definition world0 : World :=
  {| st_errors := []; st_warnings := []; st_browser := false; st_live := false;
     st_ids := 0; st_ticks := 0 |}.

Definition get_errors : M (list RuntimeError) := fun w => (Ok (st_errors w), w).
Definition get_warnings : M (list RuntimeError) := fun w => (Ok (st_warnings w), w).
Definition get_browser : M bool := fun w => (Ok (st_browser w), w).

(** [errors.push(e)] *)
Definition push_error (e : RuntimeError) : M unit :=
  fun w => (Ok tt,
            {| st_errors := st_errors w ++ [e]; st_warnings := st_warnings w;
               st_browser := st_browser w; st_live := st_live w;
               st_ids := st_ids w; st_ticks := st_ticks w |}).

(** [warnings.push(e)] *)
Definition push_warning (e : RuntimeError) : M unit :=
  fun w => (Ok tt,
            {| st_errors := st_errors w; st_warnings := st_warnings w ++ [e];
               st_browser := st_browser w; st_live := st_live w;
               st_ids := st_ids w; st_ticks := st_ticks w |}).

(** [browser = b] for the variable, [live] for the process. *)
Definition set_browser (b : bool) : M unit :=
  fun w => (Ok tt,
            {| st_errors := st_errors w; st_warnings := st_warnings w;
               st_browser := b; st_live := st_live w;
               st_ids := st_ids w; st_ticks := st_ticks w |}).

Definition set_live (b : bool) : M unit :=
  fun w => (Ok tt,
            {| st_errors := st_errors w; st_warnings := st_warnings w;
               st_browser := st_browser w; st_live := b;
               st_ids := st_ids w; st_ticks := st_ticks w |}).

(** [await browser.close()]: on success the process is gone; a rejected
    close leaves it as it was. *)
Definition browser_close (fault : option jstring) : M unit :=
  match fault with
  | None => set_live false
  | Some msg => throw msg
  end.

(* ================================================================== *)
(** ** The Monitor (monitor-runtime route) *)

Section Monitor.
(** The id generator and the clock: the n-th id, the n-th reading. *)
Variable nanoid : nat -> jstring.
Variable clock : nat -> Z.

(** [nanoid()] *)
Definition fresh_id : M jstring :=
  fun w => (Ok (nanoid (st_ids w)),
            {| st_errors := st_errors w; st_warnings := st_warnings w;
               st_browser := st_browser w; st_live := st_live w;
               st_ids := S (st_ids w); st_ticks := st_ticks w |}).

(** [Date.now()] *)
Definition Date_now : M Z :=
  fun w => (Ok (clock (st_ticks w)),
            {| st_errors := st_errors w; st_warnings := st_warnings w;
               st_browser := st_browser w; st_live := st_live w;
               st_ids := st_ids w; st_ticks := S (st_ticks w) |}).

Section Listeners.
(** The fourth argument of [setupErrorListeners]. *)
Variable errorTypes : option (list jstring).

Definition shouldCapture (type : jstring) : bool :=
  match errorTypes with
  | None => true
  | Some ts =>
      match ts with
      | [] => true
      | _ :: _ => includes ts type
      end
  end.

(** 1. Capture console messages *)
Definition onConsole (msgType text : jstring) : M unit :=
  if jstring_eqb msgType (lit "error") && shouldCapture (lit "console-error") then
    i <- fresh_id ;;
    ts <- Date_now ;;
    push_error {| id := i; type := ConsoleError; severity := Error;
                  message := text; stack := None; url := None;
                  statusCode := None; timestamp := ts;
                  source := parseErrorSource text |}
  else if jstring_eqb msgType (lit "warning") && shouldCapture (lit "console-warning") then
    i <- fresh_id ;;
    ts <- Date_now ;;
    push_warning {| id := i; type := ConsoleWarning; severity := Warning;
                    message := text; stack := None; url := None;
                    statusCode := None; timestamp := ts; source := None |}
  else ret tt.

(** [error.stack || error.message] *)
Definition stack_or_message (msg : jstring) (stk : option jstring) : jstring :=
  match stk with
  | Some s => if truthy s then s else msg
  | None => msg
  end.

(** 2. Capture uncaught exceptions *)
Definition onPageError (msg : jstring) (stk : option jstring) : M unit :=
  if shouldCapture (lit "exception") then
    i <- fresh_id ;;
    ts <- Date_now ;;
    push_error {| id := i; type := Exception; severity := Critical;
                  message := msg; stack := stk; url := None;
                  statusCode := None; timestamp := ts;
                  source := parseErrorSource (stack_or_message msg stk) |}
  else ret tt.

(** 3. Capture network errors *)
Definition onResponse (status : Z) (rurl : jstring) : M unit :=
  if (status =? 404)%Z && shouldCapture (lit "network-404") then
    i <- fresh_id ;;
    ts <- Date_now ;;
    push_error {| id := i; type := Network404; severity := Error;
                  message := lit "404 Not Found: " ++ rurl; stack := None;
                  url := Some rurl; statusCode := Some 404%Z;
                  timestamp := ts; source := None |}
  else if (500 <=? status)%Z && shouldCapture (lit "network-500") then
    i <- fresh_id ;;
    ts <- Date_now ;;
    push_error {| id := i; type := Network500; severity := Critical;
                  message := lit "HTTP " ++ show_int status ++ lit ": " ++ rurl;
                  stack := None; url := Some rurl; statusCode := Some status;
                  timestamp := ts; source := None |}
  else if (400 <=? status)%Z && (status <? 500)%Z && negb (status =? 404)%Z then
    i <- fresh_id ;;
    ts <- Date_now ;;
    push_warning {| id := i; type := NetworkOther; severity := Warning;
                    message := lit "HTTP " ++ show_int status ++ lit ": " ++ rurl;
                    stack := None; url := Some rurl; statusCode := Some status;
                    timestamp := ts; source := None |}
  else ret tt.

(** [failure?.errorText || 'Unknown error'] *)
Definition failure_text (errorText : option jstring) : jstring :=
  match errorText with
  | Some t => if truthy t then t else lit "Unknown error"
  | None => lit "Unknown error"
  end.

(** 4. Capture request failures *)
Definition onRequestFailed (rurl : jstring) (errorText : option jstring) : M unit :=
  i <- fresh_id ;;
  ts <- Date_now ;;
  push_warning {| id := i; type := NetworkOther; severity := Warning;
                  message := lit "Request failed: " ++ failure_text errorText
                             ++ lit " - " ++ rurl;
                  stack := None; url := Some rurl; statusCode := None;
                  timestamp := ts; source := None |}.

(** The page emits one event: the listener registered for it runs. *)
Definition dispatch (sg : Signal) : M unit :=
  match sg with
  | Console msgType text => onConsole msgType text
  | PageError msg stk => onPageError msg stk
  | Response status rurl => onResponse status rurl
  | RequestFailed rurl errorText => onRequestFailed rurl errorText
  end.

(** The events emitted while one call is pending, in firing order. *)
Fixpoint emit (sgs : list Signal) : M unit :=
  match sgs with
  | [] => ret tt
  | sg :: rest => dispatch sg ;; emit rest
  end.
End Listeners.

(** [e.type.startsWith('console-')] and its siblings. *)
Definition isConsole (e : RuntimeError) : bool :=
  startsWith (type_str (type e)) (lit "console-").
Definition isNetwork (e : RuntimeError) : bool :=
  startsWith (type_str (type e)) (lit "network-").
Definition isException (e : RuntimeError) : bool :=
  jstring_eqb (type_str (type e)) (lit "exception").

(** Browser acquisition: [chromium.launch], [browser.newContext],
    [context.newPage].  The variable [browser] is assigned as soon as
    the launch resolves. *)
Definition acquire_page (a : Acquire) : M unit :=
  match a with
  | LaunchFault msg => throw msg
  | ContextFault msg => set_live true ;; set_browser true ;; throw msg
  | PageFault msg => set_live true ;; set_browser true ;; throw msg
  | Acquired => set_live true ;; set_browser true
  end.

(** An awaited call on the page: the events emitted meanwhile reach the
    listeners, then the call resolves or rejects. *)
Definition awaiting {A} (errorTypes : option (list jstring))
    (sgs : list Signal) (answer : M A) : M A :=
  emit errorTypes sgs ;; answer.

Definition settled (fault : option jstring) : M unit :=
  match fault with
  | None => ret tt
  | Some msg => throw msg
  end.

(** The value of the root check, or the exception it throws. *)
Definition evaluated (v : Evaluated) : M bool :=
  match v with
  | EvalThrows msg => throw msg
  | EvalNull => ret false
  | EvalBool b => ret b
  end.

(** Monitor a sandbox for runtime errors using Playwright. *)
Definition monitorSandbox (config : RuntimeMonitorConfig) (br : Browser)
  : M RuntimeMonitorResult :=
  startTime <- Date_now ;;
  try_catch
    (acquire_page (acquire br) ;;
     (* setupErrorListeners(page, errors, warnings, config.errorTypes):
        from here on every event reaches the listeners *)
     let errorTypes := Config.errorTypes config in
     nav <- try_catch
              (awaiting errorTypes (navSignals br) (settled (navigation br)) ;;
               ret None)
              (fun navError => ret (Some navError)) ;;
     match nav with
     | Some navError =>
         (* Navigation failed - close browser and return error *)
         awaiting errorTypes (closeSignals br) (browser_close (closeFault br)) ;;
         set_browser false ;;
         i <- fresh_id ;;
         ts <- Date_now ;;
         fin <- Date_now ;;
         ret {| success := false;
                sandboxId := Config.sandboxId config;
                hasErrors := true;
                errors := [ {| id := i; type := NetworkOther; severity := Critical;
                               message := lit "Failed to navigate to sandbox: "
                                          ++ navError;
                               stack := None;
                               url := Some (Config.sandboxUrl config);
                               statusCode := None; timestamp := ts;
                               source := None |} ];
                warnings := [];
                summary := {| totalErrors := 1; consoleErrors := 0;
                              networkErrors := 1; exceptions := 0 |};
                monitorDuration := (fin - startTime)%Z;
                monitoringError := None |}
     | None =>
         (* Wait for React to render *)
         try_catch
           (awaiting errorTypes (settleSignals br) (settled (settle br)))
           (fun _ => ret tt) ;;
         (* Check if page has content *)
         hasContent <- try_catch
                         (awaiting errorTypes (checkSignals br) (evaluated (check br)))
                         (fun _ => ret false) ;;
         when (negb hasContent)
           (i <- fresh_id ;;
            ts <- Date_now ;;
            push_warning {| id := i; type := ConsoleWarning; severity := Warning;
                            message := lit "React root is empty - page may not have rendered";
                            stack := None; url := None; statusCode := None;
                            timestamp := ts; source := None |}) ;;
         (* Close browser *)
         awaiting errorTypes (closeSignals br) (browser_close (closeFault br)) ;;
         set_browser false ;;
         (* Classify errors *)
         errors <- get_errors ;;
         warnings <- get_warnings ;;
         let criticalErrors := filter isCritical errors in
         let summary :=
           {| totalErrors := length errors + length warnings;
              consoleErrors := length (filter isConsole errors);
              networkErrors := length (filter isNetwork errors);
              exceptions := length (filter isException errors) |} in
         fin <- Date_now ;;
         ret {| success := true;
                sandboxId := Config.sandboxId config;
                hasErrors := 0 <? length criticalErrors;
                errors := errors;
                warnings := warnings;
                summary := summary;
                monitorDuration := (fin - startTime)%Z;
                monitoringError := None |}
     end)
    (fun error =>
       (* Clean up browser if error occurred *)
       b <- get_browser ;;
       when b (try_catch (browser_close (cleanupFault br)) (fun _ => ret tt)) ;;
       throw error).

(** One session, from a fresh state. *)
Definition session (config : RuntimeMonitorConfig) (br : Browser)
  : outcome RuntimeMonitorResult * World :=
  monitorSandbox config br world0.
End Monitor.

(* ================================================================== *)
(** ** The Fixer: file resolution (src/lib/runtime-error-fixer.ts) *)

(** A JavaScript [Set] of strings: its elements in insertion order, each
    once. *)
Definition StringSet := list jstring.

(** [set.add(x)] *)
Definition Set_add (x : jstring) (s : StringSet) : StringSet :=
  if includes s x then s else s ++ [x].

(** [new Set(xs)] *)
Definition Set_new (xs : list jstring) : StringSet :=
  fold_left (fun s x => Set_add x s) xs [].

(** [set.has(x)] *)
Definition Set_has (s : StringSet) (x : jstring) : bool := includes s x.

(** Normalize path (remove leading slash or ./ if present), and ensure it
    is in src if it looks like a component: the body of the [if
    (error.source?.file)] block of [fixRuntimeErrors], up to the
    [relevantFiles.add]. *)
Definition normalizePath (path0 : jstring) : jstring :=
  let path1 := if startsWith path0 (lit "/") then slice 1 path0 else path0 in
  let path2 := if startsWith path1 (lit "./") then slice 2 path1 else path1 in
  if negb (startsWith path2 (lit "src/"))
     && (endsWith path2 (lit ".jsx") || endsWith path2 (lit ".tsx"))
  then lit "src/" ++ path2
  else path2.

(** One round of the [errors.forEach] callback.  The second half of the
    callback matches a file name in the message and drops the result; it
    has no effect and is left out. *)
Definition addErrorFile (relevantFiles : StringSet) (error : RuntimeError)
  : StringSet :=
  match source error with
  | Some src =>
      if truthy (file src)
      then Set_add (normalizePath (file src)) relevantFiles
      else relevantFiles
  | None => relevantFiles
  end.

(** Step 1 of [fixRuntimeErrors]: the set [relevantFiles] once the loop
    over the errors is done.  [focusFiles] is [None] when the caller
    leaves it out, and defaults to the empty list. *)
Definition relevantFiles (errors : list RuntimeError)
    (focusFiles : option (list jstring)) : StringSet :=
  let focus := match focusFiles with Some fs => fs | None => [] end in
  let s0 := Set_new focus in
  (* Always include critical configuration files *)
  let s1 := Set_add (lit "package.json") s0 in
  let s2 := Set_add (lit "index.html") s1 in
  let s3 := Set_add (lit "src/index.css") s2 in
  let s4 := Set_add (lit "src/main.jsx") s3 in
  fold_left addErrorFile errors s4.

(** Step 2: read file contents; a file the provider cannot read ([None])
    is skipped. *)
Definition fileContexts (readFile : jstring -> option jstring)
    (files : StringSet) : list (jstring * jstring) :=
  flat_map (fun filePath =>
              match readFile filePath with
              | Some content => [(filePath, content)]
              | None => []
              end) files.

(** The always-relevant files. *)
Definition alwaysRelevant : list jstring :=
  [lit "package.json"; lit "index.html"; lit "src/index.css"; lit "src/main.jsx"].

(* ================================================================== *)
(** ** Occurrences of the two location patterns, stated on the text *)

(** [text] contains [(f:l:c)]: [f] is not empty and has no [)], [l] and
    [c] are non-empty runs of digits. *)
Definition ParenLoc (text f l c : jstring) : Prop :=
  exists pre post,
    text = pre ++ lit "(" ++ f ++ lit ":" ++ l ++ lit ":" ++ c ++ lit ")" ++ post
    /\ f <> [] /\ forallb notRParen f = true
    /\ l <> [] /\ forallb isDigit l = true
    /\ c <> [] /\ forallb isDigit c = true.

(** [text] contains [f:l] where [f] is a non-empty run without white
    space followed by [.js] or [.jsx], and [l] is a non-empty run of
    digits. *)
Definition SimpleLoc (text f l : jstring) : Prop :=
  exists pre post stem,
    text = pre ++ f ++ lit ":" ++ l ++ post
    /\ (f = stem ++ lit ".js" \/ f = stem ++ lit ".jsx")
    /\ stem <> [] /\ forallb notSpace stem = true
    /\ l <> [] /\ forallb isDigit l = true.

Definition HasParenLoc (text : jstring) : Prop := exists f l c, ParenLoc text f l c.
Definition HasSimpleLoc (text : jstring) : Prop := exists f l, SimpleLoc text f l.

(** The decimal value of a run of digits. *)
Definition decimal (s : jstring) : N := digits_value 0 s.

(* ================================================================== *)
(** ** What the two collections hold *)

(** The (type, severity) pairs that [errors.push] is called with. *)
Definition errorEntry (e : RuntimeError) : bool :=
  match type e, severity e with
  | ConsoleError, Error => true
  | Exception, Critical => true
  | Network404, Error => true
  | Network500, Critical => true
  | _, _ => false
  end.

(** The (type, severity) pairs that [warnings.push] is called with. *)
Definition warningEntry (e : RuntimeError) : bool :=
  match type e, severity e with
  | ConsoleWarning, Warning => true
  | NetworkOther, Warning => true
  | _, _ => false
  end.

(** [w'] extends [w]: both collections only grew, by entries of the right
    kind, and the browser is as it was. *)
Definition grows (w w' : World) : Prop :=
  (exists es, st_errors w' = st_errors w ++ es /\ forallb errorEntry es = true)
  /\ (exists ws, st_warnings w' = st_warnings w ++ ws /\ forallb warningEntry ws = true)
  /\ st_browser w' = st_browser w
  /\ st_live w' = st_live w.

(** The same browser, behaving in another way during the settle wait and
    the content check. *)
Definition with_rest (br : Browser) (setS : list Signal) (stl : option jstring)
    (chkS : list Signal) (chk : Evaluated) : Browser :=
  {| acquire := acquire br;
     navSignals := navSignals br;
     navigation := navigation br;
     settleSignals := setS;
     settle := stl;
     checkSignals := chkS;
     check := chk;
     closeSignals := closeSignals br;
     closeFault := closeFault br;
     cleanupFault := cleanupFault br |}.

(* ================================================================== *)
(** ** Concrete sessions *)

Definition demo_nanoid (n : nat) : jstring := lit "id-" ++ show_int (Z.of_nat n).

Definition demo_clock (n : nat) : Z := 1000 + 10 * Z.of_nat n.

Definition demo_config : RuntimeMonitorConfig :=
  {| Config.sandboxUrl := lit "http://x/never-resolves";
     Config.sandboxId := lit "s1";
     Config.timeout := Some 500%Z;
     Config.errorTypes := None |}.

(** Only console errors are asked for. *)
Definition demo_config_console_only : RuntimeMonitorConfig :=
  {| Config.sandboxUrl := lit "http://x/app";
     Config.sandboxId := lit "s2";
     Config.timeout := None;
     Config.errorTypes := Some [lit "console-error"] |}.

(** A page that loads, logs an error and a warning, misses a script and
    throws once while rendering. *)
Definition page_loads : Browser :=
  {| acquire := Acquired;
     navSignals := [ Console (lit "error") (lit "x is not defined");
                     Response 404 (lit "http://x/missing.js");
                     Console (lit "warning") (lit "deprecated") ];
     navigation := None;
     settleSignals := [ PageError (lit "boom")
                          (Some (lit "Error: boom at render (App.jsx:42:15)")) ];
     settle := None;
     checkSignals := [];
     check := EvalBool true;
     closeSignals := [];
     closeFault := None;
     cleanupFault := None |}.

(** A page that loads and only raises warnings. *)
Definition page_warns : Browser :=
  {| acquire := Acquired;
     navSignals := [ Console (lit "warning") (lit "deprecated");
                     Response 403 (lit "http://x/api") ];
     navigation := None;
     settleSignals := [];
     settle := None;
     checkSignals := [];
     check := EvalNull;
     closeSignals := [];
     closeFault := None;
     cleanupFault := None |}.

(** A target that never answers: navigation times out. *)
Definition page_unreachable : Browser :=
  {| acquire := Acquired;
     navSignals := [ RequestFailed (lit "http://x/never-resolves")
                       (Some (lit "net::ERR_CONNECTION_REFUSED")) ];
     navigation := Some (lit "Timeout 500ms exceeded");
     settleSignals := [];
     settle := None;
     checkSignals := [];
     check := EvalNull;
     closeSignals := [];
     closeFault := None;
     cleanupFault := None |}.

(** The same, and the browser then fails to close. *)
Definition page_unreachable_stuck : Browser :=
  {| acquire := Acquired;
     navSignals := [];
     navigation := Some (lit "Timeout 500ms exceeded");
     settleSignals := [];
     settle := None;
     checkSignals := [];
     check := EvalNull;
     closeSignals := [];
     closeFault := Some (lit "Target closed");
     cleanupFault := None |}.

(** A page that loads with content; one response is a 403 and one request
    fails in transport. *)
Definition page_forbidden : Browser :=
  {| acquire := Acquired;
     navSignals := [ Response 403 (lit "http://x/api");
                     RequestFailed (lit "http://x/font.woff") None ];
     navigation := None;
     settleSignals := [];
     settle := None;
     checkSignals := [];
     check := EvalBool true;
     closeSignals := [];
     closeFault := None;
     cleanupFault := None |}.

(* ================================================================== *)
(** ** Invariants of the session state *)

(** [c] keeps [I]: whatever state it starts from, and whether it returns
    or throws. *)
Definition preserves {A} (I : World -> Prop) (c : M A) : Prop :=
  forall w, I w -> I (snd (c w)).

Definition absent {A} (o : option A) : bool :=
  match o with None => true | Some _ => false end.

Definition present {A} (o : option A) : bool := negb (absent o).

(** The optional fields that an entry of each type is created with: only
    exceptions carry a stack, only network entries carry a url and a
    status code, only console errors and exceptions can carry a source. *)
Definition fieldsByType (e : RuntimeError) : bool :=
  match type e with
  | ConsoleError => absent (stack e) && absent (url e) && absent (statusCode e)
  | ConsoleWarning =>
      absent (stack e) && absent (url e) && absent (statusCode e) && absent (source e)
  | Exception => absent (url e) && absent (statusCode e)
  | Network404 =>
      absent (stack e) && present (url e) && absent (source e)
      && match statusCode e with Some s => (s =? 404)%Z | None => false end
  | Network500 =>
      absent (stack e) && present (url e) && absent (source e)
      && match statusCode e with Some s => (500 <=? s)%Z | None => false end
  | NetworkOther =>
      absent (stack e) && present (url e) && absent (source e)
      && match statusCode e with
         | Some s => (400 <=? s)%Z && (s <? 500)%Z && negb (s =? 404)%Z
         | None => true
         end
  end.

Definition fieldsOK (w : World) : Prop :=
  forallb fieldsByType (st_errors w) = true
  /\ forallb fieldsByType (st_warnings w) = true.

(** The ids of the entries are ids drawn so far, each drawn once: [ke] and
    [kw] are the draws behind the errors and behind the warnings. *)
Definition idsOK (nanoid : nat -> jstring) (w : World) : Prop :=
  exists ke kw,
    map id (st_errors w) = map nanoid ke
    /\ map id (st_warnings w) = map nanoid kw
    /\ NoDup (ke ++ kw)
    /\ Forall (fun k => k < st_ids w) (ke ++ kw).

(** An id generator that never repeats itself: the n-th id is n+1 letters
    long. *)
Definition demo_nanoid_unary (n : nat) : jstring := repeat 105%N (S n).

(** A signal that no listener records: console output that is neither an
    error nor a warning, and a response below 400. *)
Definition benign (sg : Signal) : bool :=
  match sg with
  | Console msgType _ =>
      negb (jstring_eqb msgType (lit "error")) && negb (jstring_eqb msgType (lit "warning"))
  | Response status _ => (status <? 400)%Z
  | PageError _ _ => false
  | RequestFailed _ _ => false
  end.

(** What the content check comes down to: [true] only when the root
    element is there and has a child. *)
Definition hasContent_of (v : Evaluated) : bool :=
  match v with
  | EvalBool b => b
  | EvalNull => false
  | EvalThrows _ => false
  end.

(** A page that loads, logs, and gets its assets. *)
Definition page_quiet : Browser :=
  {| acquire := Acquired;
     navSignals := [ Response 200 (lit "http://x/"); Response 304 (lit "http://x/app.js");
                     Console (lit "log") (lit "ready") ];
     navigation := None;
     settleSignals := [ Console (lit "info") (lit "mounted") ];
     settle := None;
     checkSignals := [];
     check := EvalBool true;
     closeSignals := [];
     closeFault := None;
     cleanupFault := None |}.

(** A browser that opens no context, and then cannot be closed either. *)
Definition page_no_context : Browser :=
  {| acquire := ContextFault (lit "Target page, context or browser has been closed");
     navSignals := [];
     navigation := None;
     settleSignals := [];
     settle := None;
     checkSignals := [];
     check := EvalNull;
     closeSignals := [];
     closeFault := None;
     cleanupFault := Some (lit "Browser has been closed") |}.

(* ================================================================== *)
(** ** The monitor route: POST /api/monitor-runtime *)

(** The body of a request, as a handler meets it.  [request.json()]
    rejects when the body is not JSON.  When it is JSON, the handler
    destructures the value: that throws a [TypeError] on [null], whose
    message is the runtime's, and reads the fields of any other value (a
    number, a string, a boolean or an array has none of those the
    handlers ask for). *)
Inductive JsonBody (F : Type) :=
| NotJson (fault : jstring)      (* request.json() rejects with this message *)
| JsonNull (fault : jstring)     (* null; destructuring it throws this message *)
| JsonObject (fields : F).       (* any other value, with the fields it has *)

Arguments NotJson {F} fault.
Arguments JsonNull {F} fault.
Arguments JsonObject {F} fields.

(** [const { ... } = await request.json().catch(() => ({}))]: a body
    that is not JSON is read as an object without fields. *)
Definition json_or_empty {F} (body : JsonBody F) : outcome (option F) :=
  match body with
  | NotJson _ => Ok None
  | JsonNull fault => Throw fault
  | JsonObject fields => Ok (Some fields)
  end.

(** [const { ... } = await request.json()] *)
Definition json_strict {F} (body : JsonBody F) : outcome F :=
  match body with
  | NotJson fault => Throw fault
  | JsonNull fault => Throw fault
  | JsonObject fields => Ok fields
  end.

(** A step whose outcome is already decided. *)
Definition of_outcome {A} (o : outcome A) : M A := fun w => (o, w).

(** The fields the handler reads from the request body,
    [Partial<RuntimeMonitorConfig>]; a field is [None] when the body does
    not have it. *)
Module Request.
Record t := mk {
  sandboxUrl : option jstring;
  sandboxId : option jstring;
  timeout : option Z
}.
End Request.

(** What [NextResponse.json] is given: the rejection of an incomplete
    request, [{ success: false, monitoringError }], or a
    [RuntimeMonitorResult]. *)
Inductive MonitorBody :=
| Rejected (reason : jstring)
| Report (r : RuntimeMonitorResult).

Module NextResponse.
Record t := mk {
  status : Z;
  body : MonitorBody
}.
End NextResponse.

(** A field of the destructured body; nothing is there when the body was
    not JSON. *)
Definition field {A} (json : option Request.t) (get : Request.t -> option A)
  : option A :=
  match json with
  | Some b => get b
  | None => None
  end.

(** [!s] for an optional string: absent and empty are both falsy. *)
Definition missing (s : option jstring) : bool :=
  match s with
  | Some v => negb (truthy v)
  | None => true
  end.

(** [s] where [!s] is false. *)
Definition given (s : option jstring) : jstring :=
  match s with
  | Some v => v
  | None => []
  end.

(** [timeout || fallback] for a number: absent and zero are both falsy. *)
Definition or_default (timeout : option Z) (fallback : Z) : Z :=
  match timeout with
  | Some t => if (t =? 0)%Z then fallback else t
  | None => fallback
  end.

(** The body of the generic failure envelope of the handler. *)
Definition failure_envelope (duration : Z) (msg : jstring) : RuntimeMonitorResult :=
  {| success := false;
     sandboxId := [];
     hasErrors := false;
     errors := [];
     warnings := [];
     summary := {| totalErrors := 0; consoleErrors := 0;
                   networkErrors := 0; exceptions := 0 |};
     monitorDuration := duration;
     monitoringError := Some msg |}.

Section MonitorRoute.
Variable nanoid : nat -> jstring.
Variable clock : nat -> Z.

(** [appConfig.runtimeMonitoring] is not among the sources: its two
    entries that the handler reads are parameters. *)
Variable monitorTimeout : Z.
Variable configuredErrorTypes : option (list jstring).

(** [POST]: [json] is the destructured request body, [None] when the
    body is not JSON ([request.json()] rejects and the handler goes on
    with an empty object); the destructuring of [null] throws inside the
    [try]. *)
Definition POST (body : JsonBody Request.t) (br : Browser) : M NextResponse.t :=
  startTime <- Date_now clock ;;
  try_catch
    (json <- of_outcome (json_or_empty body) ;;
     let sandboxUrl := field json Request.sandboxUrl in
     let sandboxId := field json Request.sandboxId in
     let timeout := field json Request.timeout in
     (* Validate request *)
     if missing sandboxUrl || missing sandboxId then
       ret {| NextResponse.status := 400;
              NextResponse.body :=
                Rejected (lit "Missing required fields: sandboxUrl and sandboxId") |}
     else
       (* Monitor the sandbox *)
       result <- monitorSandbox nanoid clock
                   {| Config.sandboxUrl := given sandboxUrl;
                      Config.sandboxId := given sandboxId;
                      Config.timeout := Some (or_default timeout monitorTimeout);
                      Config.errorTypes := configuredErrorTypes |} br ;;
       finished <- Date_now clock ;;
       ret {| NextResponse.status := 200; NextResponse.body := Report result |})
    (fun error =>
       finished <- Date_now clock ;;
       ret {| NextResponse.status := 500;
              NextResponse.body :=
                Report (failure_envelope (finished - startTime)%Z error) |}).
End MonitorRoute.

(** The message of the fault that destructuring [null] throws, as one
    runtime words it. *)
Definition null_fault : jstring :=
  lit "Cannot destructure property 'sandboxUrl' of 'body' as it is null.".

(** A complete request, and one without a sandbox id. *)
Definition demo_request : Request.t :=
  {| Request.sandboxUrl := Some (lit "http://x/never-resolves");
     Request.sandboxId := Some (lit "s1");
     Request.timeout := Some 500%Z |}.

Definition demo_request_no_id : Request.t :=
  {| Request.sandboxUrl := Some (lit "http://x/app");
     Request.sandboxId := Some [];
     Request.timeout := None |}.

(** A browser that cannot be launched. *)
Definition page_no_browser : Browser :=
  {| acquire := LaunchFault (lit "Executable doesn't exist");
     navSignals := [];
     navigation := None;
     settleSignals := [];
     settle := None;
     checkSignals := [];
     check := EvalNull;
     closeSignals := [];
     closeFault := None;
     cleanupFault := None |}.

(* ================================================================== *)
(** ** What the listeners record, signal by signal *)

Section Recorded.
Variable errorTypes : option (list jstring).

(** The signals that end up in the errors: a captured console error, a
    captured exception, a captured 404 and a captured response of 500 or
    more. *)
Definition records_error (sg : Signal) : bool :=
  match sg with
  | Console msgType _ =>
      jstring_eqb msgType (lit "error") && shouldCapture errorTypes (lit "console-error")
  | PageError _ _ => shouldCapture errorTypes (lit "exception")
  | Response status _ =>
      (status =? 404)%Z && shouldCapture errorTypes (lit "network-404")
      || (500 <=? status)%Z && shouldCapture errorTypes (lit "network-500")
  | RequestFailed _ _ => false
  end.

(** The signals that end up in the warnings: a captured console warning,
    any other response from 400 to 499, and any failed request. *)
Definition records_warning (sg : Signal) : bool :=
  match sg with
  | Console msgType _ =>
      jstring_eqb msgType (lit "warning") && shouldCapture errorTypes (lit "console-warning")
  | PageError _ _ => false
  | Response status _ =>
      (400 <=? status)%Z && (status <? 500)%Z && negb (status =? 404)%Z
  | RequestFailed _ _ => true
  end.
End Recorded.

(** The signals of a session that gets past navigation, in firing order. *)
Definition all_signals (br : Browser) : list Signal :=
  navSignals br ++ settleSignals br ++ checkSignals br ++ closeSignals br.

Definition count {A} (f : A -> bool) (l : list A) : nat := length (filter f l).

(** [w'] holds [ne] more errors and [nw] more warnings than [w]. *)
Definition adds (ne nw : nat) (w w' : World) : Prop :=
  length (st_errors w') = length (st_errors w) + ne
  /\ length (st_warnings w') = length (st_warnings w) + nw.

(** A stack frame whose file is a URL with a port. *)
Definition demo_frame : jstring :=
  lit "at App (http://localhost:5173/src/App.jsx:42:15)".

(* ================================================================== *)
(** ** The Fixer: prompt and generation (src/lib/runtime-error-fixer.ts) *)

(** A line feed and a double quote. *)
Definition nl : jstring := [10%N].
Definition dq : jstring := [34%N].

(** [s.toUpperCase()] for a string whose only cased code units are ASCII
    letters, as in the six type strings it is applied to. *)
Definition toUpperCase (s : jstring) : jstring :=
  map (fun c => if (97 <=? c)%N && (c <=? 122)%N then (c - 32)%N else c) s.

(** [xs.join(sep)] *)
Fixpoint join (sep : jstring) (xs : list jstring) : jstring :=
  match xs with
  | [] => []
  | [x] => x
  | x :: rest => x ++ sep ++ join sep rest
  end.

(** The system prompt, line by line. *)
Definition systemPrompt : jstring :=
  lit "You are an expert React/Vite debugger. "
  ++ nl
  ++ lit "Your task is to fix the runtime errors detected in the application."
  ++ nl
  ++ nl
  ++ lit "RULES:"
  ++ nl
  ++ lit "1. Analyze the provided errors and file contents."
  ++ nl
  ++ lit "2. Fix the errors by modifying the code."
  ++ nl
  ++ lit "3. Return ONLY the fixed code blocks wrapped in <file path="
  ++ dq
  ++ lit "..."
  ++ dq
  ++ lit "> tags."
  ++ nl
  ++ lit "4. Do NOT remove existing functionality, only fix the specific errors."
  ++ nl
  ++ lit "5. If a file is missing (e.g., 404 error), create it."
  ++ nl
  ++ lit "6. If a package is missing, add it to package.json (but prefer using existing packages)."
  ++ nl
  ++ lit "7. Be concise. Do not explain your reasoning, just provide the fixes."
  ++ nl
  ++ nl
  ++ lit "Common Fixes:"
  ++ nl
  ++ lit "- Missing Tailwind classes: Add them to index.css or check configuration."
  ++ nl
  ++ lit "- Missing imports: Add the import statement."
  ++ nl
  ++ lit "- Undefined variables: Define them or fix the reference."
  ++ nl
  ++ lit "- 404s: Create the missing file or fix the path."
  ++ nl.

(** What [streamText] is called with; the temperature is the constant 0.2. *)
Record GenerationCall := mkGenerationCall {
  model : jstring;
  system : jstring;
  user : jstring
}.

Section Fixer.
(** [`${n}`] for a number: the conversion of the language, a parameter
    here. *)
Variable show_number : number -> jstring.

(** [appConfig.runtimeMonitoring.autoFixModel]; the configuration is not
    among the sources. *)
Variable autoFixModel : jstring.

(** The generation capability: the stream it returns, or the fault it
    throws. *)
Variable Stream : Type.
Variable streamText : GenerationCall -> outcome Stream.

(** [`${e.source.line}`]: a missing line reads [undefined]. *)
Definition show_line (l : option number) : jstring :=
  match l with
  | Some n => show_number n
  | None => lit "undefined"
  end.

(** One entry of the error list. *)
Definition formatError (e : RuntimeError) : jstring :=
  lit "[" ++ toUpperCase (type_str (type e)) ++ lit "] " ++ message e ++ nl
  ++ match source e with
     | Some src => lit "Location: " ++ file src ++ lit ":" ++ show_line (line src)
     | None => []
     end.

Definition errorList (errors : list RuntimeError) : jstring :=
  join (nl ++ nl) (map formatError errors).

(** One file of the context. *)
Definition formatFile (f : jstring * jstring) : jstring :=
  lit "<file path=" ++ dq ++ fst f ++ dq ++ lit ">" ++ nl
  ++ snd f ++ nl ++ lit "</file>".

Definition fileContextString (contexts : list (jstring * jstring)) : jstring :=
  join (nl ++ nl) (map formatFile contexts).

Definition userPrompt (errors : list RuntimeError)
    (contexts : list (jstring * jstring)) : jstring :=
  nl ++ lit "The following runtime errors were detected:" ++ nl
  ++ nl ++ errorList errors ++ nl
  ++ nl ++ lit "Here is the current code context:" ++ nl
  ++ nl ++ fileContextString contexts ++ nl
  ++ nl ++ lit "Please fix these errors. Return the full content of any modified files."
  ++ nl.

(** [fixRuntimeErrors(errors, provider, focusFiles)]: [readFile] is the
    provider's, [None] where it throws. *)
Definition fixRuntimeErrors (errors : list RuntimeError)
    (readFile : jstring -> option jstring)
    (focusFiles : option (list jstring)) : outcome Stream :=
  (* 1. Identify relevant files from errors *)
  let files := relevantFiles errors focusFiles in
  (* 2. Read file contents *)
  let contexts := fileContexts readFile files in
  (* 3. Construct Prompt, 4. Call AI *)
  streamText {| model := autoFixModel;
                system := systemPrompt;
                user := userPrompt errors contexts |}.
End Fixer.

(* ================================================================== *)
(** ** The fix route: POST /api/fix-runtime-errors *)

Module FixRoute.

(** [AutoFixRequest], as far as the body has it. *)
Record Request := mkRequest {
  sandboxId : option jstring;
  errors : option (list RuntimeError);
  focusFiles : option (list jstring)
}.

(** The body of the answer: [{ error }], or the text stream. *)
Inductive Body (Stream : Type) :=
| Failure (error : jstring)
| TextStream (s : Stream).

Arguments Failure {Stream} error.
Arguments TextStream {Stream} s.

Record Response (Stream : Type) := mkResponse {
  status : Z;
  body : Body Stream
}.

Arguments mkResponse {Stream} status body.
Arguments status {Stream} r.
Arguments body {Stream} r.

(** [!errors || errors.length === 0] *)
Definition no_errors (es : option (list RuntimeError)) : bool :=
  match es with
  | Some (_ :: _) => false
  | _ => true
  end.

Section Handler.
Variable show_number : number -> jstring.
Variable autoFixModel : jstring.
Variable Stream : Type.
Variable streamText : GenerationCall -> outcome Stream.

(** [sandboxManager.getProvider]: the provider of a sandbox, as its
    [readFile]; the manager is not among the sources. *)
Variable getProvider : jstring -> option (jstring -> option jstring).

(** [POST]: a body that is not JSON and a body that is [null] both
    throw inside the [try], the first in [request.json()], the second in
    the destructuring. *)
Definition POST (body : JsonBody Request) : Response Stream :=
  match json_strict body with
  | Throw msg => mkResponse 500 (Failure msg)
  | Ok req =>
      if missing (sandboxId req) || no_errors (errors req) then
        mkResponse 400 (Failure (lit "Missing sandboxId or errors"))
      else
        (* Get sandbox provider *)
        match getProvider (given (sandboxId req)) with
        | None => mkResponse 404 (Failure (lit "Sandbox provider not found"))
        | Some readFile =>
            (* Call fixer logic *)
            match fixRuntimeErrors show_number autoFixModel streamText
                    (match errors req with Some es => es | None => [] end)
                    readFile (focusFiles req) with
            | Ok result => mkResponse 200 (TextStream result)
            | Throw msg => mkResponse 500 (Failure msg)
            end
        end
  end.
End Handler.
End FixRoute.

(** [t] occurs in [s]. *)
Definition contains (s t : jstring) : Prop := exists pre post, s = pre ++ t ++ post.

(* ================================================================== *)
(** ** The zip route: POST /api/create-zip *)

Module ZipRoute.

(** What [provider.runCommand] resolves to. *)
Module CommandResult.
Record t := mk {
  success : bool;
  exitCode : Z;
  stdout : jstring;
  stderr : jstring
}.
End CommandResult.

(** What the legacy sandbox's [runCommand] resolves to, with what
    awaiting its [stdout()] and [stderr()] gives. *)
Module LegacyResult.
Record t := mk {
  exitCode : Z;
  stdout : outcome jstring;
  stderr : outcome jstring
}.
End LegacyResult.

(** The calls a request makes on its sandbox, in order. *)
Inductive Call :=
| Run (cmd : jstring)                             (* provider.runCommand(cmd) *)
| Write (path content : jstring)                  (* provider.writeFile(path, content) *)
| LegacyRun (cmd : jstring) (args : list jstring).  (* legacySandbox.runCommand({cmd, args}) *)

(** A provider: the kind its [getSandboxInfo()] reports
    ([sandboxInfo?.provider]), and how it answers a call, given the calls
    made before. *)
Record Provider := mkProvider {
  sandboxKind : option jstring;
  runCommand : list Call -> jstring -> outcome CommandResult.t;
  writeFile : list Call -> jstring -> jstring -> outcome unit
}.

Record LegacySandbox := mkLegacySandbox {
  legacyRunCommand : list Call -> jstring -> list jstring -> outcome LegacyResult.t
}.

(** The body of the answer. *)
Inductive Body :=
| Failed (error : jstring)                         (* { success: false, error } *)
| Created (dataUrl fileName : jstring) (size : Z) (message : jstring).
                                                   (* { success: true, ... } *)

Record Response := mkResponse {
  status : Z;
  body : Body
}.

(** A computation that calls the sandbox: the calls so far are its state. *)
Definition Sh (A : Type) := list Call -> outcome A * list Call.

Definition sh_ret {A} (a : A) : Sh A := fun h => (Ok a, h).

Definition sh_throw {A} (e : jstring) : Sh A := fun h => (Throw e, h).

Definition sh_bind {A B} (c : Sh A) (k : A -> Sh B) : Sh B :=
  fun h =>
    match c h with
    | (Ok a, h') => k a h'
    | (Throw e, h') => (Throw e, h')
    end.

Definition sh_try {A} (c : Sh A) (handler : jstring -> Sh A) : Sh A :=
  fun h =>
    match c h with
    | (Ok a, h') => (Ok a, h')
    | (Throw e, h') => handler e h'
    end.

Declare Scope zip_scope.
Delimit Scope zip_scope with zip.
Notation "x <- c ;; k" := (sh_bind c (fun x => k))
  (at level 61, c at next level, right associativity) : zip_scope.
Notation "c ;; k" := (sh_bind c (fun _ => k))
  (at level 61, right associativity) : zip_scope.

(** [await provider.runCommand(cmd)] *)
Definition run (p : Provider) (cmd : jstring) : Sh CommandResult.t :=
  fun h => (runCommand p h cmd, h ++ [Run cmd]).

(** [await provider.writeFile(path, content)] *)
Definition write (p : Provider) (path content : jstring) : Sh unit :=
  fun h => (writeFile p h path content, h ++ [Write path content]).

(** Awaiting a promise that is already decided. *)
Definition await {A} (o : outcome A) : Sh A := fun h => (o, h).

(** [await legacySandbox.runCommand({ cmd, args })] *)
Definition legacy_run (l : LegacySandbox) (cmd : jstring) (args : list jstring)
  : Sh LegacyResult.t :=
  fun h => (legacyRunCommand l h cmd args, h ++ [LegacyRun cmd args]).

(** [s.trim()]: white space and line terminators go, at both ends. *)
Fixpoint trimStart (s : jstring) : jstring :=
  match s with
  | [] => []
  | c :: s' => if isSpace c then trimStart s' else s
  end.

Definition trimEnd (s : jstring) : jstring := rev (trimStart (rev s)).

Definition trim (s : jstring) : jstring := trimEnd (trimStart s).

(** [Math.round(n * 0.75)] for a string length [n]: three quarters of [n],
    a half rounded up.  The product is exact in a double for every length
    a string can have. *)
Definition three_quarters (n : nat) : Z := ((3 * Z.of_nat n + 2) / 4)%Z.

(** [a || b] on strings. *)
Definition or_else (a b : jstring) : jstring := if truthy a then a else b.

Definition e2bFileName : jstring := lit "e2b-sandbox-project.zip".
Definition vercelFileName : jstring := lit "vercel-sandbox-project.zip".

(** [sandboxInfo?.provider === 'e2b'] *)
Definition is_e2b (p : Provider) : bool :=
  match sandboxKind p with
  | Some k => jstring_eqb k (lit "e2b")
  | None => false
  end.

(** The command that builds the archive, for a provider. *)
Definition zipCommand : jstring :=
  lit "cd /home/user/app && zip -r /tmp/project.zip . -x " ++ dq
  ++ lit "node_modules/*" ++ dq ++ lit " " ++ dq ++ lit ".git/*" ++ dq
  ++ lit " " ++ dq ++ lit ".next/*" ++ dq ++ lit " " ++ dq ++ lit "dist/*"
  ++ dq ++ lit " " ++ dq ++ lit "build/*" ++ dq ++ lit " " ++ dq
  ++ lit "*.log" ++ dq
  ++ lit " 2>&1 || cd /vercel/sandbox && zip -r /tmp/project.zip . -x " ++ dq
  ++ lit "node_modules/*" ++ dq ++ lit " " ++ dq ++ lit ".git/*" ++ dq
  ++ lit " " ++ dq ++ lit ".next/*" ++ dq ++ lit " " ++ dq ++ lit "dist/*"
  ++ dq ++ lit " " ++ dq ++ lit "build/*" ++ dq ++ lit " " ++ dq
  ++ lit "*.log" ++ dq ++ lit " 2>&1".

(** The script that prints the archive in base64. *)
Definition pythonScript : jstring :=
  lit "import base64" ++ nl ++ lit "import sys" ++ nl ++ lit "try:" ++ nl
  ++ lit "    with open('/tmp/project.zip', 'rb') as f:" ++ nl
  ++ lit "        data = base64.b64encode(f.read()).decode('utf-8')" ++ nl
  ++ lit "        sys.stdout.write(data)" ++ nl
  ++ lit "except Exception as e:" ++ nl ++ lit "    sys.stderr.write(f" ++ dq
  ++ lit "Error: {str(e)}" ++ dq ++ lit ")" ++ nl ++ lit "    sys.exit(1)".

(** The command that builds the archive, for the legacy sandbox. *)
Definition legacyZipCommand : jstring :=
  lit "zip -r /tmp/project.zip . -x " ++ dq ++ lit "node_modules/*" ++ dq
  ++ lit " " ++ dq ++ lit ".git/*" ++ dq ++ lit " " ++ dq ++ lit ".next/*"
  ++ dq ++ lit " " ++ dq ++ lit "dist/*" ++ dq ++ lit " " ++ dq
  ++ lit "build/*" ++ dq ++ lit " " ++ dq ++ lit "*.log" ++ dq.

Section Handler.
(** [sandboxManager] and the two globals are not among the sources. *)
Variable getProvider : jstring -> option Provider.
Variable getActiveProvider : option Provider.
Variable activeSandboxProvider : option Provider.      (* global.activeSandboxProvider *)
Variable activeSandbox : option LegacySandbox.         (* global.activeSandbox *)

(** The [sandboxId] of the destructured body. *)
Definition sandboxId_of (json : option (option jstring)) : option jstring :=
  match json with
  | Some sandboxId => sandboxId
  | None => None
  end.

(** The provider the handler settles on. *)
Definition find_provider (sandboxId : option jstring) : option Provider :=
  let provider :=
    if negb (missing sandboxId) then getProvider (given sandboxId)
    else getActiveProvider in
  (* Fallback to global state if not found in manager *)
  match provider with
  | Some p => Some p
  | None => activeSandboxProvider
  end.

(** The answer for an archive read as [base64Content]. *)
Definition created (fileName base64Content : jstring) : Response :=
  {| status := 200;
     body := Created (lit "data:application/zip;base64," ++ base64Content)
                     fileName
                     (three_quarters (length base64Content))
                     (lit "Zip file created successfully") |}.

Local Open Scope zip_scope.

(** The provider pattern (works for both E2B and Vercel). *)
Definition with_provider (p : Provider) : Sh Response :=
  let fileName := if is_e2b p then e2bFileName else vercelFileName in
  zipResult <- run p zipCommand ;;
  if negb (CommandResult.success zipResult)
     || negb (CommandResult.exitCode zipResult =? 0)%Z
  then sh_throw (lit "Failed to create zip: "
                 ++ or_else (CommandResult.stderr zipResult)
                            (CommandResult.stdout zipResult))
  else
    if is_e2b p then
      (* E2B: Use Python to read binary file as base64 *)
      write p (lit "/tmp/read_zip.py") pythonScript ;;
      readResult <- run p (lit "python3 /tmp/read_zip.py") ;;
      (* Clean up the script *)
      run p (lit "rm -f /tmp/read_zip.py") ;;
      if negb (CommandResult.success readResult)
         || negb (CommandResult.exitCode readResult =? 0)%Z
      then sh_throw (lit "Failed to read zip file: "
                     ++ or_else (CommandResult.stderr readResult)
                                (CommandResult.stdout readResult))
      else
        let base64Content := trim (CommandResult.stdout readResult) in
        (* Validate base64 content *)
        if negb (truthy base64Content) || (length base64Content <? 100)
        then sh_throw (lit "Generated base64 content is invalid or too short")
        else sh_ret (created fileName base64Content)
    else
      (* Vercel: Use base64 command *)
      readResult <- run p (lit "base64 /tmp/project.zip") ;;
      if negb (CommandResult.success readResult)
      then sh_throw (lit "Failed to read zip file: " ++ CommandResult.stderr readResult)
      else sh_ret (created fileName (trim (CommandResult.stdout readResult))).

(** Legacy Vercel sandbox support. *)
Definition with_legacy (l : LegacySandbox) : Sh Response :=
  zipResult <- legacy_run l (lit "bash") [lit "-c"; legacyZipCommand] ;;
  if negb (LegacyResult.exitCode zipResult =? 0)%Z
  then
    error <- await (LegacyResult.stderr zipResult) ;;
    sh_throw (lit "Failed to create zip: " ++ error)
  else
    readResult <- legacy_run l (lit "base64") [lit "/tmp/project.zip"] ;;
    if negb (LegacyResult.exitCode readResult =? 0)%Z
    then
      error <- await (LegacyResult.stderr readResult) ;;
      sh_throw (lit "Failed to read zip file: " ++ error)
    else
      out <- await (LegacyResult.stdout readResult) ;;
      sh_ret (created vercelFileName (trim out)).

(** [POST]: the body carries the [sandboxId] field, if it has one.  A
    body that is not JSON is read as an object without fields
    ([request.json()] rejects and the handler goes on with an empty
    object); the destructuring of [null] throws inside the [try]. *)
Definition POST (request : JsonBody (option jstring)) : Sh Response :=
  sh_try
    (json <- await (json_or_empty request) ;;
     let sandboxId := sandboxId_of json in
     match find_provider sandboxId, activeSandbox with
     | None, None =>
         sh_ret {| status := 400;
                   body := Failed (lit "No active sandbox. Please ensure the sandbox is created before downloading the zip file.") |}
     | Some p, _ => with_provider p
     | None, Some l => with_legacy l
     end)
    (fun error => sh_ret {| status := 500; body := Failed error |}).
End Handler.

(** The calls of a request that runs to its end, by the sandbox it uses. *)
Definition e2b_calls : list Call :=
  [Run zipCommand;
   Write (lit "/tmp/read_zip.py") pythonScript;
   Run (lit "python3 /tmp/read_zip.py");
   Run (lit "rm -f /tmp/read_zip.py")].

Definition vercel_calls : list Call :=
  [Run zipCommand; Run (lit "base64 /tmp/project.zip")].

Definition legacy_calls : list Call :=
  [LegacyRun (lit "bash") [lit "-c"; legacyZipCommand];
   LegacyRun (lit "base64") [lit "/tmp/project.zip"]].

(** The first and the last code unit of a string. *)
Definition first_unit (s : jstring) : option char := hd_error s.
Definition last_unit (s : jstring) : option char := hd_error (rev s).

Definition not_space (c : option char) : Prop :=
  match c with
  | Some c => isSpace c = false
  | None => True
  end.

(** The script of a request, by what it found. *)
Definition script (provider : option Provider) (legacy : option LegacySandbox)
  : list Call :=
  match provider, legacy with
  | Some p, _ => if is_e2b p then e2b_calls else vercel_calls
  | None, Some _ => legacy_calls
  | None, None => []
  end.

(** The message of a rejection. *)
Definition fault_of {A} (o : outcome A) : option jstring :=
  match o with
  | Throw e => Some e
  | Ok _ => None
  end.

(** The message with which the sandbox of a request rejects the call [c]
    made after the calls [hist], when it rejects it. *)
Definition rejection (provider : option Provider) (legacy : option LegacySandbox)
    (hist : list Call) (c : Call) : option jstring :=
  match c, provider, legacy with
  | Run cmd, Some p, _ => fault_of (runCommand p hist cmd)
  | Write path content, Some p, _ => fault_of (writeFile p hist path content)
  | LegacyRun cmd args, None, Some l => fault_of (legacyRunCommand l hist cmd args)
  | _, _, _ => None
  end.

(** What the step that reads the archive printed, when it came back: the
    [stdout] of the reader script for an e2b provider, of [base64] for any
    other provider and for the legacy sandbox.  [h] holds the calls made
    before the request. *)
Definition read_output (provider : option Provider) (legacy : option LegacySandbox)
    (h : list Call) : option jstring :=
  match provider, legacy with
  | Some p, _ =>
      if is_e2b p then
        match runCommand p
                (h ++ [Run zipCommand; Write (lit "/tmp/read_zip.py") pythonScript])
                (lit "python3 /tmp/read_zip.py") with
        | Ok readResult => Some (CommandResult.stdout readResult)
        | Throw _ => None
        end
      else
        match runCommand p (h ++ [Run zipCommand]) (lit "base64 /tmp/project.zip") with
        | Ok readResult => Some (CommandResult.stdout readResult)
        | Throw _ => None
        end
  | None, Some l =>
      match legacyRunCommand l
              (h ++ [LegacyRun (lit "bash") [lit "-c"; legacyZipCommand]])
              (lit "base64") [lit "/tmp/project.zip"] with
      | Ok readResult =>
          match LegacyResult.stdout readResult with
          | Ok out => Some out
          | Throw _ => None
          end
      | Throw _ => None
      end
  | None, None => None
  end.
End ZipRoute.


(** Sandboxes for the zip route.  [zip_e2b] prints 120 code units of
    base64 between white space; the read of [zip_e2b_stuck] never comes
    back; [zip_vercel] and [zip_legacy] print nothing at all. *)
Definition zip_output : jstring := lit "  " ++ repeat 65%N 120 ++ nl.

Definition zip_e2b : ZipRoute.Provider :=
  {| ZipRoute.sandboxKind := Some (lit "e2b");
     ZipRoute.runCommand := fun _ cmd =>
       Ok (ZipRoute.CommandResult.mk true 0
             (if jstring_eqb cmd (lit "python3 /tmp/read_zip.py") then zip_output else [])
             []);
     ZipRoute.writeFile := fun _ _ _ => Ok tt |}.

Definition zip_e2b_stuck : ZipRoute.Provider :=
  {| ZipRoute.sandboxKind := Some (lit "e2b");
     ZipRoute.runCommand := fun _ cmd =>
       if jstring_eqb cmd (lit "python3 /tmp/read_zip.py")
       then Throw (lit "Command timed out")
       else Ok (ZipRoute.CommandResult.mk true 0 [] []);
     ZipRoute.writeFile := fun _ _ _ => Ok tt |}.

Definition zip_vercel : ZipRoute.Provider :=
  {| ZipRoute.sandboxKind := Some (lit "vercel");
     ZipRoute.runCommand := fun _ cmd =>
       Ok (ZipRoute.CommandResult.mk true
             (if jstring_eqb cmd (lit "base64 /tmp/project.zip") then 1 else 0) [] []);
     ZipRoute.writeFile := fun _ _ _ => Ok tt |}.

Definition zip_registry (p : ZipRoute.Provider) (id : jstring) : option ZipRoute.Provider :=
  if jstring_eqb id (lit "sb-1") then Some p else None.

(** A request for the archive of sandbox [sb-1]. *)
Definition zip_request : JsonBody (option jstring) := JsonObject (Some (lit "sb-1")).

(** The answers of the zip route to these sandboxes. *)
Definition zip_archive : ZipRoute.Response :=
  ZipRoute.created ZipRoute.e2bFileName (repeat 65%N 120).

Definition zip_empty_archive : ZipRoute.Response :=
  ZipRoute.created ZipRoute.vercelFileName [].

Definition zip_timed_out : ZipRoute.Response :=
  {| ZipRoute.status := 500; ZipRoute.body := ZipRoute.Failed (lit "Command timed out") |}.

(* ================================================================== *)
(** ** Source locations, as a reader finds them in a text

    The two shapes of location are described here code unit by code
    unit, without the matcher and without [parseInt]: which units are
    digits and which are white space is listed, the value of a run of
    digits is its positional value, and of the occurrences of a shape in
    a text the one that counts is singled out by where it stands. *)

(** The ten decimal digits. *)
Definition decimal_digits : list char := lit "0123456789".

(** The white space and the line terminators of ECMAScript: the code
    units that [\s] matches. *)
Definition white_space : list char :=
  [9; 10; 11; 12; 13; 32; 160; 5760;
   8192; 8193; 8194; 8195; 8196; 8197; 8198; 8199; 8200; 8201; 8202;
   8232; 8233; 8239; 8287; 12288; 65279]%N.

(** The number that a run of decimal digits denotes: every digit counts
    for its place. *)
Fixpoint place_value (l : jstring) : N :=
  match l with
  | [] => 0
  | d :: l' => (d - 48) * 10 ^ N.of_nat (length l') + place_value l'
  end.

(** A non-empty run of decimal digits. *)
Definition digit_run (l : jstring) : Prop :=
  l <> [] /\ forall d, In d l -> In d decimal_digits.

(** [(f:l:c)] stands in [text] right after [pre]: [f] is not empty and
    has no closing parenthesis, [l] and [c] are runs of digits. *)
Definition ParenAt (text pre f l c : jstring) : Prop :=
  (exists post,
      text = pre ++ lit "(" ++ f ++ lit ":" ++ l ++ lit ":" ++ c ++ lit ")" ++ post)
  /\ f <> [] /\ ~ In 41%N f
  /\ digit_run l /\ digit_run c.

(** The first parenthesized location of a text: no other one starts
    further left. *)
Definition FirstParenLoc (text f l c : jstring) : Prop :=
  exists pre,
    ParenAt text pre f l c
    /\ forall pre' f' l' c', ParenAt text pre' f' l' c' -> length pre <= length pre'.

(** [f:l] stands in [text] right after [pre]: [f] is a non-empty run
    without white space followed by [.js] or [.jsx], and [l] is a run of
    digits. *)
Definition SimpleAt (text pre f l : jstring) : Prop :=
  (exists post, text = pre ++ f ++ lit ":" ++ l ++ post)
  /\ (exists stem,
         (f = stem ++ lit ".js" \/ f = stem ++ lit ".jsx")
         /\ stem <> [] /\ forall x, In x stem -> ~ In x white_space)
  /\ digit_run l.

(** The first [file.js:line] of a text: no other one starts further left;
    of those that start at the same place it has the longest file, and
    of those with that file the longest run of digits. *)
Definition FirstSimpleLoc (text f l : jstring) : Prop :=
  exists pre,
    SimpleAt text pre f l
    /\ forall pre' f' l',
         SimpleAt text pre' f' l' ->
         length pre <= length pre'
         /\ (length pre' = length pre ->
             length f' <= length f
             /\ (length f' = length f -> length l' <= length l)).

(** The two halves of the second pattern behind its first [+]: [\.jsx?]
    and [:(\d+)]. *)
Definition jsExtension : regex :=
  Cat (Cls (chr "."))
   (Cat (Cls (chr "j"))
    (Cat (Cls (chr "s"))
         (Opt (Cls (chr "x"))))).

Definition lineNumber : regex :=
  Cat (Cls (chr ":")) (Grp (Plus isDigit)).

(** A text with two stack frames. *)
Definition two_frames : jstring := lit "(App.jsx:42:15) at main (index.js:7:3)".

(* ================================================================== *)
(** * Properties *)

Ltac inv H := inversion H; subst; clear H.

(** ** The matcher finds exactly the matches *)

Lemma plus_sound R p s (k : jstring -> option R) out :
  plus p s k = Some out ->
  exists s1 s2, s = s1 ++ s2 /\ s1 <> [] /\ forallb p s1 = true /\ k s2 = Some out.
Proof.
  revert out; induction s as [|c s IH]; intros out H; simpl in H; [discriminate|].
  destruct (p c) eqn:Hc; [|discriminate].
  destruct (plus p s k) as [r|] eqn:Hrec.
  - inv H. destruct (IH _ eq_refl) as (s1 & s2 & -> & _ & Hall & Hk).
    exists (c :: s1), s2. simpl. rewrite Hc, Hall. repeat split; auto; discriminate.
  - exists [c], s. simpl. rewrite Hc. repeat split; auto; discriminate.
Qed.

Lemma plus_complete R p s1 s2 (k : jstring -> option R) :
  s1 <> [] -> forallb p s1 = true -> k s2 <> None -> plus p (s1 ++ s2) k <> None.
Proof.
  induction s1 as [|c s1 IH]; intros Hne Hall Hk; [congruence|].
  simpl in *. apply andb_true_iff in Hall as [Hc Hall]. rewrite Hc.
  destruct s1 as [|d s1].
  - simpl in *. destruct (plus p s2 k); [discriminate | exact Hk].
  - specialize (IH ltac:(discriminate) Hall Hk).
    destruct (plus p ((d :: s1) ++ s2) k); [discriminate | contradiction].
Qed.

Lemma firstn_length_app (s1 s2 : jstring) :
  firstn (length (s1 ++ s2) - length s2) (s1 ++ s2) = s1.
Proof.
  rewrite length_app, Nat.add_sub.
  rewrite firstn_app, Nat.sub_diag, firstn_all. simpl. apply app_nil_r.
Qed.

Lemma m_sound r : forall s cs k out,
  m r s cs k = Some out ->
  exists s1 s2 c, s = s1 ++ s2 /\ Matches r s1 c /\ k s2 (cs ++ c) = Some out.
Proof.
  induction r as [p | r1 IH1 r2 IH2 | p | r1 IH1 | r1 IH1]; intros s cs k out H; simpl in H.
  - destruct s as [|c s]; [discriminate|]. destruct (p c) eqn:Hc; [|discriminate].
    exists [c], s, []. rewrite app_nil_r. repeat split; auto. now constructor.
  - apply IH1 in H as (s1 & s' & c1 & -> & M1 & H).
    apply IH2 in H as (s2 & s3 & c2 & -> & M2 & H).
    exists (s1 ++ s2), s3, (c1 ++ c2). rewrite <- !app_assoc in *.
    repeat split; auto. now constructor.
  - apply plus_sound in H as (s1 & s2 & -> & Hne & Hall & H).
    exists s1, s2, []. rewrite app_nil_r. repeat split; auto. now constructor.
  - destruct (m r1 s cs k) as [o|] eqn:Hm.
    + inv H. apply IH1 in Hm as (s1 & s2 & c & -> & M1 & Hk).
      exists s1, s2, c. repeat split; auto. now constructor.
    + exists [], s, []. rewrite app_nil_r. repeat split; auto. apply M_OptNone.
  - apply IH1 in H as (s1 & s2 & c & -> & M1 & H).
    rewrite firstn_length_app in H.
    exists s1, s2, (c ++ [s1]). rewrite app_assoc. repeat split; auto. now constructor.
Qed.

Lemma m_complete r s1 c :
  Matches r s1 c ->
  forall s2 cs k, k s2 (cs ++ c) <> None -> m r (s1 ++ s2) cs k <> None.
Proof.
  induction 1 as [p x Hx | r1 r2 s1 s2 c1 c2 _ IH1 _ IH2 | p s Hne Hall
                 | r s c _ IH | r | r s c _ IH]; intros t cs k Hk; simpl.
  - rewrite Hx. now rewrite app_nil_r in Hk.
  - rewrite <- app_assoc. apply IH1. apply IH2. now rewrite <- app_assoc.
  - apply plus_complete; auto. now rewrite app_nil_r in Hk.
  - specialize (IH t cs k Hk). destruct (m r (s ++ t) cs k); [discriminate | contradiction].
  - rewrite app_nil_r in Hk. destruct (m r t cs k); [discriminate | exact Hk].
  - apply IH. rewrite firstn_length_app. now rewrite <- app_assoc.
Qed.

Lemma exec_sound r text cs :
  exec r text = Some cs ->
  exists pre s post, text = pre ++ s ++ post /\ Matches r s cs.
Proof.
  induction text as [|x text IH]; simpl;
    destruct (m r _ [] (fun _ cs0 => Some cs0)) as [o|] eqn:Hm; intros H; try discriminate.
  - inv H. apply m_sound in Hm as (s1 & s2 & c & E & M1 & Hk). inv Hk.
    exists [], s1, s2. split; auto.
  - inv H. apply m_sound in Hm as (s1 & s2 & c & E & M1 & Hk). inv Hk.
    exists [], s1, s2. split; auto.
  - apply IH in H as (pre & s & post & -> & M1).
    exists (x :: pre), s, post. split; auto.
Qed.

Lemma exec_complete r pre s post c :
  Matches r s c -> exec r (pre ++ s ++ post) <> None.
Proof.
  intros M1. induction pre as [|x pre IH].
  - assert (Hm : m r (s ++ post) [] (fun _ cs0 => Some cs0) <> None)
      by (apply m_complete with (c := c); [exact M1 | discriminate]).
    simpl. destruct (s ++ post); simpl;
      destruct (m r _ [] (fun _ cs0 => Some cs0)); try discriminate; contradiction.
  - simpl. destruct (m r _ [] (fun _ cs0 => Some cs0)); [discriminate | exact IH].
Qed.

Lemma exec_none r text :
  exec r text = None ->
  forall pre s post c, text = pre ++ s ++ post -> ~ Matches r s c.
Proof.
  intros H pre s post c -> M1. now apply (@exec_complete r pre s post c) in M1.
Qed.

(** ** The two patterns, read as sets of strings *)

Lemma chr_true a c : chr a c = true -> c = N_of_ascii a.
Proof. unfold chr. apply N.eqb_eq. Qed.

Lemma chr_refl a : chr a (N_of_ascii a) = true.
Proof. unfold chr. apply N.eqb_refl. Qed.

Ltac inv_matches :=
  repeat match goal with
         | H : Matches (Cat _ _) _ _ |- _ => inv H
         | H : Matches (Cls _) _ _ |- _ => inv H
         | H : Matches (Grp _) _ _ |- _ => inv H
         | H : Matches (Plus _) _ _ |- _ => inv H
         | H : Matches (Opt _) _ _ |- _ => inv H
         | H : chr _ _ = true |- _ => apply chr_true in H; subst
         end.

Lemma paren_matches s cs :
  Matches parenPattern s cs <->
  exists f l c,
    s = lit "(" ++ f ++ lit ":" ++ l ++ lit ":" ++ c ++ lit ")"
    /\ f <> [] /\ forallb notRParen f = true
    /\ l <> [] /\ forallb isDigit l = true
    /\ c <> [] /\ forallb isDigit c = true
    /\ cs = [f; l; c].
Proof.
  unfold parenPattern. split.
  - intros H. inv_matches. exists s0, s3, s5. repeat split; auto.
  - intros (f & l & c & -> & Hf & Hfa & Hl & Hla & Hc & Hca & ->).
    change [f; l; c]
      with ([] ++ ([] ++ [f]) ++ [] ++ ([] ++ [l]) ++ [] ++ ([] ++ [c]) ++ []).
    apply M_Cat; [apply M_Cls, chr_refl|].
    apply M_Cat; [apply M_Grp, M_Plus; assumption|].
    apply M_Cat; [apply M_Cls, chr_refl|].
    apply M_Cat; [apply M_Grp, M_Plus; assumption|].
    apply M_Cat; [apply M_Cls, chr_refl|].
    apply M_Cat; [apply M_Grp, M_Plus; assumption|].
    apply M_Cls, chr_refl.
Qed.

Lemma M_Cat_nil r1 r2 s1 s2 c :
  Matches r1 s1 [] -> Matches r2 s2 c -> Matches (Cat r1 r2) (s1 ++ s2) c.
Proof. intros H1 H2. exact (M_Cat H1 H2). Qed.

Lemma simple_matches s cs :
  Matches simplePattern s cs <->
  exists stem ext l,
    s = (stem ++ ext) ++ lit ":" ++ l
    /\ (ext = lit ".js" \/ ext = lit ".jsx")
    /\ stem <> [] /\ forallb notSpace stem = true
    /\ l <> [] /\ forallb isDigit l = true
    /\ cs = [stem ++ ext; l].
Proof.
  unfold simplePattern. split.
  - intros H. inv_matches.
    + exists s0, (lit ".jsx"), s3. repeat split; auto.
    + exists s0, (lit ".js"), s3. repeat split; auto.
  - intros (stem & ext & l & -> & Hext & Hs & Hsa & Hl & Hla & ->).
    change [stem ++ ext; l] with (([] ++ [stem ++ ext]) ++ [] ++ [] ++ [l]).
    apply M_Cat.
    + apply M_Grp.
      apply M_Cat_nil; [apply M_Plus; assumption|].
      destruct Hext as [-> | ->].
      * change (lit ".js") with ([N_of_ascii "."] ++ [N_of_ascii "j"] ++ [N_of_ascii "s"] ++ []).
        apply M_Cat_nil; [apply M_Cls, chr_refl|].
        apply M_Cat_nil; [apply M_Cls, chr_refl|].
        apply M_Cat_nil; [apply M_Cls, chr_refl|].
        apply M_OptNone.
      * change (lit ".jsx")
          with ([N_of_ascii "."] ++ [N_of_ascii "j"] ++ [N_of_ascii "s"] ++ [N_of_ascii "x"]).
        apply M_Cat_nil; [apply M_Cls, chr_refl|].
        apply M_Cat_nil; [apply M_Cls, chr_refl|].
        apply M_Cat_nil; [apply M_Cls, chr_refl|].
        apply M_OptSome, M_Cls, chr_refl.
    + apply M_Cat; [apply M_Cls, chr_refl|].
      apply M_Grp, M_Plus; assumption.
Qed.

Lemma parseInt_digits l :
  l <> [] -> forallb isDigit l = true -> parseInt l = Num (decimal l).
Proof.
  destruct l as [|c l]; [congruence|]. intros _ H. simpl in H.
  apply andb_true_iff in H as [Hc _]. unfold parseInt. now rewrite Hc.
Qed.

Lemma exec_paren_some text cs :
  exec parenPattern text = Some cs ->
  exists f l c, ParenLoc text f l c /\ cs = [f; l; c].
Proof.
  intros H. apply exec_sound in H as (pre & s & post & -> & H).
  apply paren_matches in H as (f & l & c & -> & Hf & Hfa & Hl & Hla & Hc & Hca & ->).
  exists f, l, c. split; [|reflexivity].
  exists pre, post. rewrite <- !app_assoc. repeat split; auto.
Qed.

Lemma exec_paren_none text :
  exec parenPattern text = None -> ~ HasParenLoc text.
Proof.
  intros H (f & l & c & pre & post & E & Hf & Hfa & Hl & Hla & Hc & Hca).
  apply (@exec_none _ _ H pre (lit "(" ++ f ++ lit ":" ++ l ++ lit ":" ++ c ++ lit ")") post
                     [f; l; c]).
  - rewrite E, <- !app_assoc. reflexivity.
  - apply paren_matches. exists f, l, c. repeat split; auto.
Qed.

Lemma exec_simple_some text cs :
  exec simplePattern text = Some cs ->
  exists f l, SimpleLoc text f l /\ cs = [f; l].
Proof.
  intros H. apply exec_sound in H as (pre & s & post & -> & H).
  apply simple_matches in H as (stem & ext & l & -> & Hext & Hs & Hsa & Hl & Hla & ->).
  exists (stem ++ ext), l. split; [|reflexivity].
  exists pre, post, stem. rewrite <- !app_assoc. repeat split; auto.
  destruct Hext as [-> | ->]; auto.
Qed.

Lemma exec_simple_none text :
  exec simplePattern text = None -> ~ HasSimpleLoc text.
Proof.
  intros H (f & l & pre & post & stem & E & Hext & Hs & Hsa & Hl & Hla).
  apply (@exec_none _ _ H pre (f ++ lit ":" ++ l) post [f; l]).
  - rewrite E, <- !app_assoc. reflexivity.
  - apply simple_matches. destruct Hext as [-> | ->].
    + exists stem, (lit ".js"), l. repeat split; auto.
    + exists stem, (lit ".jsx"), l. repeat split; auto.
Qed.

(** The result of [parseErrorSource], case by case. *)
Lemma parseErrorSource_cases text :
  match parseErrorSource text with
  | Some loc =>
      (exists f l c,
          ParenLoc text f l c
          /\ loc = {| file := f; line := Some (Num (decimal l));
                      column := Some (Num (decimal c)) |})
      \/ (~ HasParenLoc text
          /\ exists f l,
               SimpleLoc text f l
               /\ loc = {| file := f; line := Some (Num (decimal l)); column := None |})
  | None => ~ HasParenLoc text /\ ~ HasSimpleLoc text
  end.
Proof.
  unfold parseErrorSource.
  destruct (exec parenPattern text) as [cs|] eqn:E1.
  - left. destruct (@exec_paren_some _ _ E1) as (f & l & c & HP & ->).
    exists f, l, c. split; [exact HP|].
    destruct HP as (pre & post & _ & _ & _ & Hl & Hla & Hc & Hca).
    unfold group; simpl. now rewrite !parseInt_digits.
  - pose proof (@exec_paren_none _ E1) as HnP.
    destruct (exec simplePattern text) as [cs|] eqn:E2.
    + right. split; [exact HnP|].
      destruct (@exec_simple_some _ _ E2) as (f & l & HS & ->).
      exists f, l. split; [exact HS|].
      destruct HS as (pre & post & stem & _ & _ & _ & _ & Hl & Hla).
      unfold group; simpl. now rewrite parseInt_digits.
    + split; [exact HnP | exact (@exec_simple_none _ E2)].
Qed.

(** ** The listeners *)

Lemma grows_refl w : grows w w.
Proof.
  repeat split; try (exists []; rewrite app_nil_r; split; reflexivity).
Qed.

Lemma grows_trans w1 w2 w3 : grows w1 w2 -> grows w2 w3 -> grows w1 w3.
Proof.
  intros ((es & E1 & H1) & (ws & W1 & H2) & B1 & L1)
         ((es' & E2 & H3) & (ws' & W2 & H4) & B2 & L2).
  repeat split; try congruence.
  - exists (es ++ es'). rewrite E2, E1, app_assoc, forallb_app, H1, H3. auto.
  - exists (ws ++ ws'). rewrite W2, W1, app_assoc, forallb_app, H2, H4. auto.
Qed.

Ltac solve_grows :=
  unfold grows; simpl;
  repeat split;
  solve [ reflexivity
        | exists []; rewrite app_nil_r; split; reflexivity
        | eexists; split; [reflexivity | reflexivity] ].

Section ListenerFacts.
Variable nanoid : nat -> jstring.
Variable clock : nat -> Z.
Variable errorTypes : option (list jstring).

(** A listener never throws, and only appends: errors of the four error
    kinds to [errors], warnings of the two warning kinds to [warnings]. *)
Lemma dispatch_grows sg w :
  exists w', dispatch nanoid clock errorTypes sg w = (Ok tt, w') /\ grows w w'.
Proof.
  destruct sg as [msgType text | msg stk | status rurl | rurl errorText];
    unfold dispatch, onConsole, onPageError, onResponse, onRequestFailed.
  - destruct (jstring_eqb msgType (lit "error") && _);
      [| destruct (jstring_eqb msgType (lit "warning") && _)];
      eexists; (split; [reflexivity | solve_grows]).
  - destruct (shouldCapture errorTypes _);
      eexists; (split; [reflexivity | solve_grows]).
  - destruct ((status =? 404)%Z && _);
      [| destruct ((500 <=? status)%Z && _);
         [| destruct ((400 <=? status)%Z && (status <? 500)%Z && _)]];
      eexists; (split; [reflexivity | solve_grows]).
  - eexists; (split; [reflexivity | solve_grows]).
Qed.

Lemma emit_grows sgs : forall w,
  exists w', emit nanoid clock errorTypes sgs w = (Ok tt, w') /\ grows w w'.
Proof.
  induction sgs as [|sg sgs IH]; intros w; simpl.
  - exists w. split; [reflexivity | apply grows_refl].
  - destruct (dispatch_grows sg w) as (w1 & E1 & G1).
    destruct (IH w1) as (w2 & E2 & G2).
    exists w2. unfold bind. rewrite E1, E2. split; [reflexivity|].
    eapply grows_trans; eassumption.
Qed.
End ListenerFacts.

(** ** A session, path by path *)

Ltac open_grows :=
  repeat match goal with
         | G : grows _ _ |- _ =>
             let es := fresh "es" in
             let ws := fresh "ws" in
             let E := fresh "GE" in
             let W := fresh "GW" in
             let He := fresh "He" in
             let Hw := fresh "Hw" in
             let B := fresh "GB" in
             let L := fresh "GL" in
             destruct G as ((es & E & He) & (ws & W & Hw) & B & L); simpl in E, W, B, L
         end.

Ltac run_emit :=
  match goal with
  | |- context [emit ?a ?b ?c ?d ?w] =>
      let w' := fresh "w" in
      let E := fresh "E" in
      let G := fresh "G" in
      destruct (emit_grows a b c d w) as (w' & E & G); rewrite E; clear E;
      cbn [st_errors st_warnings st_browser st_live st_ids st_ticks] in *
  end.

Ltac browser_assigned :=
  match goal with
  | |- context [if st_browser ?w then _ else _] =>
      let B := fresh "B" in
      assert (B : st_browser w = true) by (open_grows; congruence);
      rewrite B; clear B
  end.

Ltac unfold_session :=
  unfold session, monitorSandbox;
  cbv [bind try_catch awaiting ret throw when settled evaluated browser_close
       acquire_page set_live set_browser get_errors get_warnings get_browser
       fresh_id Date_now push_warning world0
       acquire navSignals navigation settleSignals settle checkSignals check
       closeSignals closeFault cleanupFault];
  cbn [st_errors st_warnings st_browser st_live st_ids st_ticks].

Ltac rewrite_collections :=
  repeat match goal with
         | H : st_errors ?w = _ |- context [st_errors ?w] => rewrite H
         | H : st_warnings ?w = _ |- context [st_warnings ?w] => rewrite H
         | H : st_browser ?w = _ |- context [st_browser ?w] => rewrite H
         end.

Ltac collections_ok :=
  open_grows; simpl; rewrite_collections; simpl;
  rewrite ?forallb_app; simpl;
  repeat match goal with H : forallb _ _ = true |- _ => rewrite H end;
  reflexivity.

Section SessionFacts.
Variable nanoid : nat -> jstring.
Variable clock : nat -> Z.

(** Every session ends in one of three ways.  It throws, and then browser
    acquisition or the closing of the browser failed.  Or navigation
    failed and it returns the fixed failure result.  Or navigation
    succeeded and it returns the two collections with the summary
    computed from them.  In every case the collections hold entries of
    the right kinds only. *)
Lemma session_shape config br :
  exists o w',
    session nanoid clock config br = (o, w')
    /\ forallb errorEntry (st_errors w') = true
    /\ forallb warningEntry (st_warnings w') = true
    /\ match o with
       | Throw _ => acquire br <> Acquired \/ closeFault br <> None
       | Ok r =>
           acquire br = Acquired /\ closeFault br = None /\ st_live w' = false
           /\ match navigation br with
              | Some navError =>
                  exists i ts d,
                  r = {| success := false;
                         sandboxId := Config.sandboxId config;
                         hasErrors := true;
                         errors :=
                           [ {| id := i; type := NetworkOther; severity := Critical;
                                message := lit "Failed to navigate to sandbox: "
                                           ++ navError;
                                stack := None;
                                url := Some (Config.sandboxUrl config);
                                statusCode := None; timestamp := ts;
                                source := None |} ];
                         warnings := [];
                         summary := {| totalErrors := 1; consoleErrors := 0;
                                       networkErrors := 1; exceptions := 0 |};
                         monitorDuration := d;
                         monitoringError := None |}
              | None =>
                  exists d,
                  r = {| success := true;
                         sandboxId := Config.sandboxId config;
                         hasErrors := 0 <? length (filter isCritical (st_errors w'));
                         errors := st_errors w';
                         warnings := st_warnings w';
                         summary :=
                           {| totalErrors :=
                                length (st_errors w') + length (st_warnings w');
                              consoleErrors := length (filter isConsole (st_errors w'));
                              networkErrors := length (filter isNetwork (st_errors w'));
                              exceptions := length (filter isException (st_errors w')) |};
                         monitorDuration := d;
                         monitoringError := None |}
              end
       end.
Proof.
  destruct br as [acq navS nav setS stl chkS chk cloS cloF cleF].
  unfold_session.
  destruct acq as [msg | msg | msg | ].
  - do 2 eexists. split; [reflexivity|]. simpl. repeat split. left; discriminate.
  - destruct cleF; do 2 eexists; (split; [reflexivity|]); simpl;
      repeat split; left; discriminate.
  - destruct cleF; do 2 eexists; (split; [reflexivity|]); simpl;
      repeat split; left; discriminate.
  - run_emit. destruct nav as [navError|].
    + run_emit. destruct cloF as [fault|].
      * browser_assigned.
        destruct cleF; do 2 eexists; (split; [reflexivity|]); simpl;
          (split; [collections_ok|]); (split; [collections_ok|]);
          right; discriminate.
      * do 2 eexists. split; [reflexivity|]. simpl.
        split; [collections_ok|]. split; [collections_ok|].
        repeat split. do 3 eexists. reflexivity.
    + run_emit. destruct stl as [msg|]; run_emit;
        destruct chk as [msg' | | [|]]; cbn [negb]; run_emit;
        (destruct cloF as [fault|];
         [ browser_assigned;
           destruct cleF; do 2 eexists; (split; [reflexivity|]); simpl;
           (split; [collections_ok|]); (split; [collections_ok|]);
           right; discriminate
         | do 2 eexists; (split; [reflexivity|]); simpl;
           (split; [collections_ok|]); (split; [collections_ok|]);
           repeat split; eexists; reflexivity ]).
Qed.
End SessionFacts.

(** ** What a session returns *)

Section Results.
Variable nanoid : nat -> jstring.
Variable clock : nat -> Z.

Lemma returned config br r w' :
  session nanoid clock config br = (Ok r, w') ->
  forallb errorEntry (st_errors w') = true
  /\ forallb warningEntry (st_warnings w') = true
  /\ acquire br = Acquired /\ closeFault br = None /\ st_live w' = false
  /\ ((exists navError i ts d,
          navigation br = Some navError
          /\ r = {| success := false;
                    sandboxId := Config.sandboxId config;
                    hasErrors := true;
                    errors :=
                      [ {| id := i; type := NetworkOther; severity := Critical;
                           message := lit "Failed to navigate to sandbox: " ++ navError;
                           stack := None;
                           url := Some (Config.sandboxUrl config);
                           statusCode := None; timestamp := ts; source := None |} ];
                    warnings := [];
                    summary := {| totalErrors := 1; consoleErrors := 0;
                                  networkErrors := 1; exceptions := 0 |};
                    monitorDuration := d;
                    monitoringError := None |})
      \/ (navigation br = None
          /\ success r = true
          /\ errors r = st_errors w'
          /\ warnings r = st_warnings w'
          /\ hasErrors r = (0 <? length (filter isCritical (errors r)))
          /\ summary r
             = {| totalErrors := length (errors r) + length (warnings r);
                  consoleErrors := length (filter isConsole (errors r));
                  networkErrors := length (filter isNetwork (errors r));
                  exceptions := length (filter isException (errors r)) |})).
Proof.
  intros H.
  destruct (session_shape nanoid clock config br) as (o & w2 & E & He & Hw & Hs).
  rewrite E in H. inv H.
  destruct Hs as (Ha & Hc & Hl & Hs).
  repeat (split; [assumption|]).
  destruct (navigation br) as [navError|].
  - left. destruct Hs as (i & ts & d & ->). exists navError, i, ts, d. auto.
  - right. destruct Hs as (d & ->). simpl. repeat split.
Qed.
End Results.

(** ** Severity *)

Lemma errorEntry_spec e :
  errorEntry e = true ->
  (severity e = Critical \/ severity e = Error)
  /\ severity e = spec_severity (type e)
  /\ isCritical e = true.
Proof.
  unfold errorEntry, isCritical.
  destruct (type e), (severity e); intros H; try discriminate; simpl; auto.
Qed.

Lemma warningEntry_spec e :
  warningEntry e = true ->
  severity e = Warning /\ severity e = spec_severity (type e).
Proof.
  unfold warningEntry.
  destruct (type e), (severity e); intros H; try discriminate; simpl; auto.
Qed.

Lemma isCritical_spec e :
  isCritical e = true <-> severity e = Critical \/ severity e = Error.
Proof.
  unfold isCritical. destruct (severity e); split; intros H; auto;
    try discriminate; destruct H; discriminate.
Qed.

Lemma forallb_In {A} (f : A -> bool) l x :
  forallb f l = true -> In x l -> f x = true.
Proof. intros H. rewrite forallb_forall in H. apply H. Qed.

Lemma filter_nonempty_existsb {A} (f : A -> bool) l :
  (0 <? length (filter f l)) = existsb f l.
Proof.
  induction l as [|x l IH]; simpl; [reflexivity|].
  destruct (f x); simpl; [reflexivity | exact IH].
Qed.

(** C1, as amended.  Every entry that a listener or the content check
    appends to the two collections has the severity that the table assigns
    to its type; so has every entry of a result with [success] true.  The
    one error of a navigation-failure result is outside the table: its
    type is network-other and its severity is critical. *)
Theorem collected_severity_follows_type
    (nanoid : nat -> jstring) (clock : nat -> Z)
    (config : RuntimeMonitorConfig) (br : Browser)
    (o : outcome RuntimeMonitorResult) (w' : World) :
  session nanoid clock config br = (o, w') ->
  (forall e, In e (st_errors w') \/ In e (st_warnings w') ->
             severity e = spec_severity (type e))
  /\ (forall r, o = Ok r ->
        (success r = true ->
         forall e, In e (errors r) \/ In e (warnings r) ->
                   severity e = spec_severity (type e))
        /\ (success r = false ->
            exists e, errors r = [e] /\ warnings r = []
                      /\ type e = NetworkOther /\ severity e = Critical)).
Proof.
  intros H.
  destruct (session_shape nanoid clock config br) as (o2 & w2 & E & He & Hw & Hs).
  rewrite E in H. inv H.
  assert (Hall : forall e, In e (st_errors w') \/ In e (st_warnings w') ->
                           severity e = spec_severity (type e)).
  { intros e [Hin | Hin].
    - apply errorEntry_spec. eapply forallb_In; eassumption.
    - apply warningEntry_spec. eapply forallb_In; eassumption. }
  split; [exact Hall|].
  intros r ->. destruct Hs as (_ & _ & _ & Hs).
  destruct (navigation br) as [navError|].
  - destruct Hs as (i & ts & d & ->). simpl. split; [discriminate|].
    intros _. eexists. repeat split.
  - destruct Hs as (d & ->). simpl. split; [|discriminate].
    intros _. exact Hall.
Qed.

(** C2.  The result of a session has [hasErrors] true exactly when its
    errors list holds an item of severity critical or error; a result
    whose errors list holds no such item has [hasErrors] false. *)
Theorem hasErrors_iff_critical_or_error
    (nanoid : nat -> jstring) (clock : nat -> Z)
    (config : RuntimeMonitorConfig) (br : Browser)
    (r : RuntimeMonitorResult) (w' : World) :
  session nanoid clock config br = (Ok r, w') ->
  (hasErrors r = true <->
   exists e, In e (errors r) /\ (severity e = Critical \/ severity e = Error))
  /\ ((forall e, In e (errors r) -> severity e <> Critical /\ severity e <> Error) ->
      hasErrors r = false).
Proof.
  intros H.
  assert (Hiff : hasErrors r = true <->
                 exists e, In e (errors r) /\ (severity e = Critical \/ severity e = Error)).
  { apply returned in H as (_ & _ & _ & _ & _ & [Hf | Hs]).
    - destruct Hf as (navError & i & ts & d & _ & ->). simpl. split; [|reflexivity].
      intros _. eexists. split; [left; reflexivity|]. simpl. auto.
    - destruct Hs as (_ & _ & _ & _ & Hh & _). rewrite Hh, filter_nonempty_existsb.
      rewrite existsb_exists. split; intros (e & Hin & He); exists e; split; auto;
        now apply isCritical_spec. }
  split; [exact Hiff|].
  intros Hno. apply not_true_is_false. intros Hh.
  apply Hiff in Hh as (e & Hin & Hsev).
  destruct (Hno e Hin) as [H1 H2]. destruct Hsev; contradiction.
Qed.

(** C5.  In the result of a session, on the navigation-failure path as on
    the success path, [summary.totalErrors] is the length of the errors
    list plus the length of the warnings list. *)
Theorem totalErrors_counts_both_lists
    (nanoid : nat -> jstring) (clock : nat -> Z)
    (config : RuntimeMonitorConfig) (br : Browser)
    (r : RuntimeMonitorResult) (w' : World) :
  session nanoid clock config br = (Ok r, w') ->
  totalErrors (summary r) = length (errors r) + length (warnings r).
Proof.
  intros H. apply returned in H as (_ & _ & _ & _ & _ & [Hf | Hs]).
  - destruct Hf as (navError & i & ts & d & _ & ->). reflexivity.
  - destruct Hs as (_ & _ & _ & _ & _ & ->). reflexivity.
Qed.

(** C9.  Whatever a session appends to its errors collection has severity
    critical or error, and whatever it appends to its warnings collection
    has severity warning; the same holds of the two lists of a returned
    result, for which [hasErrors] is therefore equivalent to the errors
    list not being empty. *)
Theorem severity_segregation
    (nanoid : nat -> jstring) (clock : nat -> Z)
    (config : RuntimeMonitorConfig) (br : Browser)
    (o : outcome RuntimeMonitorResult) (w' : World) :
  session nanoid clock config br = (o, w') ->
  (forall e, In e (st_errors w') -> severity e = Critical \/ severity e = Error)
  /\ (forall e, In e (st_warnings w') -> severity e = Warning)
  /\ (forall r, o = Ok r ->
        (forall e, In e (errors r) -> severity e = Critical \/ severity e = Error)
        /\ (forall e, In e (warnings r) -> severity e = Warning)
        /\ (hasErrors r = true <-> errors r <> [])).
Proof.
  intros H.
  destruct (session_shape nanoid clock config br) as (o2 & w2 & E & He & Hw & Hs).
  rewrite E in H. inv H.
  assert (HE : forall e, In e (st_errors w') -> severity e = Critical \/ severity e = Error).
  { intros e Hin. apply errorEntry_spec. eapply forallb_In; eassumption. }
  assert (HW : forall e, In e (st_warnings w') -> severity e = Warning).
  { intros e Hin. apply warningEntry_spec. eapply forallb_In; eassumption. }
  repeat split; auto; subst o; destruct Hs as (_ & _ & _ & Hs);
    destruct (navigation br) as [navError|].
  - destruct Hs as (i & ts & d & ->). simpl in *. intuition (subst; auto).
  - destruct Hs as (d & ->). simpl in *. auto.
  - destruct Hs as (i & ts & d & ->). simpl in *. contradiction.
  - destruct Hs as (d & ->). simpl in *. auto.
  - destruct Hs as (i & ts & d & ->). simpl. discriminate.
  - destruct Hs as (d & ->). simpl. intros Hh Hnil. rewrite Hnil in Hh. discriminate.
  - destruct Hs as (i & ts & d & ->). reflexivity.
  - destruct Hs as (d & ->). simpl. intros Hne.
    destruct (st_errors w') as [|e l]; [congruence|].
    simpl in He. apply andb_true_iff in He as [He _].
    apply errorEntry_spec in He as (_ & _ & Hc). simpl. now rewrite Hc.
Qed.

Lemma category_of_type e :
  isConsole e
  = match type e with ConsoleError | ConsoleWarning => true | _ => false end
  /\ isNetwork e
    = match type e with
      | Network404 | Network500 | NetworkOther => true
      | _ => false
      end
  /\ isException e = match type e with Exception => true | _ => false end.
Proof.
  unfold isConsole, isNetwork, isException.
  destruct (type e); vm_compute; repeat split.
Qed.

Lemma count_by_category l :
  forallb errorEntry l = true ->
  length (filter isConsole l) + length (filter isNetwork l)
  + length (filter isException l) = length l.
Proof.
  induction l as [|e l IH]; simpl; [reflexivity|].
  intros H. apply andb_true_iff in H as [He Hl]. specialize (IH Hl).
  unfold errorEntry in He. destruct (category_of_type e) as (C1 & C2 & C3).
  rewrite C1, C2, C3.
  destruct (type e); try discriminate He; simpl; lia.
Qed.

(** C10.  In the result of a successful session the three per-category
    counts are counts over the errors list, and they add up to its length:
    each error is counted in exactly one category, and the warnings add to
    [totalErrors] only. *)
Theorem category_counts_cover_errors_only
    (nanoid : nat -> jstring) (clock : nat -> Z)
    (config : RuntimeMonitorConfig) (br : Browser)
    (r : RuntimeMonitorResult) (w' : World) :
  session nanoid clock config br = (Ok r, w') ->
  success r = true ->
  consoleErrors (summary r) = length (filter isConsole (errors r))
  /\ networkErrors (summary r) = length (filter isNetwork (errors r))
  /\ exceptions (summary r) = length (filter isException (errors r))
  /\ consoleErrors (summary r) + networkErrors (summary r) + exceptions (summary r)
     = length (errors r)
  /\ totalErrors (summary r)
     = consoleErrors (summary r) + networkErrors (summary r) + exceptions (summary r)
       + length (warnings r).
Proof.
  intros H Hok. apply returned in H as (He & _ & _ & _ & _ & [Hf | Hs]).
  - destruct Hf as (navError & i & ts & d & _ & ->). discriminate.
  - destruct Hs as (_ & _ & Herr & _ & _ & Hsum). rewrite Hsum. simpl.
    rewrite <- Herr in He. pose proof (count_by_category _ He). repeat split; lia.
Qed.

(** ** Navigation failure *)

(** C4, as amended.  When navigation fails and the browser then closes
    without a fault, the session returns: [success] false, [hasErrors]
    true, exactly one error, of type network-other and severity critical,
    that describes the failure, no warnings, and the summary 1, 0, 1, 0;
    the browser is released.  The settle wait and the content check are
    not attempted: the outcome does not depend on what the page would have
    done during them. *)
Theorem navigation_failure_result
    (nanoid : nat -> jstring) (clock : nat -> Z)
    (config : RuntimeMonitorConfig) (br : Browser) (navError : jstring) :
  acquire br = Acquired ->
  navigation br = Some navError ->
  closeFault br = None ->
  (exists i ts d w',
      session nanoid clock config br
      = (Ok {| success := false;
               sandboxId := Config.sandboxId config;
               hasErrors := true;
               errors :=
                 [ {| id := i; type := NetworkOther; severity := Critical;
                      message := lit "Failed to navigate to sandbox: " ++ navError;
                      stack := None;
                      url := Some (Config.sandboxUrl config);
                      statusCode := None; timestamp := ts; source := None |} ];
               warnings := [];
               summary := {| totalErrors := 1; consoleErrors := 0;
                             networkErrors := 1; exceptions := 0 |};
               monitorDuration := d;
               monitoringError := None |}, w')
      /\ st_live w' = false)
  /\ (forall setS stl chkS chk,
         session nanoid clock config (with_rest br setS stl chkS chk)
         = session nanoid clock config br).
Proof.
  intros Ha Hn Hc. split.
  - destruct (session_shape nanoid clock config br) as (o & w' & E & _ & _ & Hs).
    destruct o as [r | e].
    + destruct Hs as (_ & _ & Hl & Hs). rewrite Hn in Hs.
      destruct Hs as (i & ts & d & ->). exists i, ts, d, w'. split; assumption.
    + destruct Hs as [Hs | Hs]; contradiction.
  - intros setS stl chkS chk.
    destruct br as [acq navS nav setS0 stl0 chkS0 chk0 cloS cloF cleF].
    simpl in Ha, Hn, Hc. subst. unfold with_rest. unfold_session.
    repeat run_emit. reflexivity.
Qed.

(** ** The allow-list *)

Lemma shouldCapture_absent t : shouldCapture None t = true.
Proof. reflexivity. Qed.

Lemma shouldCapture_empty t : shouldCapture (Some []) t = true.
Proof. reflexivity. Qed.

Lemma shouldCapture_listed ts t :
  ts <> [] -> shouldCapture (Some ts) t = includes ts t.
Proof. destruct ts; [congruence | reflexivity]. Qed.

(** Console output, uncaught exceptions, 404 and 5xx responses go through
    the allow-list: a signal of a type that is not captured changes
    nothing. *)
Lemma filtered_sources_respect_allow_list
    (nanoid : nat -> jstring) (clock : nat -> Z)
    (errorTypes : option (list jstring)) (w : World) :
  (forall text, shouldCapture errorTypes (type_str ConsoleError) = false ->
     dispatch nanoid clock errorTypes (Console (lit "error") text) w = (Ok tt, w))
  /\ (forall text, shouldCapture errorTypes (type_str ConsoleWarning) = false ->
     dispatch nanoid clock errorTypes (Console (lit "warning") text) w = (Ok tt, w))
  /\ (forall msg stk, shouldCapture errorTypes (type_str Exception) = false ->
     dispatch nanoid clock errorTypes (PageError msg stk) w = (Ok tt, w))
  /\ (forall rurl, shouldCapture errorTypes (type_str Network404) = false ->
     dispatch nanoid clock errorTypes (Response 404 rurl) w = (Ok tt, w))
  /\ (forall status rurl, (500 <= status)%Z ->
     shouldCapture errorTypes (type_str Network500) = false ->
     dispatch nanoid clock errorTypes (Response status rurl) w = (Ok tt, w)).
Proof.
  repeat split; intros; unfold dispatch, onConsole, onPageError, onResponse.
  - change (type_str ConsoleError) with (lit "console-error") in H. rewrite H.
    reflexivity.
  - change (type_str ConsoleWarning) with (lit "console-warning") in H. rewrite H.
    reflexivity.
  - change (type_str Exception) with (lit "exception") in H. rewrite H. reflexivity.
  - change (type_str Network404) with (lit "network-404") in H. rewrite H. reflexivity.
  - change (type_str Network500) with (lit "network-500") in H0. rewrite H0.
    replace (status =? 404)%Z with false by (symmetry; apply Z.eqb_neq; lia).
    replace (status <? 500)%Z with false by (symmetry; apply Z.ltb_ge; lia).
    rewrite !andb_false_r. reflexivity.
Qed.

(** The other 4xx responses and the request failures do not: they are
    appended to the warnings whatever the allow-list says. *)
Lemma network_other_ignores_allow_list
    (nanoid : nat -> jstring) (clock : nat -> Z)
    (errorTypes : option (list jstring)) (w : World) :
  (forall status rurl, (400 <= status < 500)%Z -> status <> 404%Z ->
     exists e, type e = NetworkOther
               /\ st_warnings (snd (dispatch nanoid clock errorTypes
                                      (Response status rurl) w))
                  = st_warnings w ++ [e])
  /\ (forall rurl errorText,
     exists e, type e = NetworkOther
               /\ st_warnings (snd (dispatch nanoid clock errorTypes
                                      (RequestFailed rurl errorText) w))
                  = st_warnings w ++ [e]).
Proof.
  split.
  - intros status rurl Hr Hne. unfold dispatch, onResponse.
    replace (status =? 404)%Z with false by (symmetry; apply Z.eqb_neq; lia).
    replace (500 <=? status)%Z with false by (symmetry; apply Z.leb_gt; lia).
    replace (400 <=? status)%Z with true by (symmetry; apply Z.leb_le; lia).
    replace (status <? 500)%Z with true by (symmetry; apply Z.ltb_lt; lia).
    simpl. eexists. split; [|reflexivity]. reflexivity.
  - intros rurl errorText. simpl. eexists. split; [|reflexivity]. reflexivity.
Qed.

(** C3, at the failing input.  The allow-list asks for console errors
    only; network-other is not in it.  The page answers one request with
    403 and fails another in transport.  Both are appended to the
    warnings, with type network-other. *)
Theorem allow_list_skipped_for_network_other :
  shouldCapture (Config.errorTypes demo_config_console_only) (type_str NetworkOther)
  = false
  /\ exists r w,
       session demo_nanoid demo_clock demo_config_console_only page_forbidden = (Ok r, w)
       /\ map type (warnings r) = [NetworkOther; NetworkOther]
       /\ map message (warnings r)
          = [ lit "HTTP 403: http://x/api";
              lit "Request failed: Unknown error - http://x/font.woff" ].
Proof.
  split; [reflexivity|].
  do 2 eexists. split; [vm_compute; reflexivity|].
  split; vm_compute; reflexivity.
Qed.

(** ** The Fixer: path normalization *)

(** After normalization a path is under [src/] or has no component
    extension. *)
Lemma normalizePath_settled p :
  startsWith (normalizePath p) (lit "src/") = true
  \/ (endsWith (normalizePath p) (lit ".jsx") = false
      /\ endsWith (normalizePath p) (lit ".tsx") = false).
Proof.
  unfold normalizePath.
  set (p1 := if startsWith p (lit "/") then slice 1 p else p).
  set (p2 := if startsWith p1 (lit "./") then slice 2 p1 else p1).
  destruct (startsWith p2 (lit "src/")) eqn:Hs;
    destruct (endsWith p2 (lit ".jsx")) eqn:Hj;
    destruct (endsWith p2 (lit ".tsx")) eqn:Ht;
    cbn [negb andb orb];
    try (left; assumption);
    try (left; reflexivity).
  right. split; assumption.
Qed.

(** C7, as amended.  Normalizing a normalized path gives the same path
    whenever the normalized path does not itself begin with [/] or [./]
    (one leading marker of each kind is stripped, not all of them). *)
Theorem normalizePath_idempotent_on_clean_output (p : jstring) :
  startsWith (normalizePath p) (lit "/") = false ->
  startsWith (normalizePath p) (lit "./") = false ->
  normalizePath (normalizePath p) = normalizePath p.
Proof.
  intros H1 H2. set (q := normalizePath p) in *.
  unfold normalizePath at 1. fold q. rewrite H1, H2.
  destruct (normalizePath_settled p) as [Hs | [Hj Ht]]; fold q in Hs || fold q in Hj, Ht.
  - rewrite Hs. reflexivity.
  - rewrite Hj, Ht, andb_false_r. reflexivity.
Qed.

Lemma jstring_eqb_eq a b : jstring_eqb a b = true <-> a = b.
Proof.
  revert b; induction a as [|x a IH]; destruct b as [|y b]; simpl;
    try (split; [discriminate | congruence]); [tauto|].
  rewrite andb_true_iff, N.eqb_eq, IH. split; [intros [-> ->] | intros [= -> ->]]; auto.
Qed.

Lemma jstring_eqb_refl a : jstring_eqb a a = true.
Proof. now apply jstring_eqb_eq. Qed.

Lemma startsWith_length s p : startsWith s p = true -> length p <= length s.
Proof.
  revert s; induction p as [|y p IH]; intros s H; simpl in *; [lia|].
  destruct s as [|x s]; [discriminate|].
  apply andb_true_iff in H as [_ H]. apply IH in H. simpl. lia.
Qed.

(** A suffix of a suffix is a suffix. *)
Lemma endsWith_skipn k s ext :
  endsWith (skipn k s) ext = true -> endsWith s ext = true.
Proof.
  unfold endsWith. rewrite !jstring_eqb_eq. intros H.
  rewrite skipn_skipn in H.
  assert (L : length ext = length s - (length (skipn k s) - length ext + k))
    by (rewrite <- H at 1; apply length_skipn).
  rewrite length_skipn in *.
  destruct (Nat.eq_dec (length ext) 0) as [Z | NZ].
  - destruct ext; [|discriminate]. simpl. rewrite Nat.sub_0_r. apply skipn_all.
  - replace (length s - length ext) with (length s - k - length ext + k) by lia.
    exact H.
Qed.

(** The condition of the amended C7 is also necessary: a normalized path
    that still begins with a marker loses it in a second round. *)
Lemma normalizePath_strips_marked_output p :
  startsWith (normalizePath p) (lit "/") = true
  \/ startsWith (normalizePath p) (lit "./") = true ->
  normalizePath (normalizePath p) <> normalizePath p.
Proof.
  intros Hm. set (q := normalizePath p) in *.
  assert (Hext : endsWith q (lit ".jsx") = false /\ endsWith q (lit ".tsx") = false).
  { destruct (normalizePath_settled p) as [Hs | H]; [|exact H]. fold q in Hs.
    exfalso. destruct q as [|c q']; [discriminate|].
    simpl in Hs, Hm. apply andb_true_iff in Hs as [Hc _]. apply N.eqb_eq in Hc. subst c.
    destruct Hm as [Hm | Hm]; discriminate. }
  destruct Hext as [Hj Ht].
  unfold normalizePath.
  set (q1 := if startsWith q (lit "/") then slice 1 q else q).
  set (q2 := if startsWith q1 (lit "./") then slice 2 q1 else q1).
  assert (Hk : exists k, 1 <= k <= length q /\ q2 = skipn k q).
  { subst q2 q1. unfold slice.
    destruct (startsWith q (lit "/")) eqn:H1.
    - destruct (startsWith (skipn 1 q) (lit "./")) eqn:H2.
      + exists 3. apply startsWith_length in H1, H2. rewrite length_skipn in H2.
        simpl in H1, H2. split; [lia|]. now rewrite skipn_skipn.
      + exists 1. apply startsWith_length in H1. simpl in H1. split; [lia|reflexivity].
    - destruct Hm as [Hm | Hm]; [discriminate|]. rewrite Hm.
      exists 2. apply startsWith_length in Hm. simpl in Hm. split; [lia|reflexivity]. }
  destruct Hk as (k & Hk & Hq2).
  assert (Hj2 : endsWith q2 (lit ".jsx") = false).
  { destruct (endsWith q2 (lit ".jsx")) eqn:E; [|reflexivity].
    rewrite Hq2 in E. apply endsWith_skipn in E. congruence. }
  assert (Ht2 : endsWith q2 (lit ".tsx") = false).
  { destruct (endsWith q2 (lit ".tsx")) eqn:E; [|reflexivity].
    rewrite Hq2 in E. apply endsWith_skipn in E. congruence. }
  rewrite Hj2, Ht2, andb_false_r. intros Heq.
  apply (f_equal (@length char)) in Heq. rewrite Hq2, length_skipn in Heq. lia.
Qed.

(** ** The Fixer: the working file set *)

Lemma includes_app s t x : includes (s ++ t) x = includes s x || includes t x.
Proof. unfold includes. apply existsb_app. Qed.

Lemma Set_add_has x s : Set_has (Set_add x s) x = true.
Proof.
  unfold Set_has, Set_add. destruct (includes s x) eqn:H; [exact H|].
  rewrite includes_app. simpl. rewrite jstring_eqb_refl. apply orb_true_r.
Qed.

Lemma Set_add_keeps x s y : Set_has s y = true -> Set_has (Set_add x s) y = true.
Proof.
  unfold Set_has, Set_add. intros H. destruct (includes s x); [exact H|].
  rewrite includes_app, H. reflexivity.
Qed.

Lemma addErrorFile_keeps s e y : Set_has s y = true -> Set_has (addErrorFile s e) y = true.
Proof.
  unfold addErrorFile. intros H. destruct (source e) as [src|]; [|exact H].
  destruct (truthy (file src)); [|exact H]. now apply Set_add_keeps.
Qed.

Lemma fold_addErrorFile_keeps errors : forall s y,
  Set_has s y = true -> Set_has (fold_left addErrorFile errors s) y = true.
Proof.
  induction errors as [|e errors IH]; intros s y H; simpl; [exact H|].
  apply IH. now apply addErrorFile_keeps.
Qed.

(** C8.  Whatever the errors and the focus files are, the four
    always-relevant files belong to the working file set. *)
Theorem always_relevant_files_in_working_set
    (errors : list RuntimeError) (focusFiles : option (list jstring)) :
  Forall (fun f => Set_has (relevantFiles errors focusFiles) f = true) alwaysRelevant.
Proof.
  unfold relevantFiles, alwaysRelevant.
  repeat constructor; apply fold_addErrorFile_keeps;
    repeat (apply Set_add_has || apply Set_add_keeps).
Qed.

(** With no focus files and no error that carries a source, the working
    set is just these four. *)
Lemma working_set_without_hints errors :
  Forall (fun e => source e = None) errors ->
  relevantFiles errors None = alwaysRelevant
  /\ relevantFiles errors (Some []) = alwaysRelevant.
Proof.
  intros H. unfold relevantFiles.
  assert (K : forall s, fold_left addErrorFile errors s = s).
  { induction H as [|e l He _ IH]; intros s; simpl; [reflexivity|].
    unfold addErrorFile at 2. rewrite He. apply IH. }
  rewrite !K. split; reflexivity.
Qed.

(* ================================================================== *)
(** * Concrete sessions and inputs *)

(** C1 as stated fails: the error that a navigation failure produces has
    type network-other, which the table maps to warning, and severity
    critical. *)
Lemma navigation_failure_error_is_off_the_table :
  exists r w e,
    session demo_nanoid demo_clock demo_config page_unreachable = (Ok r, w)
    /\ In e (errors r)
    /\ type e = NetworkOther
    /\ severity e = Critical
    /\ severity e <> spec_severity (type e).
Proof.
  do 3 eexists. split; [vm_compute; reflexivity|].
  split; [left; reflexivity|].
  repeat split. discriminate.
Qed.

Lemma collected_severity_follows_type_witness :
  session demo_nanoid demo_clock demo_config page_loads
  = (fst (session demo_nanoid demo_clock demo_config page_loads),
     snd (session demo_nanoid demo_clock demo_config page_loads))
  /\ forall e,
       In e (st_errors (snd (session demo_nanoid demo_clock demo_config page_loads)))
       \/ In e (st_warnings (snd (session demo_nanoid demo_clock demo_config page_loads))) ->
       severity e = spec_severity (type e).
Proof.
  split; [apply surjective_pairing|].
  refine (proj1 (@collected_severity_follows_type demo_nanoid demo_clock demo_config
                   page_loads _ _ _)).
  apply surjective_pairing.
Defined.

Lemma hasErrors_iff_critical_or_error_witness :
  exists r w,
    session demo_nanoid demo_clock demo_config page_warns = (Ok r, w)
    /\ errors r = []
    /\ length (warnings r) = 3
    /\ (hasErrors r = true <->
        exists e, In e (errors r) /\ (severity e = Critical \/ severity e = Error)).
Proof.
  do 2 eexists. split; [vm_compute; reflexivity|].
  split; [reflexivity|]. split; [reflexivity|].
  refine (proj1 (@hasErrors_iff_critical_or_error demo_nanoid demo_clock demo_config
                   page_warns _ _ _)).
  vm_compute; reflexivity.
Defined.

(** C4 as stated fails: navigation fails, the browser then refuses to
    close, and the session throws instead of returning a result. *)
Lemma navigation_failure_with_stuck_browser_throws :
  acquire page_unreachable_stuck = Acquired
  /\ navigation page_unreachable_stuck = Some (lit "Timeout 500ms exceeded")
  /\ fst (session demo_nanoid demo_clock demo_config page_unreachable_stuck)
     = Throw (lit "Target closed")
  /\ ~ exists r w,
         session demo_nanoid demo_clock demo_config page_unreachable_stuck = (Ok r, w).
Proof.
  split; [reflexivity|]. split; [reflexivity|].
  assert (E : session demo_nanoid demo_clock demo_config page_unreachable_stuck
              = (Throw (lit "Target closed"),
                 snd (session demo_nanoid demo_clock demo_config page_unreachable_stuck)))
    by (vm_compute; reflexivity).
  split.
  - rewrite E. reflexivity.
  - intros (r & w & H). rewrite E in H. discriminate H.
Qed.

Lemma navigation_failure_result_witness :
  acquire page_unreachable = Acquired
  /\ navigation page_unreachable = Some (lit "Timeout 500ms exceeded")
  /\ closeFault page_unreachable = None
  /\ exists i ts d w',
       session demo_nanoid demo_clock demo_config page_unreachable
       = (Ok {| success := false;
                sandboxId := lit "s1";
                hasErrors := true;
                errors :=
                  [ {| id := i; type := NetworkOther; severity := Critical;
                       message := lit "Failed to navigate to sandbox: "
                                  ++ lit "Timeout 500ms exceeded";
                       stack := None;
                       url := Some (lit "http://x/never-resolves");
                       statusCode := None; timestamp := ts; source := None |} ];
                warnings := [];
                summary := {| totalErrors := 1; consoleErrors := 0;
                              networkErrors := 1; exceptions := 0 |};
                monitorDuration := d;
                monitoringError := None |}, w')
       /\ st_live w' = false.
Proof.
  repeat (split; [reflexivity|]).
  exact (proj1 (@navigation_failure_result demo_nanoid demo_clock demo_config
                  page_unreachable (lit "Timeout 500ms exceeded")
                  eq_refl eq_refl eq_refl)).
Defined.

Lemma totalErrors_counts_both_lists_witness :
  exists r w,
    session demo_nanoid demo_clock demo_config page_loads = (Ok r, w)
    /\ length (errors r) = 3
    /\ length (warnings r) = 1
    /\ totalErrors (summary r) = length (errors r) + length (warnings r).
Proof.
  do 2 eexists. split; [vm_compute; reflexivity|].
  split; [reflexivity|]. split; [reflexivity|].
  refine (@totalErrors_counts_both_lists demo_nanoid demo_clock demo_config page_loads
            _ _ _).
  vm_compute; reflexivity.
Defined.

(** C7 as stated fails: a protocol-relative URL keeps a leading slash
    after one round and loses it in the next. *)
Lemma normalizePath_not_idempotent :
  normalizePath (lit "//cdn.example.com/lib.js") = lit "/cdn.example.com/lib.js"
  /\ normalizePath (normalizePath (lit "//cdn.example.com/lib.js"))
     = lit "cdn.example.com/lib.js"
  /\ normalizePath (normalizePath (lit "//cdn.example.com/lib.js"))
     <> normalizePath (lit "//cdn.example.com/lib.js").
Proof.
  repeat split. vm_compute. discriminate.
Qed.

Lemma normalizePath_idempotent_on_clean_output_witness :
  normalizePath (lit "/App.jsx") = lit "src/App.jsx"
  /\ normalizePath (normalizePath (lit "/App.jsx")) = normalizePath (lit "/App.jsx").
Proof.
  split; [reflexivity|].
  apply (@normalizePath_idempotent_on_clean_output (lit "/App.jsx")); reflexivity.
Defined.

Lemma severity_segregation_witness :
  exists r w,
    session demo_nanoid demo_clock demo_config page_loads = (Ok r, w)
    /\ (hasErrors r = true <-> errors r <> []).
Proof.
  do 2 eexists. split; [vm_compute; reflexivity|].
  refine (proj2 (proj2 (proj2 (proj2
            (@severity_segregation demo_nanoid demo_clock demo_config page_loads
               _ _ _)) _ eq_refl))).
  vm_compute; reflexivity.
Defined.

Lemma category_counts_cover_errors_only_witness :
  exists r w,
    session demo_nanoid demo_clock demo_config page_loads = (Ok r, w)
    /\ success r = true
    /\ consoleErrors (summary r) = 1
    /\ networkErrors (summary r) = 1
    /\ exceptions (summary r) = 1
    /\ consoleErrors (summary r) + networkErrors (summary r) + exceptions (summary r)
       = length (errors r).
Proof.
  do 2 eexists. split; [vm_compute; reflexivity|].
  split; [reflexivity|]. repeat (split; [reflexivity|]).
  refine (proj1 (proj2 (proj2 (proj2
            (@category_counts_cover_errors_only demo_nanoid demo_clock demo_config
               page_loads _ _ _ _))))); [vm_compute; reflexivity | reflexivity].
Defined.

(** ** The scenarios of the specification, evaluated *)

Example parse_stack_frame :
  parseErrorSource (lit "at Component (App.jsx:42:15)")
  = Some {| file := lit "App.jsx"; line := Some (Num 42); column := Some (Num 15) |}.
Proof. reflexivity. Qed.

Example parse_simple :
  parseErrorSource (lit "error in src/App.jsx:42 somewhere")
  = Some {| file := lit "src/App.jsx"; line := Some (Num 42); column := None |}.
Proof. reflexivity. Qed.

Example parse_prefers_parenthesized :
  parseErrorSource (lit "main.js:7 at render (App.jsx:42:15)")
  = Some {| file := lit "App.jsx"; line := Some (Num 42); column := Some (Num 15) |}.
Proof. reflexivity. Qed.

Example parse_nothing : parseErrorSource (lit "x is not defined") = None.
Proof. reflexivity. Qed.

Example scenario_never_resolves :
  fst (session demo_nanoid demo_clock demo_config page_unreachable)
  = Ok {| success := false;
          sandboxId := lit "s1";
          hasErrors := true;
          errors :=
            [ {| id := lit "id-1"; type := NetworkOther; severity := Critical;
                 message := lit "Failed to navigate to sandbox: Timeout 500ms exceeded";
                 stack := None; url := Some (lit "http://x/never-resolves");
                 statusCode := None; timestamp := 1020%Z; source := None |} ];
          warnings := [];
          summary := {| totalErrors := 1; consoleErrors := 0;
                        networkErrors := 1; exceptions := 0 |};
          monitorDuration := 30%Z;
          monitoringError := None |}.
Proof. vm_compute. reflexivity. Qed.

Example scenario_console_error_and_404 :
  exists r w,
    session demo_nanoid demo_clock demo_config page_loads = (Ok r, w)
    /\ success r = true
    /\ hasErrors r = true
    /\ map (fun e => (type e, severity e, statusCode e)) (errors r)
       = [ (ConsoleError, Error, None);
           (Network404, Error, Some 404%Z);
           (Exception, Critical, None) ]
    /\ map source (errors r)
       = [ None; None;
           Some {| file := lit "App.jsx"; line := Some (Num 42);
                   column := Some (Num 15) |} ].
Proof.
  do 2 eexists. split; [vm_compute; reflexivity|]. repeat split; vm_compute; reflexivity.
Qed.

Example scenario_fixer_App_jsx :
  forall e,
    source e = Some {| file := lit "/App.jsx"; line := None; column := None |} ->
    relevantFiles [e] None = alwaysRelevant ++ [lit "src/App.jsx"].
Proof.
  intros e H. unfold relevantFiles. simpl. unfold addErrorFile. rewrite H.
  vm_compute. reflexivity.
Qed.


(* ================================================================== *)
(** * Further properties of the Monitor *)

(** ** Invariants, rule by rule *)

Section Preservation.
Variable I : World -> Prop.

Lemma preserves_ret A (a : A) : preserves I (ret a).
Proof. intros w H. exact H. Qed.

Lemma preserves_throw A (e : jstring) : preserves I (@throw A e).
Proof. intros w H. exact H. Qed.

Lemma preserves_bind A B (c : M A) (k : A -> M B) :
  preserves I c -> (forall a, preserves I (k a)) -> preserves I (bind c k).
Proof.
  intros Hc Hk w H. unfold bind. specialize (Hc w H).
  destruct (c w) as [[a | e] w1]; simpl in *; [apply Hk; exact Hc | exact Hc].
Qed.

Lemma preserves_try_catch A (c : M A) (h : jstring -> M A) :
  preserves I c -> (forall e, preserves I (h e)) -> preserves I (try_catch c h).
Proof.
  intros Hc Hh w H. unfold try_catch. specialize (Hc w H).
  destruct (c w) as [[a | e] w1]; simpl in *; [exact Hc | apply Hh; exact Hc].
Qed.

Lemma preserves_when b (c : M unit) : preserves I c -> preserves I (when b c).
Proof. intros Hc. destruct b; simpl; [exact Hc | apply preserves_ret]. Qed.

Lemma preserves_get_errors : preserves I get_errors.
Proof. intros w H. exact H. Qed.

Lemma preserves_get_warnings : preserves I get_warnings.
Proof. intros w H. exact H. Qed.

Lemma preserves_get_browser : preserves I get_browser.
Proof. intros w H. exact H. Qed.

Lemma preserves_settled f : preserves I (settled f).
Proof. destruct f; [apply preserves_throw | apply preserves_ret]. Qed.

Lemma preserves_evaluated v : preserves I (evaluated v).
Proof. destruct v; [apply preserves_throw | apply preserves_ret | apply preserves_ret]. Qed.

Section Steps.
Variable nanoid : nat -> jstring.
Variable clock : nat -> Z.

(** What the invariant has to survive: a clock reading, an id draw, the
    two assignments to the browser, one listener call, and the advisory
    of the content check. *)
Hypothesis I_tick : preserves I (Date_now clock).
Hypothesis I_id : preserves I (fresh_id nanoid).
Hypothesis I_live : forall b, preserves I (set_live b).
Hypothesis I_browser : forall b, preserves I (set_browser b).
Hypothesis I_dispatch : forall errorTypes sg, preserves I (dispatch nanoid clock errorTypes sg).
Hypothesis I_advisory :
  preserves I
    (i <- fresh_id nanoid ;;
     ts <- Date_now clock ;;
     push_warning {| id := i; type := ConsoleWarning; severity := Warning;
                     message := lit "React root is empty - page may not have rendered";
                     stack := None; url := None; statusCode := None;
                     timestamp := ts; source := None |}).

Lemma preserves_emit errorTypes sgs : preserves I (emit nanoid clock errorTypes sgs).
Proof.
  induction sgs as [|sg sgs IH]; simpl; [apply preserves_ret|].
  apply preserves_bind; [apply I_dispatch | intros _; exact IH].
Qed.

Lemma preserves_awaiting A errorTypes sgs (answer : M A) :
  preserves I answer -> preserves I (awaiting nanoid clock errorTypes sgs answer).
Proof.
  intros H. unfold awaiting. apply preserves_bind; [apply preserves_emit | intros _; exact H].
Qed.

Lemma preserves_browser_close f : preserves I (browser_close f).
Proof. destruct f; [apply preserves_throw | apply I_live]. Qed.

Lemma preserves_acquire_page a : preserves I (acquire_page a).
Proof.
  destruct a; simpl;
    repeat first [ apply preserves_throw | apply I_live | apply I_browser
                 | apply preserves_bind; [|intros _] ].
Qed.

(** [monitorSandbox] keeps every such invariant, on all its paths. *)
Lemma monitorSandbox_preserves config br :
  preserves I (monitorSandbox nanoid clock config br).
Proof.
  unfold monitorSandbox.
  apply preserves_bind; [apply I_tick | intros startTime].
  apply preserves_try_catch.
  - apply preserves_bind; [apply preserves_acquire_page | intros _].
    apply preserves_bind.
    + apply preserves_try_catch; [|intros e; apply preserves_ret].
      apply preserves_bind; [|intros _; apply preserves_ret].
      apply preserves_awaiting, preserves_settled.
    + intros [navError|].
      * repeat first [ apply preserves_ret | apply I_tick | apply I_id | apply I_browser
                     | apply preserves_awaiting, preserves_browser_close
                     | apply preserves_bind; [|intros ?] ].
      * apply preserves_bind.
        { apply preserves_try_catch; [|intros e; apply preserves_ret].
          apply preserves_awaiting, preserves_settled. }
        intros _. apply preserves_bind.
        { apply preserves_try_catch; [|intros e; apply preserves_ret].
          apply preserves_awaiting, preserves_evaluated. }
        intros hasContent. apply preserves_bind.
        { apply preserves_when. exact I_advisory. }
        intros _.
        repeat first [ apply preserves_ret | apply I_tick | apply I_browser
                     | apply preserves_get_errors | apply preserves_get_warnings
                     | apply preserves_awaiting, preserves_browser_close
                     | apply preserves_bind; [|intros ?] ].
  - intros error.
    apply preserves_bind; [apply preserves_get_browser | intros b].
    apply preserves_bind; [|intros _; apply preserves_throw].
    apply preserves_when, preserves_try_catch;
      [apply preserves_browser_close | intros e; apply preserves_ret].
Qed.
End Steps.
End Preservation.

(** ** Which fields an entry carries *)

Lemma fieldsOK_same w w' :
  st_errors w' = st_errors w -> st_warnings w' = st_warnings w ->
  fieldsOK w -> fieldsOK w'.
Proof. unfold fieldsOK. intros -> ->. auto. Qed.

Lemma fieldsOK_push_error e w :
  fieldsByType e = true -> fieldsOK w -> fieldsOK (snd (push_error e w)).
Proof.
  unfold fieldsOK. simpl. intros He [H1 H2]. rewrite forallb_app, H1. simpl.
  rewrite He. auto.
Qed.

Lemma fieldsOK_push_warning e w :
  fieldsByType e = true -> fieldsOK w -> fieldsOK (snd (push_warning e w)).
Proof.
  unfold fieldsOK. simpl. intros He [H1 H2]. rewrite forallb_app, H2. simpl.
  rewrite He. auto.
Qed.

Ltac fields_step H :=
  let H1 := fresh "H" in
  let H2 := fresh "H" in
  unfold fieldsOK in *; destruct H as [H1 H2];
  cbv [bind fresh_id Date_now push_error push_warning ret];
  cbn [fst snd st_errors st_warnings];
  rewrite ?forallb_app, ?H1, ?H2; simpl; auto.

Lemma fieldsOK_dispatch nanoid clock errorTypes sg :
  preserves fieldsOK (dispatch nanoid clock errorTypes sg).
Proof.
  intros w H.
  destruct sg as [msgType text | msg stk | status rurl | rurl errorText];
    unfold dispatch, onConsole, onPageError, onResponse, onRequestFailed.
  - destruct (jstring_eqb msgType (lit "error") && _);
      [| destruct (jstring_eqb msgType (lit "warning") && _)];
      fields_step H.
  - destruct (shouldCapture errorTypes _); fields_step H.
  - destruct ((status =? 404)%Z && _) eqn:E1;
      [| destruct ((500 <=? status)%Z && _) eqn:E2;
         [| destruct ((400 <=? status)%Z && (status <? 500)%Z && _) eqn:E3]].
    + fields_step H.
    + apply andb_true_iff in E2 as [E2 _]. fields_step H.
      unfold fieldsByType. simpl. now rewrite E2.
    + fields_step H. unfold fieldsByType. simpl. now rewrite E3.
    + exact H.
  - fields_step H.
Qed.

Lemma fieldsOK_session nanoid clock config br :
  fieldsOK (snd (session nanoid clock config br)).
Proof.
  unfold session. apply monitorSandbox_preserves.
  - intros w H. eapply fieldsOK_same; [| |exact H]; reflexivity.
  - intros w H. eapply fieldsOK_same; [| |exact H]; reflexivity.
  - intros b w H. eapply fieldsOK_same; [| |exact H]; reflexivity.
  - intros b w H. eapply fieldsOK_same; [| |exact H]; reflexivity.
  - intros errorTypes sg. apply fieldsOK_dispatch.
  - intros w H. apply fieldsOK_push_warning; [reflexivity|].
    eapply fieldsOK_same; [| |exact H]; reflexivity.
  - split; reflexivity.
Qed.

Lemma fieldsByType_spec e :
  fieldsByType e = true ->
  (stack e <> None -> type e = Exception)
  /\ (url e <> None <-> isNetwork e = true)
  /\ (statusCode e <> None -> isNetwork e = true)
  /\ (source e <> None -> type e = ConsoleError \/ type e = Exception)
  /\ (type e = Network404 -> statusCode e = Some 404%Z)
  /\ (type e = Network500 -> exists s, statusCode e = Some s /\ (500 <= s)%Z).
Proof.
  destruct (category_of_type e) as (_ & CN & _). rewrite CN.
  unfold fieldsByType, present.
  destruct (type e), (stack e), (url e), (statusCode e) as [s|], (source e);
    simpl; intros H; try discriminate H;
    repeat split; intros; try congruence; try discriminate; auto.
  - f_equal. now apply Z.eqb_eq.
  - exists s. split; [reflexivity | now apply Z.leb_le].
Qed.

(** X1.  Every entry a session creates, and every entry of a result it
    returns, carries the optional fields of its type: a stack only on an
    exception, a url exactly on the network types, a status code only on
    them (404 on a network-404, 500 or more on a network-500), a source
    only on a console error or an exception. *)
Theorem entries_carry_the_fields_of_their_type
    (nanoid : nat -> jstring) (clock : nat -> Z)
    (config : RuntimeMonitorConfig) (br : Browser)
    (o : outcome RuntimeMonitorResult) (w' : World) (e : RuntimeError) :
  session nanoid clock config br = (o, w') ->
  In e (st_errors w') \/ In e (st_warnings w')
  \/ (exists r, o = Ok r /\ (In e (errors r) \/ In e (warnings r))) ->
  (stack e <> None -> type e = Exception)
  /\ (url e <> None <-> isNetwork e = true)
  /\ (statusCode e <> None -> isNetwork e = true)
  /\ (source e <> None -> type e = ConsoleError \/ type e = Exception)
  /\ (type e = Network404 -> statusCode e = Some 404%Z)
  /\ (type e = Network500 -> exists s, statusCode e = Some s /\ (500 <= s)%Z).
Proof.
  intros H Hin. apply fieldsByType_spec.
  pose proof (fieldsOK_session nanoid clock config br) as [FE FW].
  rewrite H in FE, FW. simpl in FE, FW.
  destruct Hin as [Hin | [Hin | (r & -> & Hin)]].
  - exact (@forallb_In _ _ _ _ FE Hin).
  - exact (@forallb_In _ _ _ _ FW Hin).
  - apply returned in H as (_ & _ & _ & _ & _ & [Hf | Hs]).
    + destruct Hf as (navError & i & ts & d & _ & ->). simpl in Hin.
      destruct Hin as [[<- | []] | []]. reflexivity.
    + destruct Hs as (_ & _ & Ee & Ew & _). rewrite Ee, Ew in Hin.
      destruct Hin as [Hin | Hin].
      * exact (@forallb_In _ _ _ _ FE Hin).
      * exact (@forallb_In _ _ _ _ FW Hin).
Qed.

(** ** Ids *)

Lemma NoDup_map_injective {A B} (f : A -> B) l :
  (forall a b, f a = f b -> a = b) -> NoDup l -> NoDup (map f l).
Proof.
  intros Hf. induction 1 as [|x l Hx _ IH]; simpl; constructor; [|exact IH].
  intros Hin. apply in_map_iff in Hin as (y & E & Hy). apply Hf in E. subst. contradiction.
Qed.

Lemma idsOK_more nanoid w w' :
  st_errors w' = st_errors w -> st_warnings w' = st_warnings w ->
  st_ids w <= st_ids w' ->
  idsOK nanoid w -> idsOK nanoid w'.
Proof.
  intros E W L (ke & kw & He & Hw & Hnd & Hlt).
  exists ke, kw. rewrite E, W. repeat split; auto.
  eapply Forall_impl; [|exact Hlt]. simpl. intros. lia.
Qed.

Lemma fresh_index_new (ks : list nat) n :
  Forall (fun k => k < n) ks -> ~ In n ks.
Proof.
  intros H Hin. rewrite Forall_forall in H. apply H in Hin. lia.
Qed.

(** An entry created with a fresh id keeps the ids apart, on either
    collection. *)
Lemma idsOK_push_error nanoid clock (mk : jstring -> Z -> RuntimeError) :
  (forall i ts, id (mk i ts) = i) ->
  preserves (idsOK nanoid)
    (i <- fresh_id nanoid ;; ts <- Date_now clock ;; push_error (mk i ts)).
Proof.
  intros Hid w (ke & kw & He & Hw & Hnd & Hlt).
  cbv [bind fresh_id Date_now push_error]; cbn [fst snd].
  exists (ke ++ [st_ids w]), kw. cbn [st_errors st_warnings st_ids].
  rewrite !map_app, He, Hw. simpl. rewrite Hid. repeat split.
  - rewrite <- app_assoc. simpl.
    eapply Permutation_NoDup; [apply Permutation_middle|].
    constructor; [apply fresh_index_new; exact Hlt | exact Hnd].
  - rewrite <- app_assoc. simpl. apply Forall_app. apply Forall_app in Hlt as [H1 H2].
    split; [|constructor; [lia|]];
      (eapply Forall_impl; [|eassumption]; simpl; intros; lia).
Qed.

Lemma idsOK_push_warning nanoid clock (mk : jstring -> Z -> RuntimeError) :
  (forall i ts, id (mk i ts) = i) ->
  preserves (idsOK nanoid)
    (i <- fresh_id nanoid ;; ts <- Date_now clock ;; push_warning (mk i ts)).
Proof.
  intros Hid w (ke & kw & He & Hw & Hnd & Hlt).
  cbv [bind fresh_id Date_now push_warning]; cbn [fst snd].
  exists ke, (kw ++ [st_ids w]). cbn [st_errors st_warnings st_ids].
  rewrite !map_app, He, Hw. simpl. rewrite Hid. repeat split.
  - rewrite app_assoc.
    eapply Permutation_NoDup; [apply Permutation_cons_append|].
    constructor; [apply fresh_index_new; exact Hlt | exact Hnd].
  - rewrite app_assoc. apply Forall_app. split; [|constructor; [lia|constructor]].
    eapply Forall_impl; [|exact Hlt]. simpl. intros. lia.
Qed.

Lemma idsOK_dispatch nanoid clock errorTypes sg :
  preserves (idsOK nanoid) (dispatch nanoid clock errorTypes sg).
Proof.
  destruct sg as [msgType text | msg stk | status rurl | rurl errorText];
    unfold dispatch, onConsole, onPageError, onResponse, onRequestFailed.
  - destruct (jstring_eqb msgType (lit "error") && _);
      [| destruct (jstring_eqb msgType (lit "warning") && _)].
    + apply (@idsOK_push_error nanoid clock
               (fun i ts => {| id := i; type := ConsoleError; severity := Error;
                               message := text; stack := None; url := None;
                               statusCode := None; timestamp := ts;
                               source := parseErrorSource text |})).
      reflexivity.
    + apply (@idsOK_push_warning nanoid clock
               (fun i ts => {| id := i; type := ConsoleWarning; severity := Warning;
                               message := text; stack := None; url := None;
                               statusCode := None; timestamp := ts; source := None |})).
      reflexivity.
    + apply preserves_ret.
  - destruct (shouldCapture errorTypes _); [|apply preserves_ret].
    apply (@idsOK_push_error nanoid clock
             (fun i ts => {| id := i; type := Exception; severity := Critical;
                             message := msg; stack := stk; url := None;
                             statusCode := None; timestamp := ts;
                             source := parseErrorSource (stack_or_message msg stk) |})).
    reflexivity.
  - destruct ((status =? 404)%Z && _);
      [| destruct ((500 <=? status)%Z && _);
         [| destruct ((400 <=? status)%Z && (status <? 500)%Z && _)]].
    + apply (@idsOK_push_error nanoid clock
               (fun i ts => {| id := i; type := Network404; severity := Error;
                               message := lit "404 Not Found: " ++ rurl; stack := None;
                               url := Some rurl; statusCode := Some 404%Z;
                               timestamp := ts; source := None |})).
      reflexivity.
    + apply (@idsOK_push_error nanoid clock
               (fun i ts => {| id := i; type := Network500; severity := Critical;
                               message := lit "HTTP " ++ show_int status ++ lit ": " ++ rurl;
                               stack := None; url := Some rurl; statusCode := Some status;
                               timestamp := ts; source := None |})).
      reflexivity.
    + apply (@idsOK_push_warning nanoid clock
               (fun i ts => {| id := i; type := NetworkOther; severity := Warning;
                               message := lit "HTTP " ++ show_int status ++ lit ": " ++ rurl;
                               stack := None; url := Some rurl; statusCode := Some status;
                               timestamp := ts; source := None |})).
      reflexivity.
    + apply preserves_ret.
  - apply (@idsOK_push_warning nanoid clock
             (fun i ts => {| id := i; type := NetworkOther; severity := Warning;
                             message := lit "Request failed: " ++ failure_text errorText
                                        ++ lit " - " ++ rurl;
                             stack := None; url := Some rurl; statusCode := None;
                             timestamp := ts; source := None |})).
    reflexivity.
Qed.

Lemma idsOK_session nanoid clock config br :
  idsOK nanoid (snd (session nanoid clock config br)).
Proof.
  unfold session. apply monitorSandbox_preserves.
  - intros w H. eapply idsOK_more; [| | |exact H]; simpl; auto.
  - intros w H. eapply idsOK_more; [| | |exact H]; simpl; auto.
  - intros b w H. eapply idsOK_more; [| | |exact H]; simpl; auto.
  - intros b w H. eapply idsOK_more; [| | |exact H]; simpl; auto.
  - intros errorTypes sg. apply idsOK_dispatch.
  - apply (@idsOK_push_warning nanoid clock
             (fun i ts => {| id := i; type := ConsoleWarning; severity := Warning;
                             message := lit "React root is empty - page may not have rendered";
                             stack := None; url := None; statusCode := None;
                             timestamp := ts; source := None |})).
    reflexivity.
  - exists [], []. repeat split; constructor.
Qed.

(** X2.  When the id generator never yields the same id twice, the
    entries of a returned result have pairwise distinct ids, across the
    errors and the warnings. *)
Theorem entry_ids_are_distinct
    (nanoid : nat -> jstring) (clock : nat -> Z)
    (config : RuntimeMonitorConfig) (br : Browser)
    (r : RuntimeMonitorResult) (w' : World) :
  (forall a b, nanoid a = nanoid b -> a = b) ->
  session nanoid clock config br = (Ok r, w') ->
  NoDup (map id (errors r ++ warnings r)).
Proof.
  intros Hinj H.
  pose proof (idsOK_session nanoid clock config br) as (ke & kw & He & Hw & Hnd & _).
  rewrite H in He, Hw. simpl in He, Hw.
  apply returned in H as (_ & _ & _ & _ & _ & [Hf | Hs]).
  - destruct Hf as (navError & i & ts & d & _ & ->). simpl.
    constructor; [intros [] | constructor].
  - destruct Hs as (_ & _ & Ee & Ew & _).
    rewrite Ee, Ew, map_app, He, Hw, <- map_app. now apply NoDup_map_injective.
Qed.

(** ** How a session ends *)

(** Where the browser is left, and which fault a throwing session
    reports. *)
Lemma session_exit nanoid clock config br :
  exists o w',
    session nanoid clock config br = (o, w')
    /\ (st_live w' = true -> cleanupFault br <> None)
    /\ (forall e, o = Throw e ->
          acquire br = LaunchFault e \/ acquire br = ContextFault e
          \/ acquire br = PageFault e
          \/ (acquire br = Acquired /\ closeFault br = Some e)).
Proof.
  destruct br as [acq navS nav setS stl chkS chk cloS cloF cleF].
  unfold_session.
  destruct acq as [msg | msg | msg | ].
  - do 2 eexists. split; [reflexivity|]. simpl. split; [discriminate|].
    intros e [= <-]. auto.
  - destruct cleF; do 2 eexists; (split; [reflexivity|]); simpl;
      (split; [discriminate|]); intros e [= <-]; auto.
  - destruct cleF; do 2 eexists; (split; [reflexivity|]); simpl;
      (split; [discriminate|]); intros e [= <-]; auto.
  - run_emit. destruct nav as [navError|].
    + run_emit. destruct cloF as [fault|].
      * browser_assigned.
        destruct cleF; do 2 eexists; (split; [reflexivity|]); simpl;
          (split; [discriminate|]); intros e [= <-]; auto.
      * do 2 eexists. split; [reflexivity|]. simpl. split; discriminate.
    + run_emit. destruct stl as [msg|]; run_emit;
        destruct chk as [msg' | | [|]]; cbn [negb]; run_emit;
        (destruct cloF as [fault|];
         [ browser_assigned;
           destruct cleF; do 2 eexists; (split; [reflexivity|]); simpl;
           (split; [discriminate|]); intros e [= <-]; auto
         | do 2 eexists; (split; [reflexivity|]); simpl; split; discriminate ]).
Qed.

(** X3.  However a session ends, it leaves no browser running, unless the
    clean-up close of the outer catch itself fails. *)
Theorem browser_released_unless_cleanup_fails
    (nanoid : nat -> jstring) (clock : nat -> Z)
    (config : RuntimeMonitorConfig) (br : Browser) :
  cleanupFault br = None ->
  st_live (snd (session nanoid clock config br)) = false.
Proof.
  intros Hc.
  destruct (session_exit nanoid clock config br) as (o & w' & E & Hl & _).
  rewrite E. simpl. destruct (st_live w'); [|reflexivity].
  exfalso. apply Hl; [reflexivity | exact Hc].
Qed.

(** X4.  A session that throws reports the fault it ran into: the one of
    browser acquisition, or the one of the close on the main path.  A
    failure of the clean-up close is never what the caller sees. *)
Theorem thrown_fault_is_the_original_one
    (nanoid : nat -> jstring) (clock : nat -> Z)
    (config : RuntimeMonitorConfig) (br : Browser)
    (e : jstring) (w' : World) :
  session nanoid clock config br = (Throw e, w') ->
  acquire br = LaunchFault e \/ acquire br = ContextFault e
  \/ acquire br = PageFault e
  \/ (acquire br = Acquired /\ closeFault br = Some e).
Proof.
  intros H.
  destruct (session_exit nanoid clock config br) as (o & w2 & E & _ & Ht).
  rewrite E in H. inv H. apply Ht. reflexivity.
Qed.

(** X5.  The settle wait and the content check are best effort: a
    rejected wait changes nothing, and a content check that throws or
    finds no root element counts as a root without children. *)
Theorem best_effort_steps_are_swallowed
    (nanoid : nat -> jstring) (clock : nat -> Z)
    (config : RuntimeMonitorConfig) (br : Browser)
    (setS : list Signal) (stl : option jstring)
    (chkS : list Signal) (chk : Evaluated) :
  session nanoid clock config (with_rest br setS stl chkS chk)
  = session nanoid clock config
      (with_rest br setS None chkS (EvalBool (hasContent_of chk))).
Proof.
  destruct br as [acq navS nav setS0 stl0 chkS0 chk0 cloS cloF cleF].
  unfold with_rest. unfold_session.
  destruct acq as [msg | msg | msg | ]; try reflexivity.
  run_emit. destruct nav as [navError|]; [reflexivity|].
  run_emit. destruct stl as [msg|]; run_emit;
    destruct chk as [msg' | | b]; reflexivity.
Qed.

(** ** The content check *)

Lemma advisory_pushed nanoid clock config br :
  navigation br = None ->
  hasContent_of (check br) = false ->
  exists o w',
    session nanoid clock config br = (o, w')
    /\ forall r, o = Ok r ->
         exists e, In e (warnings r)
                   /\ type e = ConsoleWarning /\ severity e = Warning
                   /\ message e = lit "React root is empty - page may not have rendered".
Proof.
  destruct br as [acq navS nav setS stl chkS chk cloS cloF cleF]. simpl.
  intros -> Hc. unfold_session.
  destruct acq as [msg | msg | msg | ].
  - do 2 eexists. split; [reflexivity|]. intros r [=].
  - destruct cleF; do 2 eexists; (split; [reflexivity|]); intros r [=].
  - destruct cleF; do 2 eexists; (split; [reflexivity|]); intros r [=].
  - run_emit. run_emit.
    destruct stl as [msg|]; run_emit;
      (destruct chk as [msg' | | [|]]; try discriminate Hc); cbn [negb]; run_emit;
      (destruct cloF as [fault|];
       [ browser_assigned;
         destruct cleF; do 2 eexists; (split; [reflexivity|]); intros r [=]
       | do 2 eexists; (split; [reflexivity|]); intros r [= <-]; simpl;
         match goal with
         | G : grows {| st_errors := _; st_warnings := _ ++ [?a]; st_browser := _;
                        st_live := _; st_ids := _; st_ticks := _ |} _ |- _ =>
             exists a; destruct G as (_ & (ws & -> & _) & _)
         end;
         simpl; split; [rewrite !in_app_iff; simpl; auto | repeat split] ]).
Qed.

(** X6.  In a result with [success] true, whenever the content check did
    not find a root element with a child (it returned false or null, or
    threw), the warnings hold the advisory that the React root is empty;
    this does not depend on the allow-list. *)
Theorem empty_root_is_reported
    (nanoid : nat -> jstring) (clock : nat -> Z)
    (config : RuntimeMonitorConfig) (br : Browser)
    (r : RuntimeMonitorResult) (w' : World) :
  session nanoid clock config br = (Ok r, w') ->
  success r = true ->
  hasContent_of (check br) = false ->
  exists e, In e (warnings r)
            /\ type e = ConsoleWarning /\ severity e = Warning
            /\ message e = lit "React root is empty - page may not have rendered".
Proof.
  intros H Hs Hc.
  assert (Hn : navigation br = None).
  { pose proof H as H'. apply returned in H' as (_ & _ & _ & _ & _ & [Hf | Hok]).
    - destruct Hf as (navError & i & ts & d & _ & ->). discriminate Hs.
    - apply Hok. }
  destruct (advisory_pushed nanoid clock config br Hn Hc) as (o & w2 & E & Ha).
  rewrite E in H. inv H. apply Ha. reflexivity.
Qed.

(** ** Signals that are not findings *)

Lemma benign_dispatch nanoid clock errorTypes sg w :
  benign sg = true -> dispatch nanoid clock errorTypes sg w = (Ok tt, w).
Proof.
  destruct sg as [msgType text | msg stk | status rurl | rurl errorText];
    unfold benign, dispatch; intros H; try discriminate H.
  - apply andb_true_iff in H as [H1 H2]. apply negb_true_iff in H1, H2.
    unfold onConsole. rewrite H1, H2. reflexivity.
  - apply Z.ltb_lt in H. unfold onResponse.
    replace (status =? 404)%Z with false by (symmetry; apply Z.eqb_neq; lia).
    replace (500 <=? status)%Z with false by (symmetry; apply Z.leb_gt; lia).
    replace (400 <=? status)%Z with false by (symmetry; apply Z.leb_gt; lia).
    reflexivity.
Qed.

Lemma benign_emit nanoid clock errorTypes sgs : forall w,
  forallb benign sgs = true -> emit nanoid clock errorTypes sgs w = (Ok tt, w).
Proof.
  induction sgs as [|sg sgs IH]; intros w H; simpl in *; [reflexivity|].
  apply andb_true_iff in H as [H1 H2].
  unfold bind. rewrite (benign_dispatch nanoid clock errorTypes sg w H1). apply IH, H2.
Qed.

(** X7.  A page that loads, shows content, and emits nothing but console
    output below warning level and responses below 400 gets a clean
    report: [success] true, [hasErrors] false, no errors, no warnings,
    and a summary of zeros, whatever the allow-list. *)
Theorem quiet_page_gets_a_clean_report
    (nanoid : nat -> jstring) (clock : nat -> Z)
    (config : RuntimeMonitorConfig) (br : Browser) :
  acquire br = Acquired ->
  navigation br = None ->
  check br = EvalBool true ->
  closeFault br = None ->
  forallb benign (navSignals br ++ settleSignals br ++ checkSignals br ++ closeSignals br)
  = true ->
  exists d w',
    session nanoid clock config br
    = (Ok {| success := true;
             sandboxId := Config.sandboxId config;
             hasErrors := false;
             errors := [];
             warnings := [];
             summary := {| totalErrors := 0; consoleErrors := 0;
                           networkErrors := 0; exceptions := 0 |};
             monitorDuration := d;
             monitoringError := None |}, w').
Proof.
  destruct br as [acq navS nav setS stl chkS chk cloS cloF cleF]. simpl.
  intros -> -> -> -> Hb.
  rewrite !forallb_app in Hb.
  apply andb_true_iff in Hb as [B1 Hb]. apply andb_true_iff in Hb as [B2 Hb].
  apply andb_true_iff in Hb as [B3 B4].
  unfold_session.
  rewrite (benign_emit nanoid clock _ navS _ B1).
  cbn [st_errors st_warnings st_browser st_live st_ids st_ticks].
  rewrite (benign_emit nanoid clock _ setS _ B2).
  destruct stl;
    cbn [st_errors st_warnings st_browser st_live st_ids st_ticks];
    rewrite (benign_emit nanoid clock _ chkS _ B3);
    cbn [st_errors st_warnings st_browser st_live st_ids st_ticks negb];
    rewrite (benign_emit nanoid clock _ cloS _ B4);
    cbn [st_errors st_warnings st_browser st_live st_ids st_ticks];
    do 2 eexists; reflexivity.
Qed.

(* ================================================================== *)
(** * Further properties of source-location extraction *)

Lemma split_at_first {A} (y : A) u : forall u' v v',
  ~ In y u -> ~ In y u' -> u ++ y :: v = u' ++ y :: v' -> u = u' /\ v = v'.
Proof.
  induction u as [|a u IH]; intros [|a' u'] v v' Hu Hu' E; simpl in *.
  - inv E. auto.
  - inv E. exfalso. apply Hu'. now left.
  - inv E. exfalso. apply Hu. now left.
  - inv E. destruct (IH u' v v') as [-> ->]; auto.
Qed.

Lemma split_at_last {A} (y : A) u u' v v' :
  ~ In y v -> ~ In y v' -> u ++ y :: v = u' ++ y :: v' -> u = u' /\ v = v'.
Proof.
  intros Hv Hv' E. apply (f_equal (@rev A)) in E.
  rewrite !rev_app_distr in E. simpl in E. rewrite <- !app_assoc in E. simpl in E.
  apply split_at_first in E as [E1 E2]; try (rewrite <- in_rev; assumption).
  apply (f_equal (@rev A)) in E1, E2. rewrite !rev_involutive in E1, E2. auto.
Qed.

Lemma class_excludes (p : char -> bool) y s :
  p y = false -> forallb p s = true -> ~ In y s.
Proof.
  intros Hy H Hin. rewrite forallb_forall in H. apply H in Hin. congruence.
Qed.

(** A parenthesized location is read in one way only. *)
Lemma paren_location_unique f l c f' l' c' post post' :
  forallb notRParen f = true -> forallb isDigit l = true -> forallb isDigit c = true ->
  forallb notRParen f' = true -> forallb isDigit l' = true -> forallb isDigit c' = true ->
  f ++ lit ":" ++ l ++ lit ":" ++ c ++ lit ")" ++ post
  = f' ++ lit ":" ++ l' ++ lit ":" ++ c' ++ lit ")" ++ post' ->
  f = f' /\ l = l' /\ c = c'.
Proof.
  intros Hf Hl Hc Hf' Hl' Hc' E.
  assert (D : forall s, forallb isDigit s = true -> forallb notRParen s = true).
  { intros s H. rewrite forallb_forall in *. intros x Hx. specialize (H x Hx).
    unfold isDigit in H. apply andb_true_iff in H as [H1 H2].
    apply N.leb_le in H1. unfold notRParen, chr. apply negb_true_iff, N.eqb_neq.
    simpl. lia. }
  assert (NP : forall f0 l0 c0,
             forallb notRParen f0 = true -> forallb isDigit l0 = true ->
             forallb isDigit c0 = true ->
             ~ In 41%N (f0 ++ lit ":" ++ l0 ++ lit ":" ++ c0)).
  { intros f0 l0 c0 H1 H2 H3. apply (class_excludes notRParen); [reflexivity|].
    rewrite !forallb_app, H1, (D _ H2), (D _ H3). reflexivity. }
  assert (E' : (f ++ lit ":" ++ l ++ lit ":" ++ c) ++ 41%N :: post
               = (f' ++ lit ":" ++ l' ++ lit ":" ++ c') ++ 41%N :: post').
  { rewrite <- !app_assoc. exact E. }
  apply split_at_first in E' as [E1 _]; [|now apply NP|now apply NP].
  assert (E2 : (f ++ lit ":" ++ l) ++ 58%N :: c = (f' ++ lit ":" ++ l') ++ 58%N :: c').
  { rewrite <- !app_assoc. exact E1. }
  apply split_at_last in E2 as [E2 Ec];
    try (apply (class_excludes isDigit); [reflexivity | assumption]).
  apply (split_at_last 58%N) in E2 as [Ef El];
    try (apply (class_excludes isDigit); [reflexivity | assumption]).
  auto.
Qed.

Lemma exec_paren_skips pre s :
  forallb (fun x => negb (chr "(" x)) pre = true ->
  s <> [] ->
  exec parenPattern (pre ++ s) = exec parenPattern s.
Proof.
  intros H Hs. induction pre as [|x pre IH]; [reflexivity|].
  simpl in H. apply andb_true_iff in H as [Hx H].
  apply negb_true_iff in Hx.
  change ((x :: pre) ++ s) with (x :: (pre ++ s)).
  unfold exec; fold exec. unfold parenPattern at 1. cbn [m]. rewrite Hx.
  apply IH, H.
Qed.

(** X8.  A stack frame is read whole: when nothing before the frame opens
    a parenthesis, the text [(f:l:c)], with [f] free of [)] and [l], [c]
    runs of digits, is parsed to file [f], line [l] and column [c].  The
    file may itself contain colons and digits, as a URL with a port
    does. *)
Theorem parseErrorSource_reads_the_frame
    (pre f l c post : jstring) :
  forallb (fun x => negb (chr "(" x)) pre = true ->
  f <> [] -> forallb notRParen f = true ->
  l <> [] -> forallb isDigit l = true ->
  c <> [] -> forallb isDigit c = true ->
  parseErrorSource
    (pre ++ lit "(" ++ f ++ lit ":" ++ l ++ lit ":" ++ c ++ lit ")" ++ post)
  = Some {| file := f; line := Some (Num (decimal l));
            column := Some (Num (decimal c)) |}.
Proof.
  intros Hpre Hf Hfa Hl Hla Hc Hca.
  unfold parseErrorSource.
  rewrite exec_paren_skips; [|exact Hpre|discriminate].
  set (s := lit "(" ++ f ++ lit ":" ++ l ++ lit ":" ++ c ++ lit ")" ++ post).
  assert (Hm : m parenPattern s [] (fun _ cs0 => Some cs0) <> None).
  { subst s.
    replace (lit "(" ++ f ++ lit ":" ++ l ++ lit ":" ++ c ++ lit ")" ++ post)
      with ((lit "(" ++ f ++ lit ":" ++ l ++ lit ":" ++ c ++ lit ")") ++ post)
      by (rewrite <- !app_assoc; reflexivity).
    apply m_complete with (c := [f; l; c]); [|discriminate].
    apply paren_matches. exists f, l, c. repeat split; auto. }
  destruct (m parenPattern s [] (fun _ cs0 => Some cs0)) as [cs|] eqn:Em; [|congruence].
  assert (Ee : exec parenPattern s = Some cs).
  { subst s. simpl app. unfold exec; fold exec. simpl app in Em. rewrite Em. reflexivity. }
  rewrite Ee.
  apply m_sound in Em as (s1 & s2 & cs' & Es & M1 & Hk). inv Hk.
  apply paren_matches in M1 as (f' & l' & c' & -> & _ & Hfa' & _ & Hla' & _ & Hca' & ->).
  subst s. rewrite <- !app_assoc in Es. simpl in Es. inv Es.
  match goal with
  | E : _ = _ |- _ =>
      apply (paren_location_unique f l c f' l' c' post s2) in E as (-> & -> & ->); auto
  end.
  unfold group. simpl. rewrite !parseInt_digits; auto.
Qed.

(** X9.  A source, when there is one, is usable: its file is not empty
    (so it is truthy), its line is a number and not NaN, and its column
    is either absent or a number. *)
Theorem parsed_source_is_usable (text : jstring) (loc : SourceLoc) :
  parseErrorSource text = Some loc ->
  truthy (file loc) = true
  /\ (exists n, line loc = Some (Num n))
  /\ (column loc = None \/ exists k, column loc = Some (Num k)).
Proof.
  intros H. pose proof (parseErrorSource_cases text) as Hc. rewrite H in Hc.
  destruct Hc as [(f & l & c & HP & ->) | (_ & f & l & HS & ->)]; simpl.
  - destruct HP as (pre & post & _ & Hf & _).
    destruct f; [congruence|]. repeat split; eauto.
  - destruct HS as (pre & post & stem & _ & Hext & Hs & _).
    assert (Hf : f <> []).
    { destruct Hext as [-> | ->]; destruct stem; try congruence; discriminate. }
    destruct f; [congruence|]. repeat split; eauto.
Qed.

(** X10.  A text without a colon has no source, and neither has a text
    without a digit. *)
Theorem no_colon_or_no_digit_no_source (text : jstring) :
  ~ In 58%N text \/ forallb (fun x => negb (isDigit x)) text = true ->
  parseErrorSource text = None.
Proof.
  intros H. pose proof (parseErrorSource_cases text) as Hc.
  destruct (parseErrorSource text) as [loc|]; [exfalso | reflexivity].
  assert (K : exists pre l post, text = pre ++ 58%N :: l ++ post
                                 /\ l <> [] /\ forallb isDigit l = true).
  { destruct Hc as [(f & l & c & HP & _) | (_ & f & l & HS & _)].
    - destruct HP as (pre & post & -> & _ & _ & Hl & Hla & _).
      exists (pre ++ lit "(" ++ f), l, (lit ":" ++ c ++ lit ")" ++ post).
      rewrite <- !app_assoc. auto.
    - destruct HS as (pre & post & stem & -> & _ & _ & _ & Hl & Hla).
      exists (pre ++ f), l, post. rewrite <- !app_assoc. auto. }
  destruct K as (pre & l & post & -> & Hl & Hla).
  destruct H as [H | H].
  - apply H. apply in_or_app. right. left. reflexivity.
  - destruct l as [|d l]; [congruence|]. simpl in Hla.
    apply andb_true_iff in Hla as [Hd _].
    rewrite forallb_app in H. apply andb_true_iff in H as [_ H].
    cbn [forallb app] in H. rewrite Hd in H.
    cbn [negb andb] in H. rewrite andb_false_r in H. discriminate H.
Qed.

(* ================================================================== *)
(** * Further properties of the Fixer *)

(** ** The working set as a set *)

Lemma includes_In s x : includes s x = true <-> In x s.
Proof.
  unfold includes. rewrite existsb_exists. split.
  - intros (y & Hy & E). apply jstring_eqb_eq in E. now subst.
  - intros H. exists x. split; [exact H | apply jstring_eqb_refl].
Qed.

Lemma In_Set_add x s y : In y (Set_add x s) <-> y = x \/ In y s.
Proof.
  unfold Set_add. destruct (includes s x) eqn:E.
  - apply includes_In in E. split; [now right | intros [-> | H]; assumption].
  - rewrite in_app_iff. simpl. split; [intros [H | [<- | []]] | intros [-> | H]]; auto.
Qed.

Lemma Set_add_NoDup x s : NoDup s -> NoDup (Set_add x s).
Proof.
  intros H. unfold Set_add. destruct (includes s x) eqn:E; [exact H|].
  assert (Hx : ~ In x s) by (rewrite <- includes_In; congruence).
  eapply Permutation_NoDup; [apply Permutation_cons_append|]. now constructor.
Qed.

Lemma Set_add_extends x s : exists t, Set_add x s = s ++ t.
Proof.
  unfold Set_add. destruct (includes s x); [exists []; now rewrite app_nil_r | now exists [x]].
Qed.

Lemma Set_new_from xs : forall s0,
  NoDup s0 ->
  NoDup (fold_left (fun s x => Set_add x s) xs s0)
  /\ (forall y, In y (fold_left (fun s x => Set_add x s) xs s0) <-> In y s0 \/ In y xs).
Proof.
  induction xs as [|x xs IH]; intros s0 H0; simpl.
  - split; [exact H0 | intros y; tauto].
  - destruct (IH (Set_add x s0) (Set_add_NoDup x H0)) as [Hn Hi].
    split; [exact Hn|]. intros y. rewrite Hi, In_Set_add. intuition (subst; auto).
Qed.

(** The path an error contributes to the working set, if any. *)
Lemma In_addErrorFile s e y :
  In y (addErrorFile s e)
  <-> In y s
      \/ exists src, source e = Some src /\ truthy (file src) = true
                     /\ y = normalizePath (file src).
Proof.
  unfold addErrorFile. destruct (source e) as [src|].
  - destruct (truthy (file src)) eqn:T.
    + rewrite In_Set_add. split.
      * intros [-> | H]; [right; exists src; auto | now left].
      * intros [H | (src' & [= <-] & _ & ->)]; auto.
    + split; [now left | intros [H | (src' & [= <-] & T' & _)]; [exact H | congruence]].
  - split; [now left | intros [H | (src' & [=] & _)]; exact H].
Qed.

Lemma addErrorFile_NoDup s e : NoDup s -> NoDup (addErrorFile s e).
Proof.
  unfold addErrorFile. intros H. destruct (source e) as [src|]; [|exact H].
  destruct (truthy (file src)); [now apply Set_add_NoDup | exact H].
Qed.

Lemma addErrorFile_extends s e : exists t, addErrorFile s e = s ++ t.
Proof.
  unfold addErrorFile. destruct (source e) as [src|]; [|exists []; now rewrite app_nil_r].
  destruct (truthy (file src)); [apply Set_add_extends | exists []; now rewrite app_nil_r].
Qed.

Lemma fold_addErrorFile errors : forall s,
  NoDup s ->
  NoDup (fold_left addErrorFile errors s)
  /\ (forall y, In y (fold_left addErrorFile errors s)
                <-> In y s
                    \/ exists e src, In e errors /\ source e = Some src
                                     /\ truthy (file src) = true
                                     /\ y = normalizePath (file src))
  /\ exists t, fold_left addErrorFile errors s = s ++ t.
Proof.
  induction errors as [|e errors IH]; intros s Hs; simpl.
  - split; [exact Hs|]. split; [|exists []; now rewrite app_nil_r].
    intros y. split; [now left | intros [H | (e & src & [] & _)]; exact H].
  - destruct (IH (addErrorFile s e) (addErrorFile_NoDup e Hs)) as (Hn & Hi & (t & Ht)).
    split; [exact Hn|]. split.
    + intros y. rewrite Hi, In_addErrorFile. split.
      * intros [[H | (src & S1 & S2 & S3)] | (e' & src & H1 & H2)]; auto.
        -- right. exists e, src. auto.
        -- right. exists e', src. tauto.
      * intros [H | (e' & src & [<- | H1] & H2 & H3 & H4)]; auto.
        -- left. right. exists src. auto.
        -- right. exists e', src. auto.
    + destruct (addErrorFile_extends s e) as (t0 & E0).
      exists (t0 ++ t). rewrite Ht, E0, app_assoc. reflexivity.
Qed.

Lemma focus_set_NoDup focus s0 :
  NoDup s0 -> NoDup (Set_add (lit "src/main.jsx")
                       (Set_add (lit "src/index.css")
                          (Set_add (lit "index.html")
                             (Set_add (lit "package.json")
                                (fold_left (fun s x => Set_add x s) focus s0))))).
Proof.
  intros H. repeat apply Set_add_NoDup. now apply Set_new_from.
Qed.

(** X11.  The working file set holds no path twice, even when the focus
    files repeat a path, name an always-relevant file, or several errors
    point at the same file. *)
Theorem working_set_has_no_duplicates
    (errors : list RuntimeError) (focusFiles : option (list jstring)) :
  NoDup (relevantFiles errors focusFiles).
Proof.
  unfold relevantFiles, Set_new. apply fold_addErrorFile.
  apply focus_set_NoDup. constructor.
Qed.

(** X12.  The working file set holds exactly the focus files, the four
    always-relevant files, and the normalized source file of every error
    that has a non-empty one; nothing else gets in. *)
Theorem working_set_members
    (errors : list RuntimeError) (focusFiles : option (list jstring)) (p : jstring) :
  In p (relevantFiles errors focusFiles)
  <-> In p (match focusFiles with Some fs => fs | None => [] end)
      \/ In p alwaysRelevant
      \/ exists e src, In e errors /\ source e = Some src
                       /\ truthy (file src) = true
                       /\ p = normalizePath (file src).
Proof.
  unfold relevantFiles, Set_new.
  set (focus := match focusFiles with Some fs => fs | None => [] end).
  destruct (fold_addErrorFile errors
              (focus_set_NoDup focus (NoDup_nil jstring))) as (_ & Hi & _).
  rewrite Hi, !In_Set_add.
  destruct (Set_new_from focus (NoDup_nil jstring)) as [_ Hf]. rewrite Hf.
  unfold alwaysRelevant. simpl. intuition (subst; auto).
Qed.

(** X13.  Errors only append to the working set: the set starts with the
    set built from the focus files and the always-relevant files alone,
    in that order, and a longer error list extends the set of a shorter
    one. *)
Theorem working_set_only_grows
    (errors more : list RuntimeError) (focusFiles : option (list jstring)) :
  exists rest,
    relevantFiles (errors ++ more) focusFiles = relevantFiles errors focusFiles ++ rest.
Proof.
  unfold relevantFiles. rewrite fold_left_app.
  match goal with
  | |- context [fold_left addErrorFile more ?s] =>
      assert (Hs : NoDup s);
      [ apply fold_addErrorFile, focus_set_NoDup; constructor
      | destruct (fold_addErrorFile more Hs) as (_ & _ & (t & Ht)); exists t; exact Ht ]
  end.
Qed.

(** ** The files that are read *)

(** X14.  The file context holds exactly the files of the working set
    that the provider can read, each with the content read, in the order
    of the set and without repetition; a file that cannot be read is
    skipped and nothing else is lost. *)
Theorem file_context_is_the_readable_part
    (readFile : jstring -> option jstring) (files : StringSet) :
  map fst (fileContexts readFile files)
  = filter (fun filePath => present (readFile filePath)) files
  /\ (forall filePath content,
        In (filePath, content) (fileContexts readFile files)
        <-> In filePath files /\ readFile filePath = Some content)
  /\ (NoDup files -> NoDup (map fst (fileContexts readFile files))).
Proof.
  assert (Hm : map fst (fileContexts readFile files)
               = filter (fun filePath => present (readFile filePath)) files).
  { unfold fileContexts, present. induction files as [|x files IH]; simpl; [reflexivity|].
    rewrite map_app, IH. destruct (readFile x); reflexivity. }
  split; [exact Hm|]. split.
  - intros filePath content. unfold fileContexts. rewrite in_flat_map. split.
    + intros (x & Hx & Hin). destruct (readFile x) as [c|] eqn:E; [|destruct Hin].
      destruct Hin as [[= <- <-] | []]. auto.
    + intros [Hx E]. exists filePath. rewrite E. split; [exact Hx | now left].
  - intros Hn. rewrite Hm. now apply NoDup_filter.
Qed.

(** ** Normalization *)

(** X15.  Normalization keeps the tail of a path: it drops at most three
    leading code units (a [/], then a [./]) and may put [src/] in front,
    nothing more.  A path that ends in [.jsx] or [.tsx] after
    normalization lies under [src/]. *)
Theorem normalizePath_shape (p : jstring) :
  (exists k, k <= 3
             /\ (normalizePath p = skipn k p
                 \/ normalizePath p = lit "src/" ++ skipn k p))
  /\ (endsWith (normalizePath p) (lit ".jsx") = true
      \/ endsWith (normalizePath p) (lit ".tsx") = true ->
      startsWith (normalizePath p) (lit "src/") = true).
Proof.
  split.
  - unfold normalizePath, slice.
    match goal with
    | |- context [negb (startsWith ?p2 _)] =>
        assert (Hk : exists k, k <= 3 /\ p2 = skipn k p)
    end.
    { destruct (startsWith p (lit "/")).
      - destruct (startsWith (skipn 1 p) (lit "./")).
        + exists 3. split; [lia | now rewrite skipn_skipn].
        + exists 1. split; [lia | reflexivity].
      - destruct (startsWith p (lit "./")).
        + exists 2. split; [lia | reflexivity].
        + exists 0. split; [lia | reflexivity]. }
    destruct Hk as (k & Hk & E). rewrite E.
    exists k. split; [exact Hk|].
    destruct (negb _ && _); auto.
  - intros H. destruct (normalizePath_settled p) as [Hs | [Hj Ht]]; [exact Hs|].
    destruct H; congruence.
Qed.

(* ================================================================== *)
(** * Properties of the monitor route *)

(** [monitorSandbox] from any state: what it returns or throws. *)
Lemma monitorSandbox_outcome nanoid clock config br w :
  exists o w',
    monitorSandbox nanoid clock config br w = (o, w')
    /\ match o with
       | Throw e =>
           acquire br = LaunchFault e \/ acquire br = ContextFault e
           \/ acquire br = PageFault e
           \/ (acquire br = Acquired /\ closeFault br = Some e)
       | Ok r =>
           acquire br = Acquired /\ closeFault br = None
           /\ monitoringError r = None
           /\ sandboxId r = Config.sandboxId config
           /\ match navigation br with
              | Some _ => success r = false /\ hasErrors r = true
              | None => success r = true
              end
       end.
Proof.
  destruct br as [acq navS nav setS stl chkS chk cloS cloF cleF].
  unfold monitorSandbox.
  cbv [bind try_catch awaiting ret throw when settled evaluated browser_close
       acquire_page set_live set_browser get_errors get_warnings get_browser
       fresh_id Date_now push_warning
       acquire navSignals navigation settleSignals settle checkSignals check
       closeSignals closeFault cleanupFault];
    cbn [st_errors st_warnings st_browser st_live st_ids st_ticks].
  destruct acq as [msg | msg | msg | ].
  - destruct (st_browser w); [destruct cleF|]; do 2 eexists;
      (split; [reflexivity|]); simpl; auto 8.
  - destruct cleF; do 2 eexists; (split; [reflexivity|]); simpl; auto 8.
  - destruct cleF; do 2 eexists; (split; [reflexivity|]); simpl; auto 8.
  - run_emit. destruct nav as [navError|].
    + run_emit. destruct cloF as [fault|].
      * browser_assigned.
        destruct cleF; do 2 eexists; (split; [reflexivity|]); simpl; auto 8.
      * do 2 eexists. split; [reflexivity|]. simpl. auto 8.
    + run_emit. destruct stl as [msg|]; run_emit;
        destruct chk as [msg' | | [|]]; cbn [negb]; run_emit;
        (destruct cloF as [fault|];
         [ browser_assigned;
           destruct cleF; do 2 eexists; (split; [reflexivity|]); simpl; auto 8
         | do 2 eexists; (split; [reflexivity|]); simpl; auto 8 ]).
Qed.

Section MonitorRouteFacts.
Variable nanoid : nat -> jstring.
Variable clock : nat -> Z.
Variable monitorTimeout : Z.
Variable configuredErrorTypes : option (list jstring).

Ltac unfold_POST :=
  unfold POST; cbv [bind try_catch ret Date_now of_outcome];
  cbn [st_errors st_warnings st_browser st_live st_ids st_ticks].


(** X17.  A request that cannot be monitored starts no browser, whatever
    the browser would have done: no id is drawn and the state of the
    session is untouched but for the clock.  A body other than [null]
    that lacks the sandbox url or the sandbox id costs one clock reading
    and is answered with 400; a body that is [null] costs two, one at the
    start and one in the handler of the fault, and is answered with 500
    and the failure envelope of the destructuring fault. *)
Theorem incomplete_request_starts_no_browser
    (body : JsonBody Request.t) (br : Browser) (w : World) :
  (forall json,
     json_or_empty body = Ok json ->
     missing (field json Request.sandboxUrl) || missing (field json Request.sandboxId) = true ->
     POST nanoid clock monitorTimeout configuredErrorTypes body br w
     = (Ok {| NextResponse.status := 400;
              NextResponse.body :=
                Rejected (lit "Missing required fields: sandboxUrl and sandboxId") |},
        snd (Date_now clock w)))
  /\ (forall fault,
        body = JsonNull fault ->
        POST nanoid clock monitorTimeout configuredErrorTypes body br w
        = (Ok {| NextResponse.status := 500;
                 NextResponse.body :=
                   Report (failure_envelope
                             (clock (S (st_ticks w)) - clock (st_ticks w))%Z fault) |},
           snd (Date_now clock (snd (Date_now clock w))))).
Proof.
  split.
  - intros json Hb Hm. unfold_POST. rewrite Hb, Hm. reflexivity.
  - intros fault ->. unfold_POST. reflexivity.
Qed.

(** X18.  A target that cannot be reached is a finding, not a failure of
    the route: when the request is complete, the browser is acquired,
    navigation fails and the browser closes, the answer is 200 and
    carries a report with [success] false, [hasErrors] true and no
    [monitoringError]. *)
Theorem navigation_failure_is_answered_with_200
    (body : JsonBody Request.t) (json : option Request.t)
    (br : Browser) (w : World) (navError : jstring) :
  json_or_empty body = Ok json ->
  missing (field json Request.sandboxUrl) || missing (field json Request.sandboxId) = false ->
  acquire br = Acquired ->
  navigation br = Some navError ->
  closeFault br = None ->
  exists r w',
    POST nanoid clock monitorTimeout configuredErrorTypes body br w
    = (Ok {| NextResponse.status := 200; NextResponse.body := Report r |}, w')
    /\ success r = false /\ hasErrors r = true /\ monitoringError r = None.
Proof.
  intros Hb Hm Ha Hn Hc. unfold_POST. rewrite Hb, Hm.
  match goal with
  | |- context [monitorSandbox nanoid clock ?cfg br ?w1] =>
      destruct (monitorSandbox_outcome nanoid clock cfg br w1) as (o & w2 & E & Ho);
      rewrite E
  end.
  destruct o as [r | e].
  - destruct Ho as (_ & _ & He & _ & Hs). rewrite Hn in Hs. destruct Hs as [Hs Hh].
    do 2 eexists. split; [reflexivity|]. auto.
  - exfalso. rewrite Ha, Hc in Ho.
    destruct Ho as [Ho | [Ho | [Ho | [_ Ho]]]]; discriminate Ho.
Qed.
End MonitorRouteFacts.

(* ================================================================== *)
(** * What a report counts *)

Lemma count_app {A} (f : A -> bool) l1 l2 : count f (l1 ++ l2) = count f l1 + count f l2.
Proof. unfold count. now rewrite filter_app, length_app. Qed.

Lemma count_positive {A} (f : A -> bool) l :
  0 < count f l <-> exists x, In x l /\ f x = true.
Proof.
  unfold count. split.
  - intros H. destruct (filter f l) as [|x t] eqn:E; [simpl in H; lia|].
    exists x. apply filter_In. rewrite E. now left.
  - intros (x & Hx & Hf). assert (Hin : In x (filter f l)) by (apply filter_In; auto).
    destruct (filter f l); [destruct Hin | simpl; lia].
Qed.

Lemma error_is_not_warning msgType :
  jstring_eqb msgType (lit "error") = true ->
  jstring_eqb msgType (lit "warning") = false.
Proof.
  intros H. apply jstring_eqb_eq in H. subst. reflexivity.
Qed.

Ltac solve_adds :=
  unfold adds; cbn [st_errors st_warnings]; rewrite ?length_app; simpl; lia.

Section Counting.
Variable nanoid : nat -> jstring.
Variable clock : nat -> Z.
Variable errorTypes : option (list jstring).

(** One listener call adds one entry to the errors, or one to the
    warnings, or nothing, as [records_error] and [records_warning] say. *)
Lemma dispatch_counts sg w :
  exists w',
    dispatch nanoid clock errorTypes sg w = (Ok tt, w')
    /\ grows w w'
    /\ adds (if records_error errorTypes sg then 1 else 0)
            (if records_warning errorTypes sg then 1 else 0) w w'.
Proof.
  destruct sg as [msgType text | msg stk | status rurl | rurl errorText];
    unfold dispatch, onConsole, onPageError, onResponse, onRequestFailed,
      records_error, records_warning.
  - destruct (jstring_eqb msgType (lit "error")) eqn:Ee.
    + rewrite (error_is_not_warning _ Ee).
      destruct (shouldCapture errorTypes (lit "console-error")); cbn [andb];
        eexists; (split; [reflexivity | split; [solve_grows | solve_adds]]).
    + cbn [andb].
      destruct (jstring_eqb msgType (lit "warning") && _);
        eexists; (split; [reflexivity | split; [solve_grows | solve_adds]]).
  - destruct (shouldCapture errorTypes _);
      eexists; (split; [reflexivity | split; [solve_grows | solve_adds]]).
  - destruct (Z.eqb_spec status 404) as [-> | Hne].
    + change (500 <=? 404)%Z with false. change (404 <? 500)%Z with true.
      change (400 <=? 404)%Z with true. cbn [andb orb negb].
      destruct (shouldCapture errorTypes (lit "network-404")); cbn [andb orb];
        eexists; (split; [reflexivity | split; [solve_grows | solve_adds]]).
    + cbn [andb orb negb].
      destruct (Z.leb_spec 500 status) as [H5 | H5].
      * replace (status <? 500)%Z with false by (symmetry; apply Z.ltb_ge; lia).
        rewrite !andb_false_r. cbn [andb].
        destruct (shouldCapture errorTypes (lit "network-500")); cbn [andb];
          eexists; (split; [reflexivity | split; [solve_grows | solve_adds]]).
      * replace (status <? 500)%Z with true by (symmetry; apply Z.ltb_lt; lia).
        cbn [andb]. rewrite andb_true_r.
        destruct (400 <=? status)%Z;
          eexists; (split; [reflexivity | split; [solve_grows | solve_adds]]).
  - eexists. split; [reflexivity | split; [solve_grows | solve_adds]].
Qed.

Lemma emit_counts sgs : forall w,
  exists w',
    emit nanoid clock errorTypes sgs w = (Ok tt, w')
    /\ grows w w'
    /\ adds (count (records_error errorTypes) sgs)
            (count (records_warning errorTypes) sgs) w w'.
Proof.
  induction sgs as [|sg sgs IH]; intros w; simpl.
  - exists w. split; [reflexivity|]. split; [apply grows_refl|].
    unfold adds, count. simpl. lia.
  - destruct (dispatch_counts sg w) as (w1 & E1 & G1 & A1).
    destruct (IH w1) as (w2 & E2 & G2 & A2).
    exists w2. unfold bind. rewrite E1, E2. split; [reflexivity|].
    split; [eapply grows_trans; eassumption|].
    unfold adds, count in *. simpl.
    destruct (records_error errorTypes sg), (records_warning errorTypes sg);
      simpl; lia.
Qed.
End Counting.

Ltac run_emit_counts :=
  match goal with
  | |- context [emit ?a ?b ?c ?d ?w] =>
      let w' := fresh "w" in
      let E := fresh "E" in
      let G := fresh "G" in
      let A := fresh "A" in
      destruct (emit_counts a b c d w) as (w' & E & G & A); rewrite E; clear E;
      unfold adds in A;
      cbn [st_errors st_warnings st_browser st_live st_ids st_ticks] in *
  end.

(** A session that gets past navigation and closes the browser returns
    as many errors and warnings as the listeners recorded, plus the
    advisory of the content check. *)
Lemma session_counts nanoid clock config br :
  acquire br = Acquired -> navigation br = None -> closeFault br = None ->
  exists r w',
    session nanoid clock config br = (Ok r, w')
    /\ length (errors r)
       = count (records_error (Config.errorTypes config)) (all_signals br)
    /\ length (warnings r)
       = count (records_warning (Config.errorTypes config)) (all_signals br)
         + (if hasContent_of (check br) then 0 else 1).
Proof.
  destruct br as [acq navS nav setS stl chkS chk cloS cloF cleF]. simpl.
  intros -> -> ->. unfold all_signals. simpl. rewrite !count_app.
  unfold_session.
  run_emit_counts. run_emit_counts.
  destruct stl as [msg|]; run_emit_counts;
    destruct chk as [msg' | | [|]]; cbn [negb hasContent_of]; run_emit_counts;
    do 2 eexists; (split; [reflexivity|]); simpl in *;
    rewrite ?length_app in *; simpl in *; lia.
Qed.

Lemma successful_session nanoid clock config br r w' :
  session nanoid clock config br = (Ok r, w') ->
  success r = true ->
  acquire br = Acquired /\ navigation br = None /\ closeFault br = None.
Proof.
  intros H Hs. apply returned in H as (_ & _ & Ha & Hc & _ & [Hf | Hok]).
  - destruct Hf as (navError & i & ts & d & _ & ->). discriminate Hs.
  - destruct Hok as (Hn & _). auto.
Qed.

(** X19.  In a result with [success] true, the errors are as many as the
    signals that the listeners record as errors (captured console errors,
    exceptions, 404s and responses of 500 or more, over all phases of the
    session up to the closing of the browser), the warnings as many as
    the signals recorded as warnings, plus one when the content check did
    not find content; [totalErrors] is the sum. *)
Theorem report_counts_the_recorded_signals
    (nanoid : nat -> jstring) (clock : nat -> Z)
    (config : RuntimeMonitorConfig) (br : Browser)
    (r : RuntimeMonitorResult) (w' : World) :
  session nanoid clock config br = (Ok r, w') ->
  success r = true ->
  length (errors r)
  = count (records_error (Config.errorTypes config)) (all_signals br)
  /\ length (warnings r)
     = count (records_warning (Config.errorTypes config)) (all_signals br)
       + (if hasContent_of (check br) then 0 else 1)
  /\ totalErrors (summary r)
     = count (records_error (Config.errorTypes config)) (all_signals br)
       + count (records_warning (Config.errorTypes config)) (all_signals br)
       + (if hasContent_of (check br) then 0 else 1).
Proof.
  intros H Hs.
  destruct (successful_session _ _ _ _ H Hs) as (Ha & Hn & Hc).
  destruct (session_counts nanoid clock config br Ha Hn Hc) as (r2 & w2 & E & He & Hw).
  rewrite E in H. inv H.
  split; [exact He|]. split; [exact Hw|].
  apply returned in E as (_ & _ & _ & _ & _ & [Hf | Hok]).
  - destruct Hf as (navError & i & ts & d & _ & ->). discriminate Hs.
  - destruct Hok as (_ & _ & _ & _ & _ & Hsum). rewrite Hsum. simpl. lia.
Qed.

(** X20.  In a result with [success] true, [hasErrors] is true exactly
    when some signal of the session is recorded as an error: a captured
    console error, a captured exception, a captured 404 or a captured
    response of 500 or more. *)
Theorem hasErrors_iff_an_error_signal_fired
    (nanoid : nat -> jstring) (clock : nat -> Z)
    (config : RuntimeMonitorConfig) (br : Browser)
    (r : RuntimeMonitorResult) (w' : World) :
  session nanoid clock config br = (Ok r, w') ->
  success r = true ->
  (hasErrors r = true
   <-> exists sg, In sg (all_signals br)
                  /\ records_error (Config.errorTypes config) sg = true).
Proof.
  intros H Hs.
  destruct (successful_session _ _ _ _ H Hs) as (Ha & Hn & Hc).
  destruct (session_counts nanoid clock config br Ha Hn Hc) as (r2 & w2 & E & He & _).
  rewrite E in H. inv H.
  rewrite <- count_positive, <- He.
  apply returned in E as (Hent & _ & _ & _ & _ & [Hf | Hok]).
  - destruct Hf as (navError & i & ts & d & _ & ->). discriminate Hs.
  - destruct Hok as (_ & _ & Herr & _ & Hh & _). rewrite Hh. rewrite <- Herr in Hent.
    assert (Hfil : filter isCritical (errors r) = errors r).
    { clear - Hent. induction (errors r) as [|e l IH]; simpl in *; [reflexivity|].
      apply andb_true_iff in Hent as [H1 H2].
      apply errorEntry_spec in H1 as (_ & _ & ->). now rewrite IH. }
    rewrite Hfil. apply Nat.ltb_lt.
Qed.

(* ================================================================== *)
(** * The further properties at concrete inputs *)

Lemma entries_carry_the_fields_of_their_type_witness :
  exists o w e,
    session demo_nanoid demo_clock demo_config page_loads = (o, w)
    /\ In e (st_errors w)
    /\ type e = ConsoleError
    /\ (url e <> None <-> isNetwork e = true).
Proof.
  do 3 eexists. split; [vm_compute; reflexivity|].
  split; [left; reflexivity|]. split; [reflexivity|].
  refine (proj1 (proj2 (@entries_carry_the_fields_of_their_type
                          demo_nanoid demo_clock demo_config page_loads _ _ _ _ _))).
  - vm_compute; reflexivity.
  - left. left. reflexivity.
Defined.

Lemma demo_nanoid_unary_injective a b :
  demo_nanoid_unary a = demo_nanoid_unary b -> a = b.
Proof.
  unfold demo_nanoid_unary. intros H. apply (f_equal (@length char)) in H.
  rewrite !repeat_length in H. lia.
Qed.

Lemma entry_ids_are_distinct_witness :
  exists r w,
    session demo_nanoid_unary demo_clock demo_config page_loads = (Ok r, w)
    /\ length (errors r ++ warnings r) = 4
    /\ NoDup (map id (errors r ++ warnings r)).
Proof.
  do 2 eexists. split; [vm_compute; reflexivity|]. split; [reflexivity|].
  refine (@entry_ids_are_distinct demo_nanoid_unary demo_clock demo_config page_loads
            _ _ demo_nanoid_unary_injective _).
  vm_compute; reflexivity.
Defined.

Lemma browser_released_unless_cleanup_fails_witness :
  cleanupFault page_unreachable_stuck = None
  /\ st_live (snd (session demo_nanoid demo_clock demo_config page_unreachable_stuck))
     = false.
Proof.
  split; [reflexivity|].
  exact (@browser_released_unless_cleanup_fails demo_nanoid demo_clock demo_config
           page_unreachable_stuck eq_refl).
Defined.

Lemma thrown_fault_is_the_original_one_witness :
  exists w,
    session demo_nanoid demo_clock demo_config page_no_context
    = (Throw (lit "Target page, context or browser has been closed"), w)
    /\ (acquire page_no_context
        = LaunchFault (lit "Target page, context or browser has been closed")
        \/ acquire page_no_context
           = ContextFault (lit "Target page, context or browser has been closed")
        \/ acquire page_no_context
           = PageFault (lit "Target page, context or browser has been closed")
        \/ (acquire page_no_context = Acquired
            /\ closeFault page_no_context
               = Some (lit "Target page, context or browser has been closed"))).
Proof.
  eexists. split; [vm_compute; reflexivity|].
  refine (@thrown_fault_is_the_original_one demo_nanoid demo_clock demo_config
            page_no_context _ _ _).
  vm_compute; reflexivity.
Defined.

Lemma empty_root_is_reported_witness :
  exists r w e,
    session demo_nanoid demo_clock demo_config_console_only page_warns = (Ok r, w)
    /\ success r = true
    /\ hasContent_of (check page_warns) = false
    /\ In e (warnings r)
    /\ type e = ConsoleWarning /\ severity e = Warning
    /\ message e = lit "React root is empty - page may not have rendered".
Proof.
  assert (H : exists r w,
             session demo_nanoid demo_clock demo_config_console_only page_warns
             = (Ok r, w) /\ success r = true).
  { do 2 eexists. split; [vm_compute; reflexivity | reflexivity]. }
  destruct H as (r & w & H & Hs).
  destruct (@empty_root_is_reported demo_nanoid demo_clock demo_config_console_only
              page_warns r w H Hs eq_refl) as (e & He).
  exists r, w, e. repeat split; try apply He; assumption.
Defined.

Lemma quiet_page_gets_a_clean_report_witness :
  forallb benign (navSignals page_quiet ++ settleSignals page_quiet
                  ++ checkSignals page_quiet ++ closeSignals page_quiet) = true
  /\ exists d w',
       session demo_nanoid demo_clock demo_config page_quiet
       = (Ok {| success := true;
                sandboxId := Config.sandboxId demo_config;
                hasErrors := false;
                errors := [];
                warnings := [];
                summary := {| totalErrors := 0; consoleErrors := 0;
                              networkErrors := 0; exceptions := 0 |};
                monitorDuration := d;
                monitoringError := None |}, w').
Proof.
  split; [reflexivity|].
  exact (@quiet_page_gets_a_clean_report demo_nanoid demo_clock demo_config page_quiet
           eq_refl eq_refl eq_refl eq_refl eq_refl).
Defined.

Lemma parseErrorSource_reads_the_frame_witness :
  parseErrorSource demo_frame
  = Some {| file := lit "http://localhost:5173/src/App.jsx";
            line := Some (Num 42); column := Some (Num 15) |}.
Proof.
  refine (@parseErrorSource_reads_the_frame
            (lit "at App ") (lit "http://localhost:5173/src/App.jsx")
            (lit "42") (lit "15") [] _ _ _ _ _ _ _);
    solve [reflexivity | discriminate].
Defined.

Lemma parsed_source_is_usable_witness :
  truthy (lit "http://localhost:5173/src/App.jsx") = true
  /\ (exists n, Some (Num 42) = Some (Num n))
  /\ (Some (Num 15) = @None number \/ exists k, Some (Num 15) = Some (Num k)).
Proof.
  exact (@parsed_source_is_usable demo_frame
           {| file := lit "http://localhost:5173/src/App.jsx";
              line := Some (Num 42); column := Some (Num 15) |}
           eq_refl).
Defined.

Lemma no_colon_or_no_digit_no_source_witness :
  forallb (fun x => negb (isDigit x)) (lit "x is not defined") = true
  /\ parseErrorSource (lit "x is not defined") = None.
Proof.
  split; [reflexivity|].
  apply (@no_colon_or_no_digit_no_source (lit "x is not defined")).
  right. reflexivity.
Defined.

Lemma file_context_is_the_readable_part_witness :
  NoDup alwaysRelevant
  /\ NoDup (map fst (fileContexts
                       (fun p => if jstring_eqb p (lit "index.html")
                                 then None else Some (lit "..."))
                       alwaysRelevant)).
Proof.
  assert (H : NoDup alwaysRelevant).
  { change (NoDup (relevantFiles [] None)).
    unfold relevantFiles, Set_new. apply fold_addErrorFile.
    apply focus_set_NoDup. constructor. }
  split; [exact H|].
  exact (proj2 (proj2 (@file_context_is_the_readable_part
                         (fun p => if jstring_eqb p (lit "index.html")
                                   then None else Some (lit "..."))
                         alwaysRelevant)) H).
Defined.

Lemma normalizePath_shape_witness :
  endsWith (normalizePath (lit "/./components/Card.tsx")) (lit ".tsx") = true
  /\ startsWith (normalizePath (lit "/./components/Card.tsx")) (lit "src/") = true.
Proof.
  split; [reflexivity|].
  apply (proj2 (@normalizePath_shape (lit "/./components/Card.tsx"))).
  right. reflexivity.
Defined.

Lemma incomplete_request_starts_no_browser_witness :
  missing (field (Some demo_request_no_id) Request.sandboxUrl)
  || missing (field (Some demo_request_no_id) Request.sandboxId) = true
  /\ POST demo_nanoid demo_clock 30000%Z None (JsonObject demo_request_no_id) page_loads
       world0
     = (Ok {| NextResponse.status := 400;
              NextResponse.body :=
                Rejected (lit "Missing required fields: sandboxUrl and sandboxId") |},
        snd (Date_now demo_clock world0))
  /\ POST demo_nanoid demo_clock 30000%Z None (JsonNull null_fault) page_loads world0
     = (Ok {| NextResponse.status := 500;
              NextResponse.body :=
                Report (failure_envelope (demo_clock 1 - demo_clock 0)%Z null_fault) |},
        snd (Date_now demo_clock (snd (Date_now demo_clock world0)))).
Proof.
  split; [reflexivity|]. split.
  - exact (proj1 (@incomplete_request_starts_no_browser demo_nanoid demo_clock 30000%Z None
                    (JsonObject demo_request_no_id) page_loads world0)
             (Some demo_request_no_id) eq_refl eq_refl).
  - exact (proj2 (@incomplete_request_starts_no_browser demo_nanoid demo_clock 30000%Z None
                    (JsonNull null_fault) page_loads world0)
             null_fault eq_refl).
Defined.

Lemma navigation_failure_is_answered_with_200_witness :
  exists r w',
    POST demo_nanoid demo_clock 30000%Z None (JsonObject demo_request) page_unreachable
      world0
    = (Ok {| NextResponse.status := 200; NextResponse.body := Report r |}, w')
    /\ success r = false /\ hasErrors r = true /\ monitoringError r = None.
Proof.
  exact (@navigation_failure_is_answered_with_200 demo_nanoid demo_clock 30000%Z None
           (JsonObject demo_request) (Some demo_request) page_unreachable world0
           (lit "Timeout 500ms exceeded")
           eq_refl eq_refl eq_refl eq_refl eq_refl).
Defined.

Lemma report_counts_the_recorded_signals_witness :
  exists r w,
    session demo_nanoid demo_clock demo_config_console_only page_forbidden = (Ok r, w)
    /\ success r = true
    /\ length (errors r) = 0
    /\ length (warnings r) = 2
    /\ totalErrors (summary r)
       = count (records_error (Config.errorTypes demo_config_console_only))
           (all_signals page_forbidden)
         + count (records_warning (Config.errorTypes demo_config_console_only))
             (all_signals page_forbidden)
         + (if hasContent_of (check page_forbidden) then 0 else 1).
Proof.
  do 2 eexists. split; [vm_compute; reflexivity|].
  split; [reflexivity|]. split; [reflexivity|]. split; [reflexivity|].
  refine (proj2 (proj2 (@report_counts_the_recorded_signals
                          demo_nanoid demo_clock demo_config_console_only
                          page_forbidden _ _ _ _))).
  - vm_compute; reflexivity.
  - reflexivity.
Defined.

Lemma hasErrors_iff_an_error_signal_fired_witness :
  exists r w,
    session demo_nanoid demo_clock demo_config page_loads = (Ok r, w)
    /\ success r = true
    /\ (hasErrors r = true
        <-> exists sg, In sg (all_signals page_loads)
                       /\ records_error (Config.errorTypes demo_config) sg = true).
Proof.
  do 2 eexists. split; [vm_compute; reflexivity|]. split; [reflexivity|].
  refine (@hasErrors_iff_an_error_signal_fired demo_nanoid demo_clock demo_config
            page_loads _ _ _ _).
  - vm_compute; reflexivity.
  - reflexivity.
Defined.

(* ================================================================== *)
(** * Properties of the prompt and of the fix route *)

Lemma contains_refl s : contains s s.
Proof. exists [], []. now rewrite app_nil_r. Qed.

Lemma contains_app_l s u t : contains s t -> contains (s ++ u) t.
Proof. intros (pre & post & ->). exists pre, (post ++ u). now rewrite <- !app_assoc. Qed.

Lemma contains_app_r s u t : contains s t -> contains (u ++ s) t.
Proof. intros (pre & post & ->). exists (u ++ pre), post. now rewrite <- !app_assoc. Qed.

Lemma contains_trans s t u : contains s t -> contains t u -> contains s u.
Proof.
  intros (pre & post & ->) (pre' & post' & ->).
  exists (pre ++ pre'), (post' ++ post). now rewrite <- !app_assoc.
Qed.

Lemma join_contains sep xs x : In x xs -> contains (join sep xs) x.
Proof.
  induction xs as [|y xs IH]; intros H; [destruct H|].
  destruct H as [-> | H].
  - destruct xs; simpl; [apply contains_refl | apply contains_app_l, contains_refl].
  - specialize (IH H). destruct xs as [|z xs]; [destruct H|].
    change (join sep (y :: z :: xs)) with (y ++ sep ++ join sep (z :: xs)).
    now apply contains_app_r, contains_app_r.
Qed.

Section PromptFacts.
Variable show_number : number -> jstring.
Variable autoFixModel : jstring.
Variable Stream : Type.
Variable streamText : GenerationCall -> outcome Stream.

Lemma userPrompt_contains_errorList errors contexts :
  contains (userPrompt show_number errors contexts) (errorList show_number errors).
Proof.
  unfold userPrompt.
  do 4 apply contains_app_r. apply contains_app_l, contains_refl.
Qed.

Lemma userPrompt_contains_files errors contexts :
  contains (userPrompt show_number errors contexts) (fileContextString contexts).
Proof.
  unfold userPrompt.
  do 10 apply contains_app_r. apply contains_app_l, contains_refl.
Qed.

(** X21.  Generation is called once, with the configured model, the fixed
    system prompt, and a user prompt in which nothing is dropped: every
    error is there with its upper-cased type in brackets and its message,
    and every file of the working set that can be read is there as a
    [<file path=...>] block with the content read. *)
Theorem prompt_holds_every_error_and_readable_file
    (errors : list RuntimeError) (readFile : jstring -> option jstring)
    (focusFiles : option (list jstring)) :
  exists call,
    fixRuntimeErrors show_number autoFixModel streamText errors readFile focusFiles
    = streamText call
    /\ model call = autoFixModel
    /\ system call = systemPrompt
    /\ (forall e, In e errors ->
          contains (user call)
            (lit "[" ++ toUpperCase (type_str (type e)) ++ lit "] " ++ message e ++ nl))
    /\ (forall filePath content,
          In filePath (relevantFiles errors focusFiles) ->
          readFile filePath = Some content ->
          contains (user call)
            (lit "<file path=" ++ dq ++ filePath ++ dq ++ lit ">" ++ nl
             ++ content ++ nl ++ lit "</file>")).
Proof.
  eexists. split; [reflexivity|]. cbn [model system user].
  split; [reflexivity|]. split; [reflexivity|]. split.
  - intros e He.
    eapply contains_trans; [apply userPrompt_contains_errorList|].
    eapply contains_trans; [apply join_contains, in_map, He|].
    unfold formatError.
    exists [], (match source e with
                | Some src => lit "Location: " ++ file src ++ lit ":"
                              ++ show_line show_number (line src)
                | None => []
                end).
    rewrite <- !app_assoc. reflexivity.
  - intros filePath content Hin Hread.
    eapply contains_trans; [apply userPrompt_contains_files|].
    apply (join_contains _ _ (formatFile (filePath, content))).
    apply in_map. unfold fileContexts. apply in_flat_map.
    exists filePath. rewrite Hread. split; [exact Hin | now left].
Qed.

Variable getProvider : jstring -> option (jstring -> option jstring).

End PromptFacts.


(* ================================================================== *)
(** ** The zip route *)

Lemma trimStart_first s : ZipRoute.not_space (ZipRoute.first_unit (ZipRoute.trimStart s)).
Proof.
  induction s as [|c s IH]; simpl; [exact I|].
  destruct (isSpace c) eqn:E; [exact IH | exact E].
Qed.

Lemma trimStart_suffix s : exists pre, s = pre ++ ZipRoute.trimStart s.
Proof.
  induction s as [|c s [pre IH]]; simpl.
  - now exists [].
  - destruct (isSpace c).
    + exists (c :: pre). simpl. now f_equal.
    + now exists [].
Qed.

Lemma trimEnd_prefix s : exists post, s = ZipRoute.trimEnd s ++ post.
Proof.
  destruct (trimStart_suffix (rev s)) as [pre E].
  exists (rev pre). unfold ZipRoute.trimEnd.
  rewrite <- rev_app_distr, <- E. now rewrite rev_involutive.
Qed.

Lemma trimEnd_last s : ZipRoute.not_space (ZipRoute.last_unit (ZipRoute.trimEnd s)).
Proof.
  unfold ZipRoute.last_unit, ZipRoute.trimEnd. rewrite rev_involutive.
  apply trimStart_first.
Qed.

Lemma trim_ends s :
  ZipRoute.not_space (ZipRoute.first_unit (ZipRoute.trim s))
  /\ ZipRoute.not_space (ZipRoute.last_unit (ZipRoute.trim s)).
Proof.
  unfold ZipRoute.trim. split; [|apply trimEnd_last].
  pose proof (trimStart_first s) as F.
  destruct (trimEnd_prefix (ZipRoute.trimStart s)) as [post E].
  destruct (ZipRoute.trimEnd (ZipRoute.trimStart s)) as [|c t]; [exact I|].
  rewrite E in F. exact F.
Qed.

Lemma three_quarters_bounds n :
  (3 * Z.of_nat n - 1 <= 4 * ZipRoute.three_quarters n <= 3 * Z.of_nat n + 2)%Z.
Proof.
  unfold ZipRoute.three_quarters.
  pose proof (Z.div_mod (3 * Z.of_nat n + 2) 4 ltac:(lia)) as D.
  pose proof (Z.mod_pos_bound (3 * Z.of_nat n + 2) 4 ltac:(lia)) as B.
  lia.
Qed.

Lemma file_names_differ : ZipRoute.e2bFileName <> ZipRoute.vercelFileName.
Proof. intro E. vm_compute in E. discriminate E. Qed.

Lemma trimStart_parts s :
  exists pre, s = pre ++ ZipRoute.trimStart s /\ forallb isSpace pre = true.
Proof.
  induction s as [|c s (pre & IH & Hpre)]; simpl.
  - now exists [].
  - destruct (isSpace c) eqn:E.
    + exists (c :: pre). simpl. rewrite E, Hpre. split; [now f_equal | reflexivity].
    + now exists [].
Qed.

Lemma trim_parts s :
  exists before after,
    s = before ++ ZipRoute.trim s ++ after
    /\ forallb isSpace before = true /\ forallb isSpace after = true.
Proof.
  destruct (trimStart_parts s) as (before & E1 & H1).
  destruct (trimStart_parts (rev (ZipRoute.trimStart s))) as (pre & E2 & H2).
  exists before, (rev pre). unfold ZipRoute.trim, ZipRoute.trimEnd.
  rewrite <- rev_app_distr, <- E2, rev_involutive.
  split; [exact E1|]. split; [exact H1|].
  rewrite forallb_forall in *. intros x Hx. apply H2. now apply in_rev.
Qed.

Section ZipRouteFacts.
Variable getProvider : jstring -> option ZipRoute.Provider.
Variable getActiveProvider : option ZipRoute.Provider.
Variable activeSandboxProvider : option ZipRoute.Provider.
Variable activeSandbox : option ZipRoute.LegacySandbox.

Ltac unfold_zip :=
  cbv [ZipRoute.POST ZipRoute.sh_try ZipRoute.with_provider ZipRoute.with_legacy
       ZipRoute.sh_bind ZipRoute.sh_ret ZipRoute.sh_throw ZipRoute.run
       ZipRoute.write ZipRoute.legacy_run ZipRoute.await].

Ltac zip_case :=
  match goal with
  | |- context [match ?x with _ => _ end] =>
      lazymatch x with
      | context [match _ with _ => _ end] => fail
      | _ => let E := fresh "E" in destruct x eqn:E
      end
  | H : context [match ?x with _ => _ end] |- _ =>
      lazymatch x with
      | context [match _ with _ => _ end] => fail
      | _ => let E := fresh "E" in destruct x eqn:E
      end
  end.

(** The calls of a request are read off the two histories. *)
Ltac zip_calls Hc :=
  rewrite <- ?app_assoc in Hc; cbn [app] in Hc;
  first [ apply app_inv_head in Hc
        | rewrite <- (app_nil_r _) in Hc at 1; apply app_inv_head in Hc ].

(** A request whose body is not [null], once the body is read. *)
Lemma zip_route_reads request json h :
  json_or_empty request = Ok json ->
  ZipRoute.POST getProvider getActiveProvider activeSandboxProvider activeSandbox request h
  = ZipRoute.sh_try
      (match ZipRoute.find_provider getProvider getActiveProvider activeSandboxProvider
               (ZipRoute.sandboxId_of json),
             activeSandbox with
       | None, None =>
           ZipRoute.sh_ret
             {| ZipRoute.status := 400;
                ZipRoute.body :=
                  ZipRoute.Failed (lit "No active sandbox. Please ensure the sandbox is created before downloading the zip file.") |}
       | Some p, _ => ZipRoute.with_provider p
       | None, Some l => ZipRoute.with_legacy l
       end)
      (fun error =>
         ZipRoute.sh_ret {| ZipRoute.status := 500; ZipRoute.body := ZipRoute.Failed error |})
      h.
Proof.
  intros Hb. unfold ZipRoute.POST, ZipRoute.sh_try, ZipRoute.sh_bind, ZipRoute.await.
  rewrite Hb. reflexivity.
Qed.

Lemma zip_route_null fault h :
  ZipRoute.POST getProvider getActiveProvider activeSandboxProvider activeSandbox
    (JsonNull fault) h
  = (Ok {| ZipRoute.status := 500; ZipRoute.body := ZipRoute.Failed fault |}, h).
Proof. reflexivity. Qed.

Lemma json_or_empty_cases {F} (request : JsonBody F) :
  (exists fault, request = JsonNull fault)
  \/ exists json, json_or_empty request = Ok json.
Proof. destruct request; simpl; eauto. Qed.

(** Rewriting with what the sandbox answered, whatever form the strings
    of the call have taken. *)
Ltac zip_rewrite_in H :=
  repeat match goal with
         | E : ZipRoute.find_provider _ _ _ _ = _ |- _ => rewrite E in H
         | E : activeSandbox = _ |- _ => rewrite E in H
         | E : ZipRoute.is_e2b _ = _ |- _ => rewrite E in H
         | E : ?lhs = _ |- _ =>
             match lhs with
             | ZipRoute.runCommand _ _ _ => idtac
             | ZipRoute.writeFile _ _ _ _ => idtac
             | ZipRoute.legacyRunCommand _ _ _ _ => idtac
             end;
             match type of H with
             | context [ZipRoute.runCommand ?p ?hh ?c] =>
                 change (ZipRoute.runCommand p hh c) with lhs in H
             | context [ZipRoute.writeFile ?p ?hh ?a ?b] =>
                 change (ZipRoute.writeFile p hh a b) with lhs in H
             | context [ZipRoute.legacyRunCommand ?l ?hh ?a ?b] =>
                 change (ZipRoute.legacyRunCommand l hh a b) with lhs in H
             end;
             rewrite E in H
         end.

Ltac zip_flatten :=
  repeat match goal with
         | E : context [(_ ++ _) ++ _] |- _ => rewrite <- app_assoc in E; cbn [app] in E
         end.

(** X23.  The zip handler never throws.  It answers 400 exactly when the
    body is not [null] and it finds neither a provider nor a legacy
    sandbox; otherwise 200 or 500, and the body of the answer is the
    archive exactly when the status is 200.  A body that is [null] is
    answered with 500 and the message of the destructuring fault, before
    any call on a sandbox.  Every call that the sandbox rejects ends the
    request with 500 and the message of that rejection. *)
Theorem zip_route_always_answers
    (request : JsonBody (option jstring)) (h : list ZipRoute.Call) :
  exists resp h',
    ZipRoute.POST getProvider getActiveProvider activeSandboxProvider activeSandbox
      request h = (Ok resp, h')
    /\ (ZipRoute.status resp = 400%Z
        <-> exists json,
              json_or_empty request = Ok json
              /\ ZipRoute.find_provider getProvider getActiveProvider activeSandboxProvider
                   (ZipRoute.sandboxId_of json) = None
              /\ activeSandbox = None)
    /\ (ZipRoute.status resp = 200%Z
        <-> exists d f s m, ZipRoute.body resp = ZipRoute.Created d f s m)
    /\ (ZipRoute.status resp = 200%Z \/ ZipRoute.status resp = 400%Z
        \/ ZipRoute.status resp = 500%Z)
    /\ (forall fault,
          request = JsonNull fault ->
          resp = {| ZipRoute.status := 500; ZipRoute.body := ZipRoute.Failed fault |}
          /\ h' = h)
    /\ (forall json calls i c fault,
          json_or_empty request = Ok json ->
          h' = h ++ calls ->
          nth_error calls i = Some c ->
          ZipRoute.rejection
            (ZipRoute.find_provider getProvider getActiveProvider activeSandboxProvider
               (ZipRoute.sandboxId_of json))
            activeSandbox (h ++ firstn i calls) c = Some fault ->
          resp = {| ZipRoute.status := 500; ZipRoute.body := ZipRoute.Failed fault |}).
Proof.
  destruct (json_or_empty_cases request) as [[fault ->] | [json Hb]].
  { do 2 eexists. split; [apply zip_route_null|]. cbn [ZipRoute.status ZipRoute.body].
    split; [split; [discriminate | intros (j & H & _); discriminate H]|].
    split; [split; [discriminate | intros (? & ? & ? & ? & H); discriminate H]|].
    split; [auto|]. split.
    - intros f [= ->]. auto.
    - intros j calls i c f H. discriminate H. }
  rewrite (zip_route_reads _ h Hb). unfold_zip.
  repeat zip_case;
    (do 2 eexists; split; [reflexivity|];
     cbn [ZipRoute.status ZipRoute.body ZipRoute.created];
     split;
     [ split;
       [ first [ discriminate | intros _; exists json; auto ]
       | intros (j & Hj & Hn & Ha); rewrite Hb in Hj; injection Hj as <-;
         first [ reflexivity | congruence ] ]
     | split;
       [ split;
         [ first [ discriminate | intros _; do 4 eexists; reflexivity ]
         | first [ reflexivity | intros (? & ? & ? & ? & H); discriminate H ] ]
       | split; [ auto | split ] ] ]).
  all: try (intros f ->; discriminate Hb).
  all: intros j calls i c f Hj Hc Hn Hr; rewrite Hb in Hj; injection Hj as <-;
    zip_calls Hc; subst calls; zip_flatten;
    repeat (destruct i as [|i]; cbn [nth_error firstn] in Hn, Hr;
            [ injection Hn as <-; rewrite ?app_nil_r in Hr;
              cbv [ZipRoute.rejection] in Hr; zip_rewrite_in Hr;
              cbv [ZipRoute.fault_of] in Hr; zip_rewrite_in Hr;
              first [ discriminate Hr | injection Hr as <-; reflexivity ]
            | ]);
    destruct i; simpl in Hn; discriminate Hn.
Qed.

Lemma created_payload fileName out d f s m :
  ZipRoute.body (ZipRoute.created fileName (ZipRoute.trim out)) = ZipRoute.Created d f s m ->
  f = fileName
  /\ d = lit "data:application/zip;base64," ++ ZipRoute.trim out
  /\ (exists before after,
        out = before ++ ZipRoute.trim out ++ after
        /\ forallb isSpace before = true /\ forallb isSpace after = true)
  /\ ZipRoute.not_space (ZipRoute.first_unit (ZipRoute.trim out))
  /\ ZipRoute.not_space (ZipRoute.last_unit (ZipRoute.trim out))
  /\ s = ZipRoute.three_quarters (length (ZipRoute.trim out))
  /\ (3 * Z.of_nat (length (ZipRoute.trim out)) - 1 <= 4 * s
      <= 3 * Z.of_nat (length (ZipRoute.trim out)) + 2)%Z
  /\ m = lit "Zip file created successfully".
Proof.
  cbn [ZipRoute.body ZipRoute.created]. intros E. inversion E; subst.
  destruct (trim_ends out) as [F L].
  repeat split; auto; try apply three_quarters_bounds. apply trim_parts.
Qed.

(** X24.  What an archive answer holds.  The step that reads the archive
    came back, and with [out] what it printed: the status is 200; the
    data URL is the base64 prefix followed by [out] trimmed, which is
    [out] without the white space at its two ends; the size is three
    quarters of the length of the trimmed output, rounded to the nearest
    integer; and the file name is that of the e2b archive exactly when a
    provider was found that reports itself as e2b, that of the vercel
    archive otherwise. *)
Theorem archive_answer_payload (request : JsonBody (option jstring))
    (h h' : list ZipRoute.Call) (resp : ZipRoute.Response)
    (d f : jstring) (s : Z) (m : jstring) :
  ZipRoute.POST getProvider getActiveProvider activeSandboxProvider activeSandbox
    request h = (Ok resp, h') ->
  ZipRoute.body resp = ZipRoute.Created d f s m ->
  exists json out,
    json_or_empty request = Ok json
    /\ ZipRoute.read_output
         (ZipRoute.find_provider getProvider getActiveProvider activeSandboxProvider
            (ZipRoute.sandboxId_of json))
         activeSandbox h = Some out
    /\ ZipRoute.status resp = 200%Z
    /\ d = lit "data:application/zip;base64," ++ ZipRoute.trim out
    /\ (exists before after,
          out = before ++ ZipRoute.trim out ++ after
          /\ forallb isSpace before = true /\ forallb isSpace after = true)
    /\ ZipRoute.not_space (ZipRoute.first_unit (ZipRoute.trim out))
    /\ ZipRoute.not_space (ZipRoute.last_unit (ZipRoute.trim out))
    /\ s = ZipRoute.three_quarters (length (ZipRoute.trim out))
    /\ (3 * Z.of_nat (length (ZipRoute.trim out)) - 1 <= 4 * s
        <= 3 * Z.of_nat (length (ZipRoute.trim out)) + 2)%Z
    /\ m = lit "Zip file created successfully"
    /\ (f = ZipRoute.e2bFileName
        <-> exists p,
              ZipRoute.find_provider getProvider getActiveProvider activeSandboxProvider
                (ZipRoute.sandboxId_of json) = Some p
              /\ ZipRoute.is_e2b p = true)
    /\ (f = ZipRoute.e2bFileName \/ f = ZipRoute.vercelFileName).
Proof.
  intros HP HB.
  destruct (json_or_empty_cases request) as [[fault ->] | [json Hb]].
  { rewrite zip_route_null in HP. inversion HP; subst. discriminate HB. }
  rewrite (zip_route_reads _ h Hb) in HP. exists json.
  unfold ZipRoute.read_output.
  replace (h ++ [ZipRoute.Run ZipRoute.zipCommand;
                 ZipRoute.Write (lit "/tmp/read_zip.py") ZipRoute.pythonScript])
    with ((h ++ [ZipRoute.Run ZipRoute.zipCommand])
          ++ [ZipRoute.Write (lit "/tmp/read_zip.py") ZipRoute.pythonScript])
    by (now rewrite <- app_assoc).
  revert HP. unfold_zip. intros HP.
  repeat zip_case; try discriminate;
    repeat match goal with
           | H : Throw ?x = Throw ?y |- _ => injection H as H; subst y
           | H : Ok ?x = Ok ?y |- _ => injection H as H; subst y
           end;
    inversion HP; subst resp h'; clear HP; try discriminate HB.
  all: try match goal with
           | E1 : ZipRoute.LegacyResult.stdout ?r = Ok _,
             E2 : ZipRoute.LegacyResult.stdout ?r = Throw _ |- _ =>
               rewrite E1 in E2; discriminate E2
           end.
  all: repeat match goal with
              | E1 : ZipRoute.LegacyResult.stdout ?r = Ok ?x,
                E2 : ZipRoute.LegacyResult.stdout ?r = Ok ?y |- _ =>
                  rewrite E1 in E2; injection E2 as E2; subst y
              end.
  all: apply created_payload in HB;
    destruct HB as (-> & Hd & Hparts & Hfirst & Hlast & Hs & Hbound & Hm);
    eexists; split; [exact Hb|]; split; [reflexivity|]; split; [reflexivity|];
    split; [exact Hd|]; split; [exact Hparts|]; split; [exact Hfirst|];
    split; [exact Hlast|]; split; [exact Hs|]; split; [exact Hbound|];
    split; [exact Hm|]; split; auto; split.
  all: try (intros _; eexists; split; [reflexivity | assumption]).
  all: try (intros (q & Hq & He); congruence).
  all: try (intros Hn; exfalso; apply file_names_differ; congruence).
Qed.

(** X25.  An archive read through an e2b provider is validated: an
    answer with status 200 carries at least 100 code units of base64, and
    all four steps of the e2b script were taken. *)
Theorem e2b_archive_is_validated (request : JsonBody (option jstring))
    (json : option (option jstring)) (h h' : list ZipRoute.Call)
    (p : ZipRoute.Provider) (resp : ZipRoute.Response) :
  json_or_empty request = Ok json ->
  ZipRoute.find_provider getProvider getActiveProvider activeSandboxProvider
    (ZipRoute.sandboxId_of json) = Some p ->
  ZipRoute.is_e2b p = true ->
  ZipRoute.POST getProvider getActiveProvider activeSandboxProvider activeSandbox
    request h = (Ok resp, h') ->
  ZipRoute.status resp = 200%Z ->
  exists b,
    ZipRoute.body resp
      = ZipRoute.Created (lit "data:application/zip;base64," ++ b) ZipRoute.e2bFileName
          (ZipRoute.three_quarters (length b)) (lit "Zip file created successfully")
    /\ 100 <= length b
    /\ h' = h ++ ZipRoute.e2b_calls.
Proof.
  intros Hb Hp He HP HS. rewrite (zip_route_reads _ h Hb) in HP.
  revert HP. unfold_zip. intros HP. rewrite Hp, He in HP.
  repeat zip_case; inversion HP; subst resp h'; clear HP;
    try discriminate HS.
  eexists. split; [reflexivity|].
  match goal with
  | H : _ || (length _ <? 100) = false |- _ =>
      apply orb_false_elim in H; destruct H as [_ H]; apply Nat.ltb_ge in H;
      split; [exact H|]
  end.
  now rewrite <- !app_assoc.
Qed.

(** X26.  The calls a request makes on its sandbox are appended to those
    made before, and they are an initial part of the script of the
    sandbox it found (four steps for e2b, two for any other provider, two
    for the legacy sandbox, none without a sandbox); an answer with
    status 200 means the whole script was run. *)
Theorem sandbox_calls_follow_the_script (request : JsonBody (option jstring))
    (json : option (option jstring)) (h h' : list ZipRoute.Call)
    (resp : ZipRoute.Response) :
  json_or_empty request = Ok json ->
  ZipRoute.POST getProvider getActiveProvider activeSandboxProvider activeSandbox
    request h = (Ok resp, h') ->
  exists calls rest,
    h' = h ++ calls
    /\ ZipRoute.script
         (ZipRoute.find_provider getProvider getActiveProvider activeSandboxProvider
            (ZipRoute.sandboxId_of json))
         activeSandbox
       = calls ++ rest
    /\ (ZipRoute.status resp = 200%Z -> rest = []).
Proof.
  intros Hb HP. rewrite (zip_route_reads _ h Hb) in HP.
  revert HP. unfold_zip. unfold ZipRoute.script. intros HP.
  repeat zip_case; inversion HP; subst resp h'; clear HP;
    rewrite <- ?app_assoc; cbn [app];
    cbv [ZipRoute.e2b_calls ZipRoute.vercel_calls ZipRoute.legacy_calls];
    first
      [ exists [], []; now rewrite app_nil_r
      | do 2 eexists; split; [reflexivity|]; split;
        [ cbn [app]; reflexivity | cbn [ZipRoute.status ZipRoute.created]; intros; try discriminate; reflexivity ]
      | do 2 eexists; split; [symmetry; apply app_nil_r|]; split;
        [ cbn [app]; reflexivity | cbn [ZipRoute.status]; intros; try discriminate; reflexivity ] ].
Qed.

(** X27.  The reader script of an e2b request is removed exactly when
    the read comes back.  Once the read has been issued: if it resolves,
    whatever its result, the removal is issued next and the four steps
    are all the calls of the request; if it rejects, the answer is 500
    with the fault of the read and the removal is never issued, so the
    script stays in the sandbox. *)
Theorem reader_script_removed_iff_read_returns (request : JsonBody (option jstring))
    (json : option (option jstring))
    (h h' calls : list ZipRoute.Call) (p : ZipRoute.Provider) (resp : ZipRoute.Response) :
  json_or_empty request = Ok json ->
  ZipRoute.find_provider getProvider getActiveProvider activeSandboxProvider
    (ZipRoute.sandboxId_of json) = Some p ->
  ZipRoute.is_e2b p = true ->
  ZipRoute.POST getProvider getActiveProvider activeSandboxProvider activeSandbox
    request h = (Ok resp, h') ->
  h' = h ++ calls ->
  In (ZipRoute.Run (lit "python3 /tmp/read_zip.py")) calls ->
  match ZipRoute.runCommand p
          (h ++ [ZipRoute.Run ZipRoute.zipCommand;
                 ZipRoute.Write (lit "/tmp/read_zip.py") ZipRoute.pythonScript])
          (lit "python3 /tmp/read_zip.py") with
  | Ok _ => calls = ZipRoute.e2b_calls
  | Throw e =>
      resp = {| ZipRoute.status := 500; ZipRoute.body := ZipRoute.Failed e |}
      /\ ~ In (ZipRoute.Run (lit "rm -f /tmp/read_zip.py")) calls
  end.
Proof.
  intros Hb Hp He HP Hc Hin. rewrite (zip_route_reads _ h Hb) in HP.
  revert HP. unfold_zip. intros HP. rewrite Hp, He in HP.
  replace (h ++ [ZipRoute.Run ZipRoute.zipCommand;
                 ZipRoute.Write (lit "/tmp/read_zip.py") ZipRoute.pythonScript])
    with ((h ++ [ZipRoute.Run ZipRoute.zipCommand])
          ++ [ZipRoute.Write (lit "/tmp/read_zip.py") ZipRoute.pythonScript])
    by (now rewrite <- app_assoc).
  subst h'.
  repeat zip_case; try discriminate;
    repeat match goal with
           | H : Throw ?x = Throw ?y |- _ => injection H as H; subst y
           | H : Ok ?x = Ok ?y |- _ => injection H as H; subst y
           end;
    injection HP as Hr Hc; subst resp;
    rewrite <- ?app_assoc in Hc; cbn [app] in Hc;
    apply app_inv_head in Hc; subst calls;
    try reflexivity;
    try (exfalso; cbn [In] in Hin;
         repeat (destruct Hin as [Hin|Hin]; [vm_compute in Hin; discriminate Hin|]);
         exact Hin).
  all: split; [reflexivity|]; cbn [In]; intros Hrm;
    repeat (destruct Hrm as [Hrm|Hrm]; [vm_compute in Hrm; discriminate Hrm|]);
    exact Hrm.
Qed.

(** X28.  An archive read through any other provider is not validated:
    once the zip step succeeded, a read that reports success gives an
    answer with status 200 whatever its exit code and however short its
    output, and the request made exactly the two calls of the script. *)
Theorem other_archive_is_not_validated (request : JsonBody (option jstring))
    (json : option (option jstring))
    (h : list ZipRoute.Call) (p : ZipRoute.Provider)
    (zipResult readResult : ZipRoute.CommandResult.t) :
  json_or_empty request = Ok json ->
  ZipRoute.find_provider getProvider getActiveProvider activeSandboxProvider
    (ZipRoute.sandboxId_of json) = Some p ->
  ZipRoute.is_e2b p = false ->
  ZipRoute.runCommand p h ZipRoute.zipCommand = Ok zipResult ->
  ZipRoute.CommandResult.success zipResult = true ->
  ZipRoute.CommandResult.exitCode zipResult = 0%Z ->
  ZipRoute.runCommand p (h ++ [ZipRoute.Run ZipRoute.zipCommand])
    (lit "base64 /tmp/project.zip") = Ok readResult ->
  ZipRoute.CommandResult.success readResult = true ->
  ZipRoute.POST getProvider getActiveProvider activeSandboxProvider activeSandbox
    request h
  = (Ok (ZipRoute.created ZipRoute.vercelFileName
           (ZipRoute.trim (ZipRoute.CommandResult.stdout readResult))),
     h ++ ZipRoute.vercel_calls).
Proof.
  intros Hb Hp He Hz Hzs Hzc Hr Hrs. rewrite (zip_route_reads _ h Hb). unfold_zip.
  rewrite Hp. cbv beta iota. rewrite He, Hz. cbv beta iota.
  rewrite Hzs, Hzc. cbn [negb orb Z.eqb]. cbv beta iota.
  rewrite Hr. cbv beta iota. rewrite Hrs. cbn [negb].
  now rewrite <- app_assoc.
Qed.
End ZipRouteFacts.

Lemma zip_e2b_run :
  ZipRoute.POST (zip_registry zip_e2b) None None None zip_request []
  = (Ok zip_archive, ZipRoute.e2b_calls).
Proof. vm_compute. reflexivity. Qed.

Lemma zip_e2b_stuck_run :
  ZipRoute.POST (zip_registry zip_e2b_stuck) None None None zip_request []
  = (Ok zip_timed_out, firstn 3 ZipRoute.e2b_calls).
Proof. vm_compute. reflexivity. Qed.

Lemma archive_answer_payload_witness :
  exists json out,
    json_or_empty zip_request = Ok json
    /\ ZipRoute.read_output
         (ZipRoute.find_provider (zip_registry zip_e2b) None None (ZipRoute.sandboxId_of json))
         None [] = Some out
    /\ ZipRoute.status zip_archive = 200%Z
    /\ lit "data:application/zip;base64," ++ repeat 65%N 120
       = lit "data:application/zip;base64," ++ ZipRoute.trim out
    /\ (exists before after,
          out = before ++ ZipRoute.trim out ++ after
          /\ forallb isSpace before = true /\ forallb isSpace after = true)
    /\ ZipRoute.not_space (ZipRoute.first_unit (ZipRoute.trim out))
    /\ ZipRoute.not_space (ZipRoute.last_unit (ZipRoute.trim out))
    /\ 90%Z = ZipRoute.three_quarters (length (ZipRoute.trim out))
    /\ (3 * Z.of_nat (length (ZipRoute.trim out)) - 1 <= 4 * 90
        <= 3 * Z.of_nat (length (ZipRoute.trim out)) + 2)%Z
    /\ lit "Zip file created successfully" = lit "Zip file created successfully"
    /\ (ZipRoute.e2bFileName = ZipRoute.e2bFileName
        <-> exists p,
              ZipRoute.find_provider (zip_registry zip_e2b) None None
                (ZipRoute.sandboxId_of json) = Some p
              /\ ZipRoute.is_e2b p = true)
    /\ (ZipRoute.e2bFileName = ZipRoute.e2bFileName
        \/ ZipRoute.e2bFileName = ZipRoute.vercelFileName).
Proof.
  exact (@archive_answer_payload (zip_registry zip_e2b) None None None
           zip_request [] ZipRoute.e2b_calls zip_archive
           (lit "data:application/zip;base64," ++ repeat 65%N 120)
           ZipRoute.e2bFileName 90%Z (lit "Zip file created successfully")
           zip_e2b_run eq_refl).
Defined.

Lemma e2b_archive_is_validated_witness :
  exists b,
    ZipRoute.body zip_archive
      = ZipRoute.Created (lit "data:application/zip;base64," ++ b) ZipRoute.e2bFileName
          (ZipRoute.three_quarters (length b)) (lit "Zip file created successfully")
    /\ 100 <= length b
    /\ ZipRoute.e2b_calls = [] ++ ZipRoute.e2b_calls.
Proof.
  exact (@e2b_archive_is_validated (zip_registry zip_e2b) None None None
           zip_request (Some (Some (lit "sb-1"))) [] ZipRoute.e2b_calls zip_e2b zip_archive
           eq_refl eq_refl eq_refl zip_e2b_run eq_refl).
Defined.

Lemma sandbox_calls_follow_the_script_witness :
  exists calls rest,
    firstn 3 ZipRoute.e2b_calls = [] ++ calls
    /\ ZipRoute.script
         (ZipRoute.find_provider (zip_registry zip_e2b_stuck) None None (Some (lit "sb-1")))
         None
       = calls ++ rest
    /\ (ZipRoute.status zip_timed_out = 200%Z -> rest = []).
Proof.
  exact (@sandbox_calls_follow_the_script (zip_registry zip_e2b_stuck) None None None
           zip_request (Some (Some (lit "sb-1"))) [] (firstn 3 ZipRoute.e2b_calls)
           zip_timed_out eq_refl zip_e2b_stuck_run).
Defined.

Lemma reader_script_removed_iff_read_returns_witness :
  zip_timed_out
  = {| ZipRoute.status := 500; ZipRoute.body := ZipRoute.Failed (lit "Command timed out") |}
  /\ ~ In (ZipRoute.Run (lit "rm -f /tmp/read_zip.py")) (firstn 3 ZipRoute.e2b_calls).
Proof.
  exact (@reader_script_removed_iff_read_returns (zip_registry zip_e2b_stuck) None None None
           zip_request (Some (Some (lit "sb-1")))
           [] (firstn 3 ZipRoute.e2b_calls) (firstn 3 ZipRoute.e2b_calls)
           zip_e2b_stuck zip_timed_out
           eq_refl eq_refl eq_refl zip_e2b_stuck_run eq_refl
           (or_intror (or_intror (or_introl eq_refl)))).
Defined.

Lemma other_archive_is_not_validated_witness :
  ZipRoute.POST (zip_registry zip_vercel) None None None zip_request []
  = (Ok zip_empty_archive, [] ++ ZipRoute.vercel_calls)
  /\ ZipRoute.body zip_empty_archive
     = ZipRoute.Created (lit "data:application/zip;base64,") ZipRoute.vercelFileName 0%Z
         (lit "Zip file created successfully").
Proof.
  split; [|reflexivity].
  exact (@other_archive_is_not_validated (zip_registry zip_vercel) None None None
           zip_request (Some (Some (lit "sb-1"))) [] zip_vercel
           (ZipRoute.CommandResult.mk true 0 [] [])
           (ZipRoute.CommandResult.mk true 1 [] [])
           eq_refl eq_refl eq_refl eq_refl eq_refl eq_refl eq_refl eq_refl).
Defined.

(* ================================================================== *)
(** * Source-location extraction finds the first location *)

(** ** The classes and the value of a run of digits *)

Lemma isDigit_In c : isDigit c = true <-> In c decimal_digits.
Proof.
  unfold isDigit.
  change decimal_digits with [48; 49; 50; 51; 52; 53; 54; 55; 56; 57]%N.
  rewrite andb_true_iff, !N.leb_le. simpl. lia.
Qed.

Lemma isSpace_In c : isSpace c = true <-> In c white_space.
Proof.
  unfold isSpace, white_space.
  rewrite !orb_true_iff, !andb_true_iff, !N.leb_le, !N.eqb_eq. simpl. lia.
Qed.

Lemma notRParen_spec c : notRParen c = true <-> c <> 41%N.
Proof.
  unfold notRParen, chr. rewrite negb_true_iff, N.eqb_neq. reflexivity.
Qed.

Lemma digit_run_code l :
  digit_run l <-> l <> [] /\ forallb isDigit l = true.
Proof.
  unfold digit_run. rewrite forallb_forall.
  split; intros [H1 H2]; (split; [exact H1|]); intros d Hd; apply isDigit_In; auto.
Qed.

Lemma no_white_space_code s :
  (forall x, In x s -> ~ In x white_space) <-> forallb notSpace s = true.
Proof.
  rewrite forallb_forall. unfold notSpace.
  split; intros H x Hx; specialize (H x Hx).
  - apply negb_true_iff. destruct (isSpace x) eqn:E; [|reflexivity].
    apply isSpace_In in E. contradiction.
  - apply negb_true_iff in H. intros Hin. apply isSpace_In in Hin. congruence.
Qed.

Lemma no_rparen_code f : ~ In 41%N f <-> forallb notRParen f = true.
Proof.
  rewrite forallb_forall. split.
  - intros H x Hx. apply notRParen_spec. intros ->. contradiction.
  - intros H Hin. apply H in Hin. discriminate Hin.
Qed.

Lemma digits_value_places l : forall acc,
  forallb isDigit l = true ->
  digits_value acc l = (acc * 10 ^ N.of_nat (length l) + place_value l)%N.
Proof.
  induction l as [|d l IH]; intros acc H.
  - simpl. lia.
  - simpl in H. apply andb_true_iff in H as [Hd H].
    cbn [digits_value place_value length]. rewrite Hd, IH by exact H.
    rewrite Nat2N.inj_succ, N.pow_succ_r'. lia.
Qed.

Lemma parseInt_places l :
  digit_run l -> parseInt l = Num (place_value l).
Proof.
  intros H. apply digit_run_code in H as [Hne H].
  rewrite parseInt_digits by assumption. unfold decimal.
  rewrite digits_value_places by exact H. rewrite N.mul_0_l, N.add_0_l. reflexivity.
Qed.

(** ** The order in which the matcher tries *)

Lemma app_same_length {A} (a a' b b' : list A) :
  a ++ b = a' ++ b' -> length a = length a' -> a = a' /\ b = b'.
Proof.
  revert a'. induction a as [|x a IH]; intros [|x' a'] E L; simpl in *; try discriminate.
  - auto.
  - injection E as -> E. destruct (IH a' E) as [-> ->]; [lia | auto].
Qed.

Lemma plus_greedy R p s (k : jstring -> option R) : forall out,
  plus p s k = Some out ->
  exists a b,
    s = a ++ b /\ a <> [] /\ forallb p a = true /\ k b = Some out
    /\ forall a' b', s = a' ++ b' -> forallb p a' = true ->
                     length a < length a' -> k b' = None.
Proof.
  induction s as [|c s IH]; intros out H; simpl in H; [discriminate|].
  destruct (p c) eqn:Hc; [|discriminate].
  destruct (plus p s k) as [r|] eqn:Hrec.
  - inv H. destruct (IH _ eq_refl) as (a & b & -> & _ & Hall & Hk & Hmax).
    exists (c :: a), b. simpl. rewrite Hc, Hall.
    repeat split; auto; try discriminate.
    intros [|x a'] b' E Ha' Hlen; simpl in Hlen; [lia|].
    simpl in E. injection E as <- E. simpl in Ha'. apply andb_true_iff in Ha' as [_ Ha'].
    apply (Hmax a' b'); auto. lia.
  - exists [c], s. simpl. rewrite Hc. repeat split; auto; try discriminate.
    intros [|x [|y a']] b' E Ha' Hlen; simpl in Hlen; try lia.
    simpl in E. injection E as <- E. simpl in Ha'.
    apply andb_true_iff in Ha' as [_ Ha'].
    destruct (k b') eqn:Hk; [exfalso | reflexivity].
    apply (@plus_complete R p (y :: a') b' k); [discriminate | exact Ha' | congruence |].
    change ((y :: a') ++ b') with (y :: a' ++ b'). rewrite <- E. exact Hrec.
Qed.

Lemma exec_first r : forall text cs,
  exec r text = Some cs ->
  exists pre rest,
    text = pre ++ rest
    /\ m r rest [] (fun _ cs0 => Some cs0) = Some cs
    /\ forall pre' rest', text = pre' ++ rest' -> length pre' < length pre ->
                          m r rest' [] (fun _ cs0 => Some cs0) = None.
Proof.
  induction text as [|x text IH]; intros cs H.
  - simpl in H. destruct (m r [] [] (fun _ cs0 => Some cs0)) as [o|] eqn:Hm; [|discriminate].
    exists [], []. repeat split; [congruence|]. intros pre' rest' _ L. simpl in L. lia.
  - unfold exec in H; fold exec in H.
    destruct (m r (x :: text) [] (fun _ cs0 => Some cs0)) as [o|] eqn:Hm.
    + exists [], (x :: text). repeat split; [congruence|].
      intros pre' rest' _ L. simpl in L. lia.
    + destruct (IH _ H) as (pre & rest & -> & Hr & Hmin).
      exists (x :: pre), rest. repeat split; auto.
      intros [|y pre'] rest' E L.
      * simpl in E. subst rest'. exact Hm.
      * simpl in E. injection E as <- E. apply (Hmin pre' rest' E). simpl in L. lia.
Qed.

(** ** The parenthesized location at a given place *)

Lemma ParenAt_code text pre f l c :
  ParenAt text pre f l c <->
  (exists post,
      text = pre ++ (lit "(" ++ f ++ lit ":" ++ l ++ lit ":" ++ c ++ lit ")") ++ post)
  /\ f <> [] /\ forallb notRParen f = true
  /\ l <> [] /\ forallb isDigit l = true
  /\ c <> [] /\ forallb isDigit c = true.
Proof.
  unfold ParenAt. rewrite !digit_run_code, no_rparen_code.
  split; intros ((post & E) & H); (split; [exists post|tauto]);
    rewrite E, <- ?app_assoc; reflexivity.
Qed.

Lemma paren_here rest cs :
  m parenPattern rest [] (fun _ cs0 => Some cs0) = Some cs ->
  exists f l c, cs = [f; l; c] /\ ParenAt rest [] f l c.
Proof.
  intros H. apply m_sound in H as (s1 & s2 & c0 & -> & M1 & Hk). inv Hk.
  apply paren_matches in M1 as (f & l & c & -> & Hf & Hfa & Hl & Hla & Hc & Hca & ->).
  exists f, l, c. split; [reflexivity|]. apply ParenAt_code.
  split; [exists s2; reflexivity | tauto].
Qed.

Lemma paren_here_complete rest f l c :
  ParenAt rest [] f l c -> m parenPattern rest [] (fun _ cs0 => Some cs0) <> None.
Proof.
  intros H. apply ParenAt_code in H as ((post & ->) & Hf & Hfa & Hl & Hla & Hc & Hca).
  change ([] ++ ?x) with x.
  apply m_complete with (c := [f; l; c]); [|discriminate].
  apply paren_matches. exists f, l, c. repeat split; auto.
Qed.

Lemma paren_here_unique rest f l c f' l' c' :
  ParenAt rest [] f l c -> ParenAt rest [] f' l' c' -> f = f' /\ l = l' /\ c = c'.
Proof.
  intros H H'.
  apply ParenAt_code in H as ((post & E) & _ & Hfa & _ & Hla & _ & Hca).
  apply ParenAt_code in H' as ((post' & E') & _ & Hfa' & _ & Hla' & _ & Hca').
  rewrite E in E'. rewrite <- !app_assoc in E'.
  apply app_inv_head in E'. apply app_inv_head in E'.
  apply (paren_location_unique f l c f' l' c' post post'); auto.
Qed.

Lemma ParenAt_shift pre rest f l c :
  ParenAt (pre ++ rest) pre f l c <-> ParenAt rest [] f l c.
Proof.
  unfold ParenAt. split; intros ((post & E) & H); (split; [exists post|exact H]).
  - apply app_inv_head in E. exact E.
  - simpl in E. now rewrite E.
Qed.

Lemma ParenAt_rest text pre f l c :
  ParenAt text pre f l c -> exists rest, text = pre ++ rest /\ ParenAt rest [] f l c.
Proof.
  intros H. pose proof H as ((post & E) & _).
  eexists. split; [exact E|]. apply (proj1 (@ParenAt_shift pre _ f l c)).
  rewrite <- E. exact H.
Qed.

(** The matcher stops at the first parenthesized location. *)
Lemma exec_paren_first text cs :
  exec parenPattern text = Some cs ->
  exists f l c, cs = [f; l; c] /\ FirstParenLoc text f l c.
Proof.
  intros H. apply exec_first in H as (pre & rest & -> & Hm & Hmin).
  apply paren_here in Hm as (f & l & c & -> & Hat).
  exists f, l, c. split; [reflexivity|]. exists pre.
  split; [exact (proj2 (@ParenAt_shift pre rest f l c) Hat)|].
  intros pre' f' l' c' H'. apply ParenAt_rest in H' as (rest' & E & Hat').
  destruct (Nat.le_gt_cases (length pre) (length pre')) as [L | L]; [exact L|].
  exfalso. apply (paren_here_complete Hat'). exact (Hmin pre' rest' E L).
Qed.

Lemma FirstParenLoc_unique text f l c f' l' c' :
  FirstParenLoc text f l c -> FirstParenLoc text f' l' c' ->
  f = f' /\ l = l' /\ c = c'.
Proof.
  intros (pre & Hat & Hmin) (pre' & Hat' & Hmin').
  pose proof (Hmin _ _ _ _ Hat') as L1. pose proof (Hmin' _ _ _ _ Hat) as L2.
  apply ParenAt_rest in Hat as (rest & E & Hat).
  apply ParenAt_rest in Hat' as (rest' & E' & Hat').
  rewrite E in E'. apply app_same_length in E' as [_ <-]; [|lia].
  exact (paren_here_unique Hat Hat').
Qed.

(** ** The [file.js:line] location at a given place *)

Lemma jsExtension_matches e ce :
  Matches jsExtension e ce <-> (e = lit ".js" \/ e = lit ".jsx") /\ ce = [].
Proof.
  unfold jsExtension. split.
  - intros H. inv_matches; auto.
  - intros [[-> | ->] ->].
    + change (lit ".js") with ([N_of_ascii "."] ++ [N_of_ascii "j"] ++ [N_of_ascii "s"] ++ []).
      apply M_Cat_nil; [apply M_Cls, chr_refl|].
      apply M_Cat_nil; [apply M_Cls, chr_refl|].
      apply M_Cat_nil; [apply M_Cls, chr_refl|].
      apply M_OptNone.
    + change (lit ".jsx")
        with ([N_of_ascii "."] ++ [N_of_ascii "j"] ++ [N_of_ascii "s"] ++ [N_of_ascii "x"]).
      apply M_Cat_nil; [apply M_Cls, chr_refl|].
      apply M_Cat_nil; [apply M_Cls, chr_refl|].
      apply M_Cat_nil; [apply M_Cls, chr_refl|].
      apply M_OptSome, M_Cls, chr_refl.
Qed.

Lemma lineNumber_matches l :
  l <> [] -> forallb isDigit l = true -> Matches lineNumber (lit ":" ++ l) [l].
Proof.
  intros Hl Hla. unfold lineNumber.
  change [l] with ([] ++ [] ++ [l]).
  apply M_Cat; [apply M_Cls, chr_refl|]. apply M_Grp, M_Plus; assumption.
Qed.

(** The line is the whole run of digits behind the colon. *)
Lemma line_here s cs0 cs :
  m lineNumber s cs0 (fun _ cs1 => Some cs1) = Some cs ->
  exists l post,
    s = lit ":" ++ l ++ post
    /\ l <> [] /\ forallb isDigit l = true
    /\ cs = cs0 ++ [l]
    /\ forall l' post', l ++ post = l' ++ post' -> forallb isDigit l' = true ->
                        length l' <= length l.
Proof.
  unfold lineNumber. cbn [m]. destruct s as [|x s]; [discriminate|].
  destruct (chr ":" x) eqn:Hx; [|discriminate]. apply chr_true in Hx. subst x.
  intros H. apply plus_greedy in H as (l & post & -> & Hl & Hla & Hk & Hmax).
  rewrite firstn_length_app in Hk. inv Hk.
  exists l, post. repeat split; auto.
  intros l' post' E Hla'.
  destruct (Nat.le_gt_cases (length l') (length l)) as [L | L]; [exact L|].
  specialize (Hmax l' post' E Hla' L). discriminate Hmax.
Qed.

Lemma m_simple_unfold rest :
  m simplePattern rest [] (fun _ cs0 => Some cs0)
  = plus notSpace rest
      (fun s' =>
         m jsExtension s' []
           (fun s'' cs'' =>
              m lineNumber s'' (cs'' ++ [firstn (length rest - length s'') rest])
                (fun _ cs0 => Some cs0))).
Proof. reflexivity. Qed.

Lemma SimpleAt_code text pre f l :
  SimpleAt text pre f l <->
  exists stem e post,
    text = pre ++ stem ++ e ++ lit ":" ++ l ++ post
    /\ f = stem ++ e
    /\ (e = lit ".js" \/ e = lit ".jsx")
    /\ stem <> [] /\ forallb notSpace stem = true
    /\ l <> [] /\ forallb isDigit l = true.
Proof.
  unfold SimpleAt. rewrite digit_run_code. split.
  - intros ((post & E) & (stem & He & Hs & Hsa) & Hl & Hla).
    apply no_white_space_code in Hsa.
    destruct He as [-> | ->]; [exists stem, (lit ".js"), post | exists stem, (lit ".jsx"), post];
      rewrite E, <- ?app_assoc; repeat split; auto.
  - intros (stem & e & post & E & -> & He & Hs & Hsa & Hl & Hla).
    split; [exists post; rewrite E, <- ?app_assoc; reflexivity|].
    split; [|auto]. exists stem.
    pose proof (proj2 (@no_white_space_code stem) Hsa) as Hws.
    destruct He as [-> | ->]; auto.
Qed.

Lemma extension_length e : e = lit ".js" \/ e = lit ".jsx" -> 3 <= length e <= 4.
Proof. intros [-> | ->]; simpl; lia. Qed.

(** Behind a stem, the extension is read in one way only. *)
Lemma extension_unique e e' l l' post post' :
  e = lit ".js" \/ e = lit ".jsx" -> e' = lit ".js" \/ e' = lit ".jsx" ->
  e ++ lit ":" ++ l ++ post = e' ++ lit ":" ++ l' ++ post' ->
  e = e' /\ l ++ post = l' ++ post'.
Proof.
  intros [-> | ->] [-> | ->] E; simpl in E; injection E as E; auto; discriminate E.
Qed.

Lemma simple_here_complete rest f l :
  SimpleAt rest [] f l -> m simplePattern rest [] (fun _ cs0 => Some cs0) <> None.
Proof.
  intros H. apply SimpleAt_code in H as (stem & e & post & -> & -> & He & Hs & Hsa & Hl & Hla).
  change ([] ++ ?x) with x.
  replace (stem ++ e ++ lit ":" ++ l ++ post) with (((stem ++ e) ++ lit ":" ++ l) ++ post)
    by (rewrite <- !app_assoc; reflexivity).
  apply m_complete with (c := [stem ++ e; l]); [|discriminate].
  apply simple_matches. exists stem, e, l. repeat split; auto.
Qed.

(** At the place where it matches, the second pattern takes the longest
    file and then the whole run of digits. *)
Lemma simple_here rest cs :
  m simplePattern rest [] (fun _ cs0 => Some cs0) = Some cs ->
  exists f l,
    cs = [f; l] /\ SimpleAt rest [] f l
    /\ forall f' l', SimpleAt rest [] f' l' ->
         length f' <= length f /\ (length f' = length f -> length l' <= length l).
Proof.
  rewrite m_simple_unfold. intros H.
  apply plus_greedy in H as (stem & b & E & Hs & Hsa & Hk & Hmax). subst rest.
  apply m_sound in Hk as (e & b2 & ce & -> & Me & Hk).
  apply jsExtension_matches in Me as [He ->]. cbn [app] in Hk.
  apply line_here in Hk as (l & post & -> & Hl & Hla & -> & Hlmax).
  replace (firstn _ _) with (stem ++ e).
  2:{ symmetry.
      replace (stem ++ e ++ lit ":" ++ l ++ post) with ((stem ++ e) ++ lit ":" ++ l ++ post)
        by (rewrite <- !app_assoc; reflexivity).
      apply firstn_length_app. }
  exists (stem ++ e), l. split; [reflexivity|]. split.
  { apply SimpleAt_code. exists stem, e, post. repeat split; auto. }
  intros f' l' H'.
  apply SimpleAt_code in H' as (stem' & e' & post' & E' & -> & He' & Hs' & Hsa' & Hl' & Hla').
  cbn [app] in E'.
  pose proof (extension_length He) as Le. pose proof (extension_length He') as Le'.
  assert (Lstem : length stem' <= length stem).
  { destruct (Nat.le_gt_cases (length stem') (length stem)) as [L | L]; [exact L|].
    exfalso. specialize (Hmax stem' _ E' Hsa' L).
    revert Hmax. apply m_complete with (c := []).
    - apply jsExtension_matches. auto.
    - cbn [app].
      replace (lit ":" ++ l' ++ post') with ((lit ":" ++ l') ++ post')
        by (rewrite <- !app_assoc; reflexivity).
      apply m_complete with (c := [l']); [now apply lineNumber_matches | discriminate]. }
  rewrite !length_app.
  assert (Same : length stem' + length e' = length stem + length e ->
                 length l' <= length l).
  { intros L.
    assert (E2 : (stem ++ e) ++ lit ":" ++ l ++ post = (stem' ++ e') ++ lit ":" ++ l' ++ post')
      by (rewrite <- !app_assoc; exact E').
    apply app_same_length in E2 as [_ E2]; [|rewrite !length_app; lia].
    simpl in E2. injection E2 as E2. exact (Hlmax l' post' E2 Hla'). }
  split; [|exact Same].
  destruct (Nat.eq_dec (length stem') (length stem)) as [L | L]; [|lia].
  apply app_same_length in E' as [<- E']; [|lia].
  apply extension_unique in E' as [<- _]; auto.
Qed.

Lemma SimpleAt_shift pre rest f l :
  SimpleAt (pre ++ rest) pre f l <-> SimpleAt rest [] f l.
Proof.
  unfold SimpleAt. split; intros ((post & E) & H); (split; [exists post|exact H]).
  - apply app_inv_head in E. exact E.
  - simpl in E. now rewrite E.
Qed.

Lemma SimpleAt_rest text pre f l :
  SimpleAt text pre f l -> exists rest, text = pre ++ rest /\ SimpleAt rest [] f l.
Proof.
  intros H. pose proof H as ((post & E) & _).
  eexists. split; [exact E|]. apply (proj1 (@SimpleAt_shift pre _ f l)).
  rewrite <- E. exact H.
Qed.

(** The matcher stops at the first [file.js:line]. *)
Lemma exec_simple_first text cs :
  exec simplePattern text = Some cs ->
  exists f l, cs = [f; l] /\ FirstSimpleLoc text f l.
Proof.
  intros H. apply exec_first in H as (pre & rest & -> & Hm & Hmin).
  apply simple_here in Hm as (f & l & -> & Hat & Hmax).
  exists f, l. split; [reflexivity|]. exists pre.
  split; [exact (proj2 (@SimpleAt_shift pre rest f l) Hat)|].
  intros pre' f' l' H'. apply SimpleAt_rest in H' as (rest' & E & Hat').
  assert (L : length pre <= length pre').
  { destruct (Nat.le_gt_cases (length pre) (length pre')) as [L | L]; [exact L|].
    exfalso. apply (simple_here_complete Hat'). exact (Hmin pre' rest' E L). }
  split; [exact L|]. intros L'.
  apply app_same_length in E as [_ <-]; [|lia]. exact (Hmax f' l' Hat').
Qed.

Lemma FirstSimpleLoc_unique text f l f' l' :
  FirstSimpleLoc text f l -> FirstSimpleLoc text f' l' -> f = f' /\ l = l'.
Proof.
  intros (pre & Hat & Hmin) (pre' & Hat' & Hmin').
  destruct (Hmin _ _ _ Hat') as [L1 M1]. destruct (Hmin' _ _ _ Hat) as [L2 M2].
  assert (L : length pre' = length pre) by lia.
  destruct (M1 L) as [F1 G1]. destruct (M2 (eq_sym L)) as [F2 G2].
  assert (F : length f' = length f) by lia.
  assert (G : length l' = length l) by (specialize (G1 F); specialize (G2 (eq_sym F)); lia).
  destruct Hat as ((post & E) & _). destruct Hat' as ((post' & E') & _).
  rewrite E in E'. apply app_same_length in E' as [_ E']; [|lia].
  apply app_same_length in E' as [<- E']; [|lia].
  simpl in E'. injection E' as E'.
  apply app_same_length in E' as [<- _]; [|lia]. auto.
Qed.

(** C6.  Source-location extraction makes two ordered attempts, and each
    returns the location it finds first.  When the text holds a
    parenthesized [(file:line:column)], it has a first one (none starts
    further left), and the result is the file of that one, with the
    numbers its line and its column denote.  Otherwise, when the text
    holds a [file.js:line] or [file.jsx:line], it has a first one (none
    starts further left, and none at that place has a longer file, or
    more digits behind the same file), and the result is the file of that
    one with the number its line denotes, and no column.  Otherwise there
    is no source.  The result depends on the text only. *)
Theorem parseErrorSource_two_attempts (text : jstring) :
  ((exists pre f l c, ParenAt text pre f l c) ->
   exists f l c,
     FirstParenLoc text f l c
     /\ (forall f' l' c', FirstParenLoc text f' l' c' -> f' = f /\ l' = l /\ c' = c)
     /\ parseErrorSource text
        = Some {| file := f; line := Some (Num (place_value l));
                  column := Some (Num (place_value c)) |})
  /\ ((forall pre f l c, ~ ParenAt text pre f l c) ->
      (exists pre f l, SimpleAt text pre f l) ->
      exists f l,
        FirstSimpleLoc text f l
        /\ (forall f' l', FirstSimpleLoc text f' l' -> f' = f /\ l' = l)
        /\ parseErrorSource text
           = Some {| file := f; line := Some (Num (place_value l)); column := None |})
  /\ ((forall pre f l c, ~ ParenAt text pre f l c) ->
      (forall pre f l, ~ SimpleAt text pre f l) ->
      parseErrorSource text = None).
Proof.
  assert (HP : forall pre f l c, ParenAt text pre f l c -> exec parenPattern text <> None).
  { intros pre f l c H. apply ParenAt_code in H as ((post & ->) & Hf & Hfa & Hl & Hla & Hc & Hca).
    apply exec_complete with (c := [f; l; c]).
    apply paren_matches. exists f, l, c. repeat split; auto. }
  assert (HS : forall pre f l, SimpleAt text pre f l -> exec simplePattern text <> None).
  { intros pre f l H. apply SimpleAt_rest in H as (rest & -> & H).
    apply SimpleAt_code in H as (stem & e & post & -> & -> & He & Hs & Hsa & Hl & Hla).
    cbn [app].
    replace (stem ++ e ++ lit ":" ++ l ++ post) with (((stem ++ e) ++ lit ":" ++ l) ++ post)
      by (rewrite <- !app_assoc; reflexivity).
    apply exec_complete with (c := [stem ++ e; l]).
    apply simple_matches. exists stem, e, l. repeat split; auto. }
  assert (HnP : (forall pre f l c, ~ ParenAt text pre f l c) -> exec parenPattern text = None).
  { intros Hn. destruct (exec parenPattern text) as [cs|] eqn:E; [exfalso | reflexivity].
    apply exec_paren_first in E as (f & l & c & _ & pre & Hat & _). exact (Hn _ _ _ _ Hat). }
  unfold parseErrorSource. split; [|split].
  - intros (pre & f & l & c & Hat).
    destruct (exec parenPattern text) as [cs|] eqn:E; [|exfalso; exact (HP _ _ _ _ Hat eq_refl)].
    apply exec_paren_first in E as (f0 & l0 & c0 & -> & Hfirst).
    exists f0, l0, c0. split; [exact Hfirst|]. split.
    + intros f' l' c' H'. exact (FirstParenLoc_unique H' Hfirst).
    + destruct Hfirst as (pre0 & (_ & _ & _ & Hl0 & Hc0) & _).
      unfold group. cbn [nth Nat.sub]. now rewrite !parseInt_places.
  - intros Hn (pre & f & l & Hat). rewrite (HnP Hn).
    destruct (exec simplePattern text) as [cs|] eqn:E; [|exfalso; exact (HS _ _ _ Hat eq_refl)].
    apply exec_simple_first in E as (f0 & l0 & -> & Hfirst).
    exists f0, l0. split; [exact Hfirst|]. split.
    + intros f' l' H'. exact (FirstSimpleLoc_unique H' Hfirst).
    + destruct Hfirst as (pre0 & (_ & _ & Hl0) & _).
      unfold group. cbn [nth Nat.sub]. now rewrite parseInt_places.
  - intros Hn Hns. rewrite (HnP Hn).
    destruct (exec simplePattern text) as [cs|] eqn:E; [exfalso | reflexivity].
    apply exec_simple_first in E as (f & l & _ & pre & Hat & _). exact (Hns _ _ _ Hat).
Qed.


Lemma parseErrorSource_two_attempts_witness :
  (exists pre f l c, ParenAt two_frames pre f l c)
  /\ (exists f l c,
        FirstParenLoc two_frames f l c
        /\ (forall f' l' c',
              FirstParenLoc two_frames f' l' c' -> f' = f /\ l' = l /\ c' = c)
        /\ parseErrorSource two_frames
           = Some {| file := f; line := Some (Num (place_value l));
                     column := Some (Num (place_value c)) |})
  /\ parseErrorSource two_frames
     = Some {| file := lit "App.jsx"; line := Some (Num 42); column := Some (Num 15) |}.
Proof.
  assert (H : exists pre f l c, ParenAt two_frames pre f l c).
  { exists [], (lit "App.jsx"), (lit "42"), (lit "15").
    split; [exists (lit " at main (index.js:7:3)"); reflexivity|].
    split; [discriminate|].
    split; [apply no_rparen_code; reflexivity|].
    split; apply digit_run_code; (split; [discriminate | reflexivity]). }
  split; [exact H|].
  split; [exact (proj1 (@parseErrorSource_two_attempts two_frames) H) | reflexivity].
Defined.
